(** * UC control module: protocol engine of [index.js]

    A shallow embedding of the packet codec, the TCP frame reassembler, the
    state store and the toggle commands of [UCControlInstance], followed by
    the properties of the specification that were checked against it.

    Conventions.
    - A Node [Buffer] is a [list byte]; integers read from or written to a
      buffer are [Z]; offsets are [Z] because the source computes negative
      ones ([data.length - 4]).
    - A JS string is the list of its UTF-16 code units ([list Z]).
    - A JS number that is not an integer by construction is a
      [spec_float] (IEEE-754 binary64 as specified in the Standard Library).
    - [this.channelStates] is a [gmap] from the channel number to the
      channel record, itself a [gmap] from the attribute name to a boolean.
    - A JS exception is a value of [exn]; code that may throw returns a
      [result]; methods of the instance run in the monad [M], which keeps
      the mutations made before a throw.
    - [this.log] at level debug and [this.checkFeedbacks] (a request to the
      host to re-render) are not modelled. *)

From Stdlib Require Import ZArith List String Ascii Bool Lia.
From Stdlib Require Import Strings.Byte.
From Stdlib Require Import Floats.SpecFloat.
From stdpp Require Import gmap strings list fin_maps.

Import ListNotations.
Local Open Scope Z_scope.

(** ** Exceptions *)

Inductive exn : Type :=
| Error (message : string)      (* [new Error(message)] of the source *)
| RangeError                    (* ERR_OUT_OF_RANGE of Buffer reads and writes *)
| TypeError                     (* property access on null, ToPrimitive failure *)
| LibraryError (message : string). (* thrown by zlib or JSON.parse *)

Inductive result (A : Type) : Type :=
| Ok (a : A)
| Throw (e : exn).
Arguments Ok {A} a.
Arguments Throw {A} e.

#[global] Instance result_ret : MRet result := fun A a => Ok a.

#[global] Instance result_bind : MBind result := fun A B k r =>
  match r with
  | Ok a => k a
  | Throw e => Throw e
  end.

(** ** Buffers *)

Module Buf.

Definition byte_val (b : byte) : Z := Z.of_N (Byte.to_N b).

Definition byte_of (z : Z) : byte :=
  match Byte.of_N (Z.to_N (z mod 256)) with
  | Some b => b
  | None => x00
  end.

Definition len (buf : list byte) : Z := Z.of_nat (length buf).

Definition at_ (buf : list byte) (i : Z) : Z :=
  byte_val (nth (Z.to_nat i) buf x00).

(** [adjustOffset] of Node's [Buffer.prototype.slice]: a negative offset
    counts from the end, and the result is clamped to [0, length]. *)
Definition adjustOffset (offset length : Z) : Z :=
  if offset <? 0 then Z.max 0 (offset + length) else Z.min offset length.

(** [buf.slice(start, end)] *)
Definition slice (buf : list byte) (start end_ : Z) : list byte :=
  let s := adjustOffset start (len buf) in
  let e := adjustOffset end_ (len buf) in
  firstn (Z.to_nat (e - s)) (skipn (Z.to_nat s) buf).

(** [buf.slice(start)] *)
Definition slice_from (buf : list byte) (start : Z) : list byte :=
  slice buf start (len buf).

(** [buf.readUInt16LE(offset)] *)
Definition readUInt16LE (buf : list byte) (offset : Z) : result Z :=
  if (offset <? 0) || (len buf <? offset + 2) then Throw RangeError
  else Ok (at_ buf offset + 256 * at_ buf (offset + 1)).

(** [buf.readUInt32LE(offset)] *)
Definition readUInt32LE (buf : list byte) (offset : Z) : result Z :=
  if (offset <? 0) || (len buf <? offset + 4) then Throw RangeError
  else Ok (at_ buf offset + 256 * at_ buf (offset + 1)
           + 65536 * at_ buf (offset + 2) + 16777216 * at_ buf (offset + 3)).

(** [b = Buffer.alloc(2); b.writeUInt16LE(value, 0)] *)
Definition writeUInt16LE (value : Z) : result (list byte) :=
  if (value <? 0) || (65535 <? value) then Throw RangeError
  else Ok [byte_of value; byte_of (value / 256)].

(** [b = Buffer.alloc(4); b.writeUInt32LE(value, 0)] *)
Definition writeUInt32LE (value : Z) : result (list byte) :=
  if (value <? 0) || (4294967295 <? value) then Throw RangeError
  else Ok [byte_of value; byte_of (value / 256);
           byte_of (value / 65536); byte_of (value / 16777216)].

Fixpoint starts_with (needle buf : list byte) : bool :=
  match needle, buf with
  | [], _ => true
  | _ :: _, [] => false
  | n :: needle', b :: buf' => Byte.eqb n b && starts_with needle' buf'
  end.

Fixpoint indexOf_from (needle buf : list byte) (i : Z) : Z :=
  match buf with
  | [] => -1
  | _ :: tl => if starts_with needle buf then i else indexOf_from needle tl (i + 1)
  end.

(** [buf.indexOf(needle, 0)] for a non-empty needle: the offset of the first
    occurrence, [-1] when there is none. *)
Definition indexOf (buf needle : list byte) : Z := indexOf_from needle buf 0.

End Buf.

(** ** Strings *)

Module Str.

(** A string literal of the source, as code units. *)
Definition js (s : string) : list Z :=
  map (fun b => Buf.byte_val b) (list_byte_of_string s).

Definition eqb (s t : list Z) : bool := bool_decide (s = t).

(** The decimal digits of [n], most significant first, at most [fuel] of
    them. *)
Fixpoint digits_of (fuel : nat) (n : N) (acc : list Z) : list Z :=
  match fuel with
  | O => acc
  | S fuel' =>
    let acc' := (48 + Z.of_N (n mod 10)) :: acc in
    if (n <? 10)%N then acc' else digits_of fuel' (n / 10) acc'
  end.

(** [`${n}`] for a non-negative integer [n] below 1e21, where JS prints
    all the digits (21 at most). *)
Definition of_number (n : N) : list Z := digits_of 21 n [].

(** [Buffer.from(s, 'ascii')]: the low byte of every code unit *)
Definition to_ascii_bytes (s : list Z) : list byte := map Buf.byte_of s.

(** [buf.toString('ascii', start, end)]: Node clears the high bit of every
    byte when it decodes ASCII. *)
Definition of_ascii_bytes (buf : list byte) (start end_ : Z) : list Z :=
  let s := Z.max 0 start in
  let e := Z.min end_ (Buf.len buf) in
  map (fun b => Z.land (Buf.byte_val b) 127)
      (firstn (Z.to_nat (e - s)) (skipn (Z.to_nat s) buf)).

(** *** UTF-8 *)

Definition is_high_surrogate (c : Z) : bool := (0xD800 <=? c) && (c <=? 0xDBFF).
Definition is_low_surrogate (c : Z) : bool := (0xDC00 <=? c) && (c <=? 0xDFFF).

Definition utf8_bytes_of_code_point (cp : Z) : list byte :=
  if cp <? 0x80 then [Buf.byte_of cp]
  else if cp <? 0x800 then
    [Buf.byte_of (Z.lor 0xC0 (Z.shiftr cp 6));
     Buf.byte_of (Z.lor 0x80 (Z.land cp 0x3F))]
  else if cp <? 0x10000 then
    [Buf.byte_of (Z.lor 0xE0 (Z.shiftr cp 12));
     Buf.byte_of (Z.lor 0x80 (Z.land (Z.shiftr cp 6) 0x3F));
     Buf.byte_of (Z.lor 0x80 (Z.land cp 0x3F))]
  else
    [Buf.byte_of (Z.lor 0xF0 (Z.shiftr cp 18));
     Buf.byte_of (Z.lor 0x80 (Z.land (Z.shiftr cp 12) 0x3F));
     Buf.byte_of (Z.lor 0x80 (Z.land (Z.shiftr cp 6) 0x3F));
     Buf.byte_of (Z.lor 0x80 (Z.land cp 0x3F))].

(** [Buffer.from(s, 'utf8')]: surrogate pairs are combined, a lone
    surrogate is written as U+FFFD. *)
Fixpoint to_utf8 (s : list Z) : list byte :=
  match s with
  | [] => []
  | c :: rest =>
    if is_high_surrogate c then
      match rest with
      | c2 :: rest' =>
        if is_low_surrogate c2 then
          utf8_bytes_of_code_point
            (0x10000 + (c - 0xD800) * 0x400 + (c2 - 0xDC00)) ++ to_utf8 rest'
        else utf8_bytes_of_code_point 0xFFFD ++ to_utf8 rest
      | [] => utf8_bytes_of_code_point 0xFFFD
      end
    else if is_low_surrogate c then utf8_bytes_of_code_point 0xFFFD ++ to_utf8 rest
    else utf8_bytes_of_code_point c ++ to_utf8 rest
  end.

(** The decoder of [buf.toString('utf8')]: the state is the code point
    under construction, the number of continuation bytes still needed and
    the range allowed for the next byte. An ill-formed sequence gives one
    U+FFFD per maximal subpart. *)
Record utf8_state : Type := Utf8 {
  code_point : Z;
  needed : nat;
  lower : Z;
  upper : Z;
}.

Definition utf8_init : utf8_state := Utf8 0 0 0x80 0xBF.

(** A byte read while no sequence is open. *)
Definition utf8_lead (v : Z) : list Z * utf8_state :=
  if v <=? 0x7F then ([v], utf8_init)
  else if (0xC2 <=? v) && (v <=? 0xDF) then ([], Utf8 (Z.land v 0x1F) 1 0x80 0xBF)
  else if (0xE0 <=? v) && (v <=? 0xEF) then
    ([], Utf8 (Z.land v 0xF) 2
              (if v =? 0xE0 then 0xA0 else 0x80)
              (if v =? 0xED then 0x9F else 0xBF))
  else if (0xF0 <=? v) && (v <=? 0xF4) then
    ([], Utf8 (Z.land v 0x7) 3
              (if v =? 0xF0 then 0x90 else 0x80)
              (if v =? 0xF4 then 0x8F else 0xBF))
  else ([0xFFFD], utf8_init).

Definition utf8_step (st : utf8_state) (v : Z) : list Z * utf8_state :=
  match needed st with
  | O => utf8_lead v
  | S n =>
    if (v <? lower st) || (upper st <? v) then
      let '(out, st') := utf8_lead v in (0xFFFD :: out, st')
    else
      let cp := Z.lor (Z.shiftl (code_point st) 6) (Z.land v 0x3F) in
      match n with
      | O => ([cp], utf8_init)
      | S _ => ([], Utf8 cp n 0x80 0xBF)
      end
  end.

Fixpoint utf8_decode (st : utf8_state) (buf : list byte) : list Z :=
  match buf with
  | [] => match needed st with O => [] | S _ => [0xFFFD] end
  | b :: rest =>
    let '(out, st') := utf8_step st (Buf.byte_val b) in
    out ++ utf8_decode st' rest
  end.

Definition utf16_of_code_point (cp : Z) : list Z :=
  if cp <? 0x10000 then [cp]
  else [0xD800 + Z.shiftr (cp - 0x10000) 10; 0xDC00 + Z.land (cp - 0x10000) 0x3FF].

(** [buf.toString('utf8')] *)
Definition of_utf8 (buf : list byte) : list Z :=
  flat_map utf16_of_code_point (utf8_decode utf8_init buf).

(** [s.replace(/\0/g, '')] *)
Definition strip_nul (s : list Z) : list Z := filter (fun c => c ≠ 0) s.

Definition is_digit (c : Z) : bool := (48 <=? c) && (c <=? 57).

(** The longest run of decimal digits at the front of [s], and what follows. *)
Fixpoint span_digits (s : list Z) : list Z * list Z :=
  match s with
  | c :: rest =>
    if is_digit c then let '(ds, tl) := span_digits rest in (c :: ds, tl)
    else ([], s)
  | [] => ([], [])
  end.

(** [parseInt(digits, 10)] on a non-empty run of decimal digits.  The
    result is exact; JS agrees below 2^53, which covers every channel the
    host can configure. *)
Definition parseInt10 (digits : list Z) : N :=
  fold_left (fun acc c => (10 * acc + Z.to_N (c - 48))%N) digits 0%N.

Fixpoint strip_prefix (p s : list Z) : option (list Z) :=
  match p, s with
  | [], _ => Some s
  | _ :: _, [] => None
  | a :: p', b :: s' => if a =? b then strip_prefix p' s' else None
  end.

End Str.

(** ** 32-bit floats on the wire *)

Module Float32.

(** The number nearest to [x] in binary32 (ties to even), which is what
    [writeFloatLE] stores. *)
Definition round (x : spec_float) : spec_float :=
  match x with
  | S754_finite s m e => binary_round 24 128 s m e
  | _ => x
  end.

Definition sign_bit (s : bool) : Z := if s then 0x80000000 else 0.

(** The binary32 encoding of a number. *)
Definition to_bits (x : spec_float) : Z :=
  match round x with
  | S754_zero s => sign_bit s
  | S754_infinity s => sign_bit s + 0x7F800000
  | S754_nan => 0x7FC00000
  | S754_finite s m e =>
    sign_bit s +
    (if Z.pos m <? 0x800000 then Z.pos m
     else (e + 150) * 0x800000 + (Z.pos m - 0x800000))
  end.

(** The number a binary32 encoding stands for, with the mantissa and the
    exponent of binary32. *)
Definition of_bits (w : Z) : spec_float :=
  let s := Z.testbit w 31 in
  let e := Z.land (Z.shiftr w 23) 0xFF in
  let m := Z.land w 0x7FFFFF in
  if e =? 0 then
    match m with
    | Z.pos p => S754_finite s p (-149)
    | _ => S754_zero s
    end
  else if e =? 255 then
    if m =? 0 then S754_infinity s else S754_nan
  else
    match m + 0x800000 with
    | Z.pos p => S754_finite s p (e - 150)
    | _ => S754_nan
    end.

(** [b = Buffer.alloc(4); b.writeFloatLE(value, 0)] *)
Definition writeFloatLE (value : spec_float) : list byte :=
  let w := to_bits value in
  [Buf.byte_of w; Buf.byte_of (w / 256);
   Buf.byte_of (w / 65536); Buf.byte_of (w / 16777216)].

(** [buf.readFloatLE(offset)] *)
Definition readFloatLE (buf : list byte) (offset : Z) : result spec_float :=
  w ← Buf.readUInt32LE buf offset; mret (of_bits w).

(** The literals [1.0] and [0.0] of the source. *)
Definition one : spec_float := S754_finite false 4503599627370496 (-52).
Definition zero : spec_float := S754_zero false.

(** [x > 0] on numbers *)
Definition gt0 (x : spec_float) : bool := SFltb zero x.

End Float32.

(** ** Packet codec *)

Record AddressPair : Type := { a : Z; b : Z }.

Record Packet : Type := {
  type : list Z;
  addressPair : AddressPair;
  data : list byte;
}.

(** [Buffer.from('UC\x00\x01', 'ascii')] *)
Definition header_bytes : list byte := Str.to_ascii_bytes (Str.js "UC" ++ [0; 1]).

Definition buildUMPacket (udpPort : Z) : result (list byte) :=
  let header := header_bytes in
  let type := Str.to_ascii_bytes (Str.js "UM") in
  a ← Buf.writeUInt16LE 0x00;
  b ← Buf.writeUInt16LE 0x66;
  let addressPair := a ++ b in
  portBuffer ← Buf.writeUInt16LE udpPort;
  let payload := type ++ addressPair ++ portBuffer in
  size ← Buf.writeUInt16LE (Buf.len payload);
  mret (header ++ size ++ payload).

(** [JSON.stringify] on the object literal of [buildJMPacket]: string and
    number fields only, and no character that needs an escape. *)
Inductive field : Type :=
| FStr (s : string)
| FNum (n : N).

Definition quoted (s : list Z) : list Z := [34] ++ s ++ [34].

Definition stringify_field (kv : string * field) : list Z :=
  quoted (Str.js kv.1) ++ Str.js ":" ++
  match kv.2 with
  | FStr s => quoted (Str.js s)
  | FNum n => Str.of_number n
  end.

Fixpoint join_comma (parts : list (list Z)) : list Z :=
  match parts with
  | [] => []
  | [p] => p
  | p :: rest => p ++ Str.js "," ++ join_comma rest
  end.

Definition stringify_object (fields : list (string * field)) : list Z :=
  Str.js "{" ++ join_comma (map stringify_field fields) ++ Str.js "}".

Definition subMsg : list (string * field) :=
  [ ("id"%string, FStr "Subscribe");
    ("clientName"%string, FStr "Universal Control");
    ("clientInternalName"%string, FStr "ucremoteapp");
    ("clientType"%string, FStr "iPhone");
    ("clientDescription"%string, FStr "iPhone");
    ("clientIdentifier"%string, FStr "BE705B5B-ACEC-4941-9ABA-4FB5CA04AC6D");
    ("clientOptions"%string, FStr EmptyString);
    ("clientEncoding"%string, FNum 23117) ].

Definition buildJMPacket : result (list byte) :=
  let header := header_bytes in
  let type := Str.to_ascii_bytes (Str.js "JM") in
  a ← Buf.writeUInt16LE 0x68;
  b ← Buf.writeUInt16LE 0x66;
  let addressPair := a ++ b in
  let subMsgStr := stringify_object subMsg in
  let subMsgBuffer := Str.to_utf8 subMsgStr in
  subMsgLength ← Buf.writeUInt32LE (Buf.len subMsgBuffer);
  let payload := type ++ addressPair ++ subMsgLength ++ subMsgBuffer in
  size ← Buf.writeUInt16LE (Buf.len payload);
  mret (header ++ size ++ payload).

Definition buildKAPacket : result (list byte) :=
  let header := header_bytes in
  let type := Str.to_ascii_bytes (Str.js "KA") in
  a ← Buf.writeUInt16LE 0x68;
  b ← Buf.writeUInt16LE 0x66;
  let addressPair := a ++ b in
  let payload := type ++ addressPair in
  size ← Buf.writeUInt16LE (Buf.len payload);
  mret (header ++ size ++ payload).

Definition buildPVPacket (name : list Z) (value : spec_float) : result (list byte) :=
  let header := header_bytes in
  let type := Str.to_ascii_bytes (Str.js "PV") in
  a ← Buf.writeUInt16LE 0x68;
  b ← Buf.writeUInt16LE 0x66;
  let addressPair := a ++ b in
  let nameBuffer := Str.to_utf8 name in
  let padding := [x00; x00; x00] in
  let valueBuffer := Float32.writeFloatLE value in
  let payload := type ++ addressPair ++ nameBuffer ++ padding ++ valueBuffer in
  size ← Buf.writeUInt16LE (Buf.len payload);
  mret (header ++ size ++ payload).

Definition parsePacket (data : list byte) : result Packet :=
  if Buf.len data <? 6 then Throw (Error "Packet too small to be valid")
  else
    let header := Buf.slice data 0 6 in
    if negb (Str.eqb (Str.of_ascii_bytes header 0 2) (Str.js "UC"))
    then Throw (Error "Invalid header")
    else
      version ← Buf.readUInt16LE header 2;
      if negb (version =? 1) then Throw (Error "Invalid header")
      else
        size ← Buf.readUInt16LE header 4;
        if Buf.len data <? 6 + size then Throw (Error "Incomplete packet")
        else
          let payload := Buf.slice data 6 (6 + size) in
          let type := Str.of_ascii_bytes payload 0 2 in
          a ← Buf.readUInt16LE payload 2;
          b ← Buf.readUInt16LE payload 4;
          mret {| type := type;
                  addressPair := {| a := a; b := b |};
                  data := Buf.slice_from payload 6 |}.


(** ** The instance *)

(** Calls of [this.log] above the debug level, one constructor per call
    site. *)
Inductive LogEntry : Type :=
| WarnNoHeader                       (* 'No valid header found in TCP data, discarding buffer' *)
| WarnDiscarding (headerIndex : Z)   (* `Discarding ${headerIndex} bytes before 'UC' header` *)
| WarnInvalidVersion                 (* 'Invalid version in header, discarding and searching for next header' *)
| ErrorParsingTCP (error : exn)      (* `Error parsing TCP packet: ${error.message}` *)
| ErrorParsingUDP (error : exn)      (* `Error parsing UDP data: ${error.message}` *)
| ErrorDecompressing (error : exn)   (* `Error decompressing ZM packet data: ${error.message}` *)
| ErrorNotConnected                  (* 'TCP client is not connected' *)
| InfoToggled (channelNumber : N) (attr : string) (newState : bool)
                                     (* `Channel ${channelNumber} mute toggled to ${newMuteState}` *)
| WarnUnknown (channelNumber : N) (attr : string)
                                     (* `Channel ${channelNumber} mute state unknown. Defaulting to mute.` *)
| InfoCallingCheckFeedbacks          (* 'Calling checkFeedbacks for channel_mute_state' *)
| InfoBypassToggled (newBypassState : bool).
                                     (* `Mixer Bypass toggled to ${newBypassState}` *)

Record State : Type := {
  channelStates : gmap N (gmap string bool);
  mixerBypassState : bool;
  receiveBuffer : list byte;
  (* [this.tcpClient && !this.tcpClient.destroyed] *)
  tcpWritable : bool;
  (* the buffers given to [this.tcpClient.write], oldest first *)
  tcpWritten : list (list byte);
  (* the calls of [this.log], oldest first *)
  logged : list LogEntry;
}.

(** The state after [constructor]; no socket exists yet. *)
Definition constructor : State := {|
  channelStates := ∅;
  mixerBypassState := false;
  receiveBuffer := [];
  tcpWritable := false;
  tcpWritten := [];
  logged := [];
|}.

Definition set_channelStates (f : gmap N (gmap string bool) → gmap N (gmap string bool))
    (st : State) : State :=
  {| channelStates := f (channelStates st);
     mixerBypassState := mixerBypassState st;
     receiveBuffer := receiveBuffer st;
     tcpWritable := tcpWritable st;
     tcpWritten := tcpWritten st;
     logged := logged st |}.

Definition set_mixerBypassState (v : bool) (st : State) : State :=
  {| channelStates := channelStates st;
     mixerBypassState := v;
     receiveBuffer := receiveBuffer st;
     tcpWritable := tcpWritable st;
     tcpWritten := tcpWritten st;
     logged := logged st |}.

Definition set_receiveBuffer (buf : list byte) (st : State) : State :=
  {| channelStates := channelStates st;
     mixerBypassState := mixerBypassState st;
     receiveBuffer := buf;
     tcpWritable := tcpWritable st;
     tcpWritten := tcpWritten st;
     logged := logged st |}.

Definition add_tcpWritten (packet : list byte) (st : State) : State :=
  {| channelStates := channelStates st;
     mixerBypassState := mixerBypassState st;
     receiveBuffer := receiveBuffer st;
     tcpWritable := tcpWritable st;
     tcpWritten := tcpWritten st ++ [packet];
     logged := logged st |}.

Definition add_logged (entry : LogEntry) (st : State) : State :=
  {| channelStates := channelStates st;
     mixerBypassState := mixerBypassState st;
     receiveBuffer := receiveBuffer st;
     tcpWritable := tcpWritable st;
     tcpWritten := tcpWritten st;
     logged := logged st ++ [entry] |}.

(** A method of the instance: it returns or throws, and in both cases
    leaves a state behind. *)
Definition M (A : Type) : Type := State → result A * State.

#[global] Instance M_ret : MRet M := fun A a st => (Ok a, st).

#[global] Instance M_bind : MBind M := fun A B k m st =>
  match m st with
  | (Ok a, st') => k a st'
  | (Throw e, st') => (Throw e, st')
  end.

Definition get_state : M State := fun st => (Ok st, st).
Definition modify (f : State → State) : M unit := fun st => (Ok tt, f st).
Definition throw {A} (e : exn) : M A := fun st => (Throw e, st).
Definition lift {A} (r : result A) : M A := fun st => (r, st).
Definition log (entry : LogEntry) : M unit := modify (add_logged entry).

(** [try { body } catch (error) { handler }] *)
Definition try_catch {A} (body : M A) (handler : exn → M A) : M A := fun st =>
  match body st with
  | (Ok a, st') => (Ok a, st')
  | (Throw e, st') => handler e st'
  end.

Fixpoint for_each {A} (xs : list A) (body : A → M unit) : M unit :=
  match xs with
  | [] => mret tt
  | x :: rest => body x ;; for_each rest body
  end.

(** [this.channelStates[channelNumber]] *)
Definition channel (st : State) (channelNumber : N) : option (gmap string bool) :=
  channelStates st !! channelNumber.

(** The test [currentState && typeof currentState.attr === 'boolean'] of
    the toggles and of the feedback callbacks, with the value when it
    passes. *)
Definition known (st : State) (channelNumber : N) (attr : string) : option bool :=
  match channel st channelNumber with
  | Some currentState => currentState !! attr
  | None => None
  end.

(** [this.channelStates[channelNumber].attr = v]; a [TypeError] when the
    record does not exist. *)
Definition assign_attr (channelNumber : N) (attr : string) (v : bool) : M unit :=
  st ← get_state;
  match channel st channelNumber with
  | Some currentState =>
    modify (set_channelStates <[channelNumber := <[attr := v]> currentState]>)
  | None => throw TypeError
  end.

(** [{ ...currentState, [attr]: v }] *)
Definition spread_with (currentState : option (gmap string bool)) (attr : string) (v : bool)
    : gmap string bool :=
  <[attr := v]> (default ∅ currentState).

(** ** Values of a parsed snapshot *)

(** What [JSON.parse] returns, and what a property read on it can give:
    [VUndefined] for a missing property and [VFunction] for
    [Array.prototype.values]. *)
#[warnings="-register-all"]
Inductive value : Type :=
| VUndefined
| VNull
| VBool (b : bool)
| VNum (x : spec_float)
| VStr (s : list Z)
| VArr (items : list value)
| VObj (props : list (list Z * value))   (* own properties, in enumeration order *)
| VFunction.

(** Truthiness, as [&&] and [||] test it. *)
Definition truthy (v : value) : bool :=
  match v with
  | VUndefined | VNull => false
  | VBool b => b
  | VNum (S754_zero _) | VNum S754_nan => false
  | VNum _ => true
  | VStr [] => false
  | VStr _ => true
  | VArr _ | VObj _ | VFunction => true
  end.

Definition is_undefined (v : value) : bool :=
  match v with
  | VUndefined => true
  | _ => false
  end.

Fixpoint own_property (props : list (list Z * value)) (k : list Z) : value :=
  match props with
  | [] => VUndefined
  | (k', v) :: rest => if Str.eqb k' k then v else own_property rest k
  end.

(** [v.k] for the property names the source reads: [children], [line],
    [global], [values], [mixerBypass], [mute], [solo], [48v], [hpf] and
    [pad]. Of these only [values] is found on a prototype, that of arrays. *)
Definition get_prop (v : value) (k : string) : result value :=
  match v with
  | VUndefined | VNull => Throw TypeError
  | VObj props => Ok (own_property props (Str.js k))
  | VArr _ => Ok (if Str.eqb (Str.js k) (Str.js "values") then VFunction else VUndefined)
  | VBool _ | VNum _ | VStr _ | VFunction => Ok VUndefined
  end.

Fixpoint indexed {A} (i : N) (xs : list A) : list (list Z * A) :=
  match xs with
  | [] => []
  | x :: rest => (Str.of_number i, x) :: indexed (i + 1) rest
  end.

(** [Object.entries(v)] *)
Definition entries (v : value) : result (list (list Z * value)) :=
  match v with
  | VUndefined | VNull => Throw TypeError
  | VObj props => Ok props
  | VArr items => Ok (indexed 0 items)
  | VStr s => Ok (indexed 0 (map (fun c => VStr [c]) s))
  | VBool _ | VNum _ | VFunction => Ok []
  end.

(** What the source takes from its libraries and from the language. *)
Class Runtime : Type := {
  (* [zlib.inflateRawSync] *)
  inflateRawSync : list byte → result (list byte);
  (* [JSON.parse] *)
  JSON_parse : list Z → result value;
  (* [v > 0] when [v] is a string, an array, an object or a function:
     ToPrimitive, then ToNumber, then the comparison *)
  coerced_gt0 : value → result bool;
}.

Section Instance_methods.
Context `{Runtime}.

(** [v > 0] *)
Definition gt0 (v : value) : result bool :=
  match v with
  | VUndefined | VNull => Ok false
  | VBool b => Ok b
  | VNum x => Ok (Float32.gt0 x)
  | VStr _ | VArr _ | VObj _ | VFunction => coerced_gt0 v
  end.

(** [key.match(/^ch(\d+)$/)], giving the first group. *)
Definition match_channel_key (key : list Z) : option (list Z) :=
  match Str.strip_prefix (Str.js "ch") key with
  | Some rest =>
    match Str.span_digits rest with
    | ((_ :: _) as digits, []) => Some digits
    | _ => None
    end
  | None => None
  end.

Definition attributes : list string :=
  ["mute"; "solo"; "48v"; "hpf"; "pad"]%string.

(** [name.match(/^line\/ch(\d+)\/(mute|solo|48v|hpf|pad)$/)], giving the
    two groups. *)
Definition match_channel_path (name : list Z) : option (list Z * string) :=
  match Str.strip_prefix (Str.js "line/ch") name with
  | Some rest =>
    match Str.span_digits rest with
    | ((_ :: _) as digits, 47 :: attr) =>
      match find (fun p => Str.eqb (Str.js p) attr) attributes with
      | Some parameter => Some (digits, parameter)
      | None => None
      end
    | _ => None
    end
  | None => None
  end.

(** One of the five blocks [if (values.attr !== undefined) { ... }] of
    [updateChannelStates]. *)
Definition update_attr (values : value) (channelNumber : N) (attr : string) : M unit :=
  v ← lift (get_prop values attr);
  if is_undefined v then mret tt
  else
    active ← lift (gt0 v);
    assign_attr channelNumber attr active.

(** The body of the [for] loop of [updateChannelStates]. *)
Definition update_channel (entry : list Z * value) : M unit :=
  let '(key, channelData) := entry in
  match match_channel_key key with
  | Some digits =>
    values ← lift (get_prop channelData "values");
    if truthy values then
      let channelNumber := Str.parseInt10 digits in
      modify (set_channelStates (fun cs =>
        <[channelNumber := default ∅ (cs !! channelNumber)]> cs)) ;;
      update_attr values channelNumber "mute" ;;
      update_attr values channelNumber "solo" ;;
      update_attr values channelNumber "48v" ;;
      update_attr values channelNumber "hpf" ;;
      update_attr values channelNumber "pad"
    else mret tt
  | None => mret tt
  end.

(** [jsonData.children.line.children || {}] when the guard
    [jsonData && jsonData.children && jsonData.children.line] passes. *)
Definition line_children (jsonData : value) : result (option value) :=
  if truthy jsonData then
    children ← get_prop jsonData "children";
    if truthy children then
      line ← get_prop children "line";
      if truthy line then
        lineChildren ← get_prop line "children";
        mret (Some (if truthy lineChildren then lineChildren else VObj []))
      else mret None
    else mret None
  else mret None.

Definition updateChannelStates (jsonData : value) : M unit :=
  guard ← lift (line_children jsonData);
  match guard with
  | Some lineChildren =>
    items ← lift (entries lineChildren);
    for_each items update_channel
  | None => mret tt
  end.

(** [jsonData.children.global.values || {}] when the guard
    [jsonData && jsonData.children && jsonData.children.global] passes. *)
Definition global_values (jsonData : value) : result (option value) :=
  if truthy jsonData then
    children ← get_prop jsonData "children";
    if truthy children then
      global ← get_prop children "global";
      if truthy global then
        values ← get_prop global "values";
        mret (Some (if truthy values then values else VObj []))
      else mret None
    else mret None
  else mret None.

Definition updateGlobalStates (jsonData : value) : M unit :=
  guard ← lift (global_values jsonData);
  match guard with
  | Some globalValues =>
    v ← lift (get_prop globalValues "mixerBypass");
    if is_undefined v then mret tt
    else
      isBypassed ← lift (gt0 v);
      modify (set_mixerBypassState isBypassed)
  | None => mret tt
  end.

Definition handleZMPacket (packet : Packet) : M unit :=
  let data := data packet in
  unknown ← lift (Buf.readUInt32LE data 0);
  let compressedPayload := Buf.slice_from data 4 in
  try_catch
    (let compressedData := Buf.slice_from compressedPayload 2 in
     decompressed ← lift (inflateRawSync compressedData);
     let jsonStr := Str.of_utf8 decompressed in
     jsonData ← lift (JSON_parse jsonStr);
     updateChannelStates jsonData ;;
     updateGlobalStates jsonData)
    (fun error => log (ErrorDecompressing error)).

(** The first lines of [handlePVPacket]: the name and the value of the
    body. *)
Definition decode_pv (data : list byte) : result (list Z * spec_float) :=
  let nameLength := Buf.len data - 4 in
  let name := Str.strip_nul (Str.of_utf8 (Buf.slice data 0 nameLength)) in
  val ← Float32.readFloatLE data nameLength;
  mret (name, val).

(** The rest of [handlePVPacket]: the update of the state. *)
Definition apply_pv (name : list Z) (val : spec_float) : M unit :=
  if Str.eqb name (Str.js "global/mixerBypass") then
    let isBypassed := Float32.gt0 val in
    modify (set_mixerBypassState isBypassed)
  else
    match match_channel_path name with
    | Some (digits, parameter) =>
      let channelNumber := Str.parseInt10 digits in
      let isActive := Float32.gt0 val in
      modify (set_channelStates (fun cs =>
        <[channelNumber := spread_with (cs !! channelNumber) parameter isActive]> cs))
    | None => mret tt
    end.

Definition handlePVPacket (packet : Packet) : M unit :=
  decoded ← lift (decode_pv (data packet));
  apply_pv decoded.1 decoded.2.

(** ** Frame reassembler *)

(** How an iteration of the [while] loop of [handleIncomingData] ends:
    with [break], or by going back to the test of the loop. [decoded] is the
    packet of the iteration when its [try] block ran to the end. *)
Inductive Iteration : Type :=
| Break
| Continue (decoded : option Packet).

(** The [try { ... } catch (error) { ... }] at the end of the loop body. *)
Definition parse_and_dispatch (packetData : list byte) : M (option Packet) :=
  try_catch
    (packet ← lift (parsePacket packetData);
     (if Str.eqb (type packet) (Str.js "ZM") then handleZMPacket packet
      else if Str.eqb (type packet) (Str.js "PV") then handlePVPacket packet
      else mret tt) ;;
     mret (Some packet))
    (fun error =>
       log (ErrorParsingTCP error) ;;
       st ← get_state;
       modify (set_receiveBuffer (Buf.slice_from (receiveBuffer st) 2)) ;;
       mret None).

(** The loop body from the comment [Now check if we have enough data for
    a full header] on: the buffer starts with the header that was found. *)
Definition read_frame : M Iteration :=
  st ← get_state;
  if Buf.len (receiveBuffer st) <? 6 then mret Break
  else
    version ← lift (Buf.readUInt16LE (receiveBuffer st) 2);
    if negb (version =? 1) then
      log WarnInvalidVersion ;;
      modify (set_receiveBuffer (Buf.slice_from (receiveBuffer st) 2)) ;;
      mret (Continue None)
    else
      size ← lift (Buf.readUInt16LE (receiveBuffer st) 4);
      let totalSize := 6 + size in
      if Buf.len (receiveBuffer st) <? totalSize then mret Break
      else
        let packetData := Buf.slice (receiveBuffer st) 0 totalSize in
        modify (set_receiveBuffer (Buf.slice_from (receiveBuffer st) totalSize)) ;;
        decoded ← parse_and_dispatch packetData;
        mret (Continue decoded).

(** One run of the body of [while (this.receiveBuffer.length >= 6)]. *)
Definition loop_body : M Iteration :=
  st ← get_state;
  let headerIndex := Buf.indexOf (receiveBuffer st) (Str.to_ascii_bytes (Str.js "UC")) in
  if headerIndex =? -1 then
    log WarnNoHeader ;;
    modify (set_receiveBuffer []) ;;
    mret Break
  else
    (if 0 <? headerIndex then
       log (WarnDiscarding headerIndex) ;;
       modify (set_receiveBuffer (Buf.slice_from (receiveBuffer st) headerIndex))
     else mret tt) ;;
    read_frame.

(** The [while] loop. It returns the packets decoded, in order, or [None]
    when [fuel] iterations were not enough. *)
Fixpoint process_buffer (fuel : nat) : M (option (list Packet)) :=
  st ← get_state;
  if Buf.len (receiveBuffer st) <? 6 then mret (Some [])
  else
    match fuel with
    | O => mret None
    | S fuel' =>
      iteration ← loop_body;
      match iteration with
      | Break => mret (Some [])
      | Continue decoded =>
        rest ← process_buffer fuel';
        mret (app (option_list decoded) <$> rest)
      end
    end.

Definition handleIncomingData (data : list byte) : M (option (list Packet)) :=
  st ← get_state;
  modify (set_receiveBuffer (receiveBuffer st ++ data)) ;;
  st ← get_state;
  process_buffer (length (receiveBuffer st)).

(** ** Commands *)

Definition sendPacket (packet : list byte) : M unit :=
  st ← get_state;
  if tcpWritable st then modify (add_tcpWritten packet)
  else log ErrorNotConnected.

Definition bool_number (flag : bool) : spec_float :=
  if flag then Float32.one else Float32.zero.

(** [`line/ch${channelNumber}/${attr}`] *)
Definition channel_path (channelNumber : N) (attr : string) : list Z :=
  Str.js "line/ch" ++ Str.of_number channelNumber ++ Str.js "/" ++ Str.js attr.

Definition setMixerBypass (bypass : bool) : M unit :=
  packet ← lift (buildPVPacket (Str.js "global/mixerBypass") (bool_number bypass));
  sendPacket packet.

Definition setChannelMute (channelNumber : N) (mute : bool) : M unit :=
  packet ← lift (buildPVPacket (channel_path channelNumber "mute") (bool_number mute));
  sendPacket packet.

Definition setChannelSolo (channelNumber : N) (solo : bool) : M unit :=
  packet ← lift (buildPVPacket (channel_path channelNumber "solo") (bool_number solo));
  sendPacket packet.

Definition setChannel48V (channelNumber : N) (state : bool) : M unit :=
  packet ← lift (buildPVPacket (channel_path channelNumber "48v") (bool_number state));
  sendPacket packet.

Definition setChannelHPF (channelNumber : N) (state : bool) : M unit :=
  packet ← lift (buildPVPacket (channel_path channelNumber "hpf") (bool_number state));
  sendPacket packet.

Definition setChannelPad (channelNumber : N) (state : bool) : M unit :=
  packet ← lift (buildPVPacket (channel_path channelNumber "pad") (bool_number state));
  sendPacket packet.

Definition toggleMixerBypass : M unit :=
  st ← get_state;
  let newBypassState := negb (mixerBypassState st) in
  setMixerBypass newBypassState ;;
  modify (set_mixerBypassState newBypassState) ;;
  log (InfoBypassToggled newBypassState).

Definition toggleChannelMute (channelNumber : N) : M unit :=
  st ← get_state;
  let currentState := channel st channelNumber in
  match known st channelNumber "mute" with
  | Some mute =>
    let newMuteState := negb mute in
    setChannelMute channelNumber newMuteState ;;
    assign_attr channelNumber "mute" newMuteState ;;
    log (InfoToggled channelNumber "mute" newMuteState)
  | None =>
    setChannelMute channelNumber true ;;
    modify (set_channelStates <[channelNumber := {[ "mute"%string := true ]}]>) ;;
    log (WarnUnknown channelNumber "mute")
  end ;;
  log InfoCallingCheckFeedbacks.

(** The shape shared by [toggleChannelSolo], [toggleChannel48V],
    [toggleChannelHPF] and [toggleChannelPad]: [setChannel] is the setter of
    the attribute and [unknownDefault] the value sent and recorded when the
    state is not known. *)
Definition toggle_with_spread (attr : string) (setChannel : N → bool → M unit)
    (unknownDefault : bool) (channelNumber : N) : M unit :=
  st ← get_state;
  let currentState := channel st channelNumber in
  match known st channelNumber attr with
  | Some current =>
    let newState := negb current in
    setChannel channelNumber newState ;;
    assign_attr channelNumber attr newState ;;
    log (InfoToggled channelNumber attr newState)
  | None =>
    setChannel channelNumber unknownDefault ;;
    modify (set_channelStates
              <[channelNumber := spread_with currentState attr unknownDefault]>) ;;
    log (WarnUnknown channelNumber attr)
  end.

Definition toggleChannelSolo : N → M unit := toggle_with_spread "solo" setChannelSolo true.
Definition toggleChannel48V : N → M unit := toggle_with_spread "48v" setChannel48V false.
Definition toggleChannelHPF : N → M unit := toggle_with_spread "hpf" setChannelHPF false.
Definition toggleChannelPad : N → M unit := toggle_with_spread "pad" setChannelPad false.

(** ** Feedback callbacks *)

(** The two colours among [feedback.options]: the one for the active state
    ([mutedColor], [soloColor], [hpfColor], [onColor], [bypassedColor]) and
    the one for the inactive state. *)
Record FeedbackOptions : Type := {
  activeColor : Z;
  inactiveColor : Z;
}.

(** The channel feedbacks [initFeedbacks] defines. There are four: the
    source has none for pad, whose name [channel_pad_state] is only handed
    to [checkFeedbacks]. *)
Inductive ChannelFeedback : Type :=
| channel_mute_state
| channel_solo_state
| channel_hpf_state
| channel_48v_state.

(** The property of the channel record that the callback of a feedback
    tests with [typeof ... === 'boolean'] and reads. *)
Definition feedback_attr (id : ChannelFeedback) : string :=
  match id with
  | channel_mute_state => "mute"
  | channel_solo_state => "solo"
  | channel_hpf_state => "hpf"
  | channel_48v_state => "48v"
  end.

(** The callback of the feedback [id]: [Some bgcolor], or [None] for
    [null]. The four callbacks differ in the property they read and in the
    names of their two colours. *)
Definition channel_feedback (id : ChannelFeedback) (options : FeedbackOptions)
    (channel : N) (st : State) : option Z :=
  match known st channel (feedback_attr id) with
  | Some true => Some (activeColor options)
  | Some false => Some (inactiveColor options)
  | None => None
  end.

(** The callback of [mixer_bypass_state]. [this.mixerBypassState] is a
    boolean from the constructor on, so the [typeof] test always passes. *)
Definition mixer_bypass_feedback (options : FeedbackOptions) (st : State) : option Z :=
  if mixerBypassState st then Some (activeColor options)
  else Some (inactiveColor options).

(** ** Datagrams *)

(** The listener of 'message' on the UDP socket. The three tests of the
    [if] are evaluated from left to right, so [readUInt16LE] runs only on 6
    bytes or more. *)
Definition handleIncomingUDPData (data : list byte) : M unit :=
  try_catch
    (if (6 <=? Buf.len data) && Str.eqb (Str.of_ascii_bytes data 0 2) (Str.js "UC") then
       version ← lift (Buf.readUInt16LE data 2);
       if version =? 1 then
         packet ← lift (parsePacket data);
         if Str.eqb (type packet) (Str.js "ZM") then handleZMPacket packet
         else if Str.eqb (type packet) (Str.js "PV") then handlePVPacket packet
         else mret tt
       else mret tt
     else mret tt)
    (fun error => log (ErrorParsingUDP error)).

(** ** Subscription and keepalive *)

(** [subscribeToDevice], run when the TCP connection is established.
    [udpPort] stands for [this.udpPort], the port number the UDP socket
    reported when it was bound. A connection established before the UDP
    socket is bound finds [this.udpPort] undefined; that run is outside this
    definition, whose argument is a number. *)
Definition subscribeToDevice (udpPort : Z) : M unit :=
  umPacket ← lift (buildUMPacket udpPort);
  sendPacket umPacket ;;
  jmPacket ← lift buildJMPacket;
  sendPacket jmPacket.

(** The function [startHeartbeat] gives to [setInterval]: one run every 2
    seconds. *)
Definition heartbeat : M unit :=
  kaPacket ← lift buildKAPacket;
  sendPacket kaPacket.

End Instance_methods.

(** * Vocabulary of the properties *)

(** What [parsePacket] makes of the output of a builder. *)
Definition decode_built (built : result (list byte)) : result Packet :=
  packet ← built; parsePacket packet.

(** [m] neither reads nor writes [this.receiveBuffer]. *)
Definition buffer_agnostic {A} (m : M A) : Prop :=
  ∀ (st : State) (buf : list byte),
    m (set_receiveBuffer buf st) = ((m st).1, set_receiveBuffer buf (m st).2).

(** [m] leaves the observation [f] of the state as it was, whether it
    returns or throws. *)
Definition preserves {A X} (f : State → X) (m : M A) : Prop :=
  ∀ st, f (m st).2 = f st.

(** The wire format of the specification: the magic 'UC', the version 1 and
    the length of the payload as 16-bit little-endian numbers, the payload. *)
Definition spec_frame (payload : list byte) : list byte :=
  [x55; x43; x01; x00;
   Buf.byte_of (Buf.len payload); Buf.byte_of (Buf.len payload / 256)] ++ payload.

(** The message a payload stands for: two bytes of type, the address pair,
    the body. *)
Definition message (payload : list byte) : Packet :=
  {| type := Str.of_ascii_bytes payload 0 2;
     addressPair := {| a := Buf.at_ payload 2 + 256 * Buf.at_ payload 3;
                       b := Buf.at_ payload 4 + 256 * Buf.at_ payload 5 |};
     data := drop 6 payload |}.

(** A payload that holds a type and an address pair and fits the length
    field, with the 4 bytes that [handleZMPacket] and [handlePVPacket]
    read without a test when the type is ZM or PV. *)
Definition well_formed (payload : list byte) : Prop :=
  6 ≤ Buf.len payload < 65536
  ∧ (type (message payload) = Str.js "ZM" ∨ type (message payload) = Str.js "PV" →
     10 ≤ Buf.len payload).

(** What a buffer holds while the next frame is incomplete: nothing, or a
    proper prefix of that frame. *)
Definition waiting (partial : list byte) : Prop :=
  partial = []
  ∨ ∃ payload tail,
      Buf.len payload < 65536 ∧ tail ≠ [] ∧ partial ++ tail = spec_frame payload.

(** The buffer holds a proper prefix of the first of the frames to come. *)
Definition waiting_for (partial : list byte) (payloads : list (list byte)) : Prop :=
  match payloads with
  | [] => partial = []
  | payload :: _ => ∃ tail, tail ≠ [] ∧ partial ++ tail = spec_frame payload
  end.

Definition is_ascii (c : Z) : Prop := 0 ≤ c < 128.

Definition all_ascii (s : list Z) : bool :=
  forallb (fun c => (0 <=? c) && (c <? 128)) s.

(** Code units of a name that [buildPVPacket] and [handlePVPacket] carry
    unchanged: ASCII, and no NUL. *)
Definition is_plain (c : Z) : Prop := 0 < c < 128.

(** The payload and the frame [buildPVPacket] builds. *)
Definition pv_payload (name : list Z) (value : spec_float) : list byte :=
  Str.to_ascii_bytes (Str.js "PV") ++ [x68; x00; x66; x00]
  ++ Str.to_utf8 name ++ [x00; x00; x00] ++ Float32.writeFloatLE value.

Definition pv_frame (name : list Z) (value : spec_float) : list byte :=
  header_bytes
  ++ [Buf.byte_of (Buf.len (pv_payload name value));
      Buf.byte_of (Buf.len (pv_payload name value) / 256)]
  ++ pv_payload name value.

(** [frame] is the PV frame [buildPVPacket] builds for [name] and the
    boolean [flag]: its last 4 bytes are the 32-bit float 1.0 or 0.0, and its
    body decodes to the name and to a number that is positive exactly when
    [flag] is true. *)
Definition is_pv_frame (frame : list byte) (name : list Z) (flag : bool) : Prop :=
  buildPVPacket name (bool_number flag) = Ok frame
  ∧ drop (length frame - 4) frame
    = (if flag then [x00; x00; x80; x3f] else [x00; x00; x00; x00])
  ∧ ∃ val, decode_pv (drop 12 frame) = Ok (name, val) ∧ Float32.gt0 val = flag.

(** The state after [sendPacket]. *)
Definition sent (packet : list byte) (st : State) : State :=
  if tcpWritable st then add_tcpWritten packet st else add_logged ErrorNotConnected st.

(** The entry of [lineChildren] gives a value to [attr] of channel [n]. *)
Definition entry_defines (entry : list Z * value) (n : N) (attr : string) : bool :=
  match match_channel_key entry.1 with
  | Some digits =>
    (Str.parseInt10 digits =? n)%N
    && match get_prop entry.2 "values" with
       | Ok values =>
         match get_prop values attr with
         | Ok v => negb (is_undefined v)
         | Throw _ => false
         end
       | Throw _ => false
       end
  | None => false
  end.

(** The document has a key [children.line.children.ch<n>.values.<attr>]. *)
Definition snapshot_defines (jsonData : value) (n : N) (attr : string) : bool :=
  match line_children jsonData with
  | Ok (Some lineChildren) =>
    match entries lineChildren with
    | Ok items => existsb (fun entry => entry_defines entry n attr) items
    | Throw _ => false
    end
  | _ => false
  end.

(** The document has a key [children.global.values.mixerBypass]. *)
Definition snapshot_defines_bypass (jsonData : value) : bool :=
  match global_values jsonData with
  | Ok (Some globalValues) =>
    match get_prop globalValues "mixerBypass" with
    | Ok v => negb (is_undefined v)
    | Throw _ => false
    end
  | _ => false
  end.

Section Vocabulary.
Context `{Runtime}.

(** The state a well-formed frame leaves behind once it is dispatched. *)
Definition dispatched (payload : list byte) (st : State) : State :=
  (parse_and_dispatch (spec_frame payload) st).2.

(** A stream that arrives as a sequence of 'data' events, one chunk each;
    the packets decoded along the way are collected in order. *)
Fixpoint feed (chunks : list (list byte)) : M (option (list Packet)) :=
  match chunks with
  | [] => mret (Some [])
  | chunk :: later =>
    decoded ← handleIncomingData chunk;
    more ← feed later;
    mret (match decoded, more with
          | Some d, Some m => Some (d ++ m)
          | _, _ => None
          end)
  end.

(** The document of a ZM packet, when its body inflates and parses. *)
Definition snapshot_of (packet : Packet) : result value :=
  decompressed ← inflateRawSync (Buf.slice_from (Buf.slice_from (data packet) 4) 2);
  JSON_parse (Str.of_utf8 decompressed).

(** The ZM packet carries a document, and the document has the key. *)
Definition packet_defines (packet : Packet) (n : N) (attr : string) : bool :=
  match snapshot_of packet with
  | Ok jsonData => snapshot_defines jsonData n attr
  | Throw _ => false
  end.

Definition packet_defines_bypass (packet : Packet) : bool :=
  match snapshot_of packet with
  | Ok jsonData => snapshot_defines_bypass jsonData
  | Throw _ => false
  end.

End Vocabulary.

(** ** Concrete inputs *)

(** A stream made of one final stored block: [01], the length and its
    complement as 16-bit little-endian numbers, the bytes. *)
Definition stored_block (content : list byte) : list byte :=
  [x01; Buf.byte_of (Buf.len content); Buf.byte_of (Buf.len content / 256);
   Buf.byte_of (65535 - Buf.len content); Buf.byte_of ((65535 - Buf.len content) / 256)]
  ++ content.

Definition inflate_stored (stream : list byte) : result (list byte) :=
  match stream with
  | x01 :: l0 :: l1 :: n0 :: n1 :: content =>
    let length := Buf.byte_val l0 + 256 * Buf.byte_val l1 in
    let complement := Buf.byte_val n0 + 256 * Buf.byte_val n1 in
    if (length + complement =? 65535) && (Buf.len content =? length) then Ok content
    else Throw (LibraryError "invalid stored block lengths")
  | _ => Throw (LibraryError "invalid block type")
  end.

(** [{"children":{"line":{"children":{"ch3":{"values":{"mute":1}}}}}}] *)
Definition example_text : list Z :=
  Str.js "{" ++ quoted (Str.js "children") ++ Str.js ":{"
  ++ quoted (Str.js "line") ++ Str.js ":{"
  ++ quoted (Str.js "children") ++ Str.js ":{"
  ++ quoted (Str.js "ch3") ++ Str.js ":{"
  ++ quoted (Str.js "values") ++ Str.js ":{"
  ++ quoted (Str.js "mute") ++ Str.js ":1}}}}}}".

Definition example_snapshot : value :=
  VObj [(Str.js "children",
    VObj [(Str.js "line",
      VObj [(Str.js "children",
        VObj [(Str.js "ch3",
          VObj [(Str.js "values",
            VObj [(Str.js "mute", VNum Float32.one)])])])])])].

(** A runtime for the examples: it inflates the streams made of one final
    stored block and rejects the others, it parses [example_text] and
    rejects every other text, and it is never asked to compare a string, an
    array or an object with zero. *)
Definition example_runtime : Runtime := {|
  inflateRawSync := inflate_stored;
  JSON_parse := fun text =>
    if Str.eqb text example_text then Ok example_snapshot
    else Throw (LibraryError "Unexpected token");
  coerced_gt0 := fun _ => Ok false;
|}.

(** A connected instance that has received nothing. *)
Definition connected : State := {|
  channelStates := ∅;
  mixerBypassState := false;
  receiveBuffer := [];
  tcpWritable := true;
  tcpWritten := [];
  logged := [];
|}.

(** Payloads: a keepalive, [line/ch5/mute] set to 1.0, a PV message without
    a body. *)
Definition ka_payload : list byte := [x4b; x41; x68; x00; x66; x00].

Definition mute5_payload : list byte := pv_payload (Str.js "line/ch5/mute") Float32.one.

Definition empty_pv_payload : list byte := [x50; x56; x68; x00; x66; x00].

(** The body of a ZM packet: 4 bytes that are not interpreted, 2 bytes that
    are skipped, the stream. *)
Definition zm_packet (stream : list byte) : Packet :=
  {| type := Str.js "ZM";
     addressPair := {| a := 0x68; b := 0x66 |};
     data := [x00; x00; x00; x00; x78; x9c] ++ stream |}.

(** A PV packet as [parsePacket] returns it. *)
Definition pv_packet (name : list Z) (value : spec_float) : Packet :=
  {| type := Str.js "PV";
     addressPair := {| a := 0x68; b := 0x66 |};
     data := Str.to_utf8 name ++ [x00; x00; x00] ++ Float32.writeFloatLE value |}.

(** A stream of two frames, a keepalive and [line/ch5/mute] = 1.0, cut in
    the middle of the first header. *)
Definition two_frames : list byte := concat (map spec_frame [ka_payload; mute5_payload]).

(** The example of the specification: channel 3 has a known solo state, the
    snapshot sets [mute] of channel 3 and has no [solo] key. *)
Definition solo3_known : State :=
  set_channelStates (fun _ => {[ 3%N := {[ "solo"%string := true ]} ]}) connected.

Definition example_zm : Packet := zm_packet (stored_block (Str.to_utf8 example_text)).

(** Channel 3 with a known pad state, and with a known mute state. *)
Definition pad3_known : State :=
  set_channelStates (fun _ => {[ 3%N := {[ "pad"%string := true ]} ]}) connected.

Definition mute3_known : State :=
  set_channelStates (fun _ => {[ 3%N := {[ "mute"%string := true ]} ]}) connected.

(** * Vocabulary of the further properties *)

(** A payload whose frame is refused: it is too short for a type and an
    address pair, or it is a ZM or PV message without the 4 bytes its
    handler reads first. *)
Definition malformed (payload : list byte) : Prop :=
  Buf.len payload < 6
  ∨ (Buf.len payload < 10
     ∧ (type (message payload) = Str.js "ZM" ∨ type (message payload) = Str.js "PV")).

(** The value an entry of [lineChildren] gives to [attr] of channel [n]. *)
Definition entry_value (entry : list Z * value) (n : N) (attr : string) : option value :=
  match match_channel_key entry.1 with
  | Some digits =>
    if (Str.parseInt10 digits =? n)%N then
      match get_prop entry.2 "values" with
      | Ok values =>
        match get_prop values attr with
        | Ok v => if is_undefined v then None else Some v
        | Throw _ => None
        end
      | Throw _ => None
      end
    else None
  | None => None
  end.

(** The value the entries give to [attr] of channel [n]: that of the last
    entry, in the order of enumeration, that has one. Several keys can name
    one channel ([ch3] and [ch03]). *)
Fixpoint last_value (items : list (list Z * value)) (n : N) (attr : string) : option value :=
  match items with
  | [] => None
  | entry :: rest =>
    match last_value rest n attr with
    | Some v => Some v
    | None => entry_value entry n attr
    end
  end.

(** The value of [children.line.children.ch<n>.values.<attr>] in the
    document. *)
Definition snapshot_value (jsonData : value) (n : N) (attr : string) : option value :=
  match line_children jsonData with
  | Ok (Some lineChildren) =>
    match entries lineChildren with
    | Ok items => last_value items n attr
    | Throw _ => None
    end
  | _ => None
  end.

(** The value of [children.global.values.mixerBypass] in the document. *)
Definition snapshot_bypass_value (jsonData : value) : option value :=
  match global_values jsonData with
  | Ok (Some globalValues) =>
    match get_prop globalValues "mixerBypass" with
    | Ok v => if is_undefined v then None else Some v
    | Throw _ => None
    end
  | _ => None
  end.

Section Further_vocabulary.
Context `{Runtime}.

(** The [if] on [packet.type] that [handleIncomingData] and
    [handleIncomingUDPData] both have in their [try] block. *)
Definition dispatch (packet : Packet) : M unit :=
  if Str.eqb (type packet) (Str.js "ZM") then handleZMPacket packet
  else if Str.eqb (type packet) (Str.js "PV") then handlePVPacket packet
  else mret tt.

(** The attribute is known, and it is on exactly when [v] is greater than
    0. *)
Definition set_to (n : N) (attr : string) (v : value) (st : State) : Prop :=
  ∃ active, gt0 v = Ok active ∧ known st n attr = Some active.

End Further_vocabulary.

(** What the receive buffer holds when the loop of [handleIncomingData] is
    left: fewer than 6 bytes, or the beginning of a frame, with the magic and
    the version 1, whose payload has not arrived in full. *)
Definition incomplete (buf : list byte) : Prop :=
  Buf.len buf < 6
  ∨ ∃ size,
      Buf.starts_with (Str.to_ascii_bytes (Str.js "UC")) buf = true
      ∧ Buf.readUInt16LE buf 2 = Ok 1
      ∧ Buf.readUInt16LE buf 4 = Ok size
      ∧ Buf.len buf < 6 + size.

(** Every attribute that is known in [st] is known in [st'], with whatever
    value. *)
Definition stays_known (st st' : State) : Prop :=
  ∀ (n : N) (attr : string), known st n attr ≠ None → known st' n attr ≠ None.

(** [m] takes every state to one that is in the relation [R] with it,
    whether it returns or throws. *)
Definition keeps {A} (R : State → State → Prop) (m : M A) : Prop :=
  ∀ st, R st (m st).2.

(** The toggle of every attribute, and its setter. *)
Definition toggles : list (string * (N → M unit)) :=
  [ ("mute"%string, toggleChannelMute); ("solo"%string, toggleChannelSolo);
    ("48v"%string, toggleChannel48V); ("hpf"%string, toggleChannelHPF);
    ("pad"%string, toggleChannelPad) ].

Definition setters : list (string * (N → bool → M unit)) :=
  [ ("mute"%string, setChannelMute); ("solo"%string, setChannelSolo);
    ("48v"%string, setChannel48V); ("hpf"%string, setChannelHPF);
    ("pad"%string, setChannelPad) ].

(** What a command that sends one PV frame leaves of the socket: the frame
    is appended to what was written when the socket is writable. *)
Definition written_after (frame : list byte) (st : State) : list (list byte) :=
  if tcpWritable st then tcpWritten st ++ [frame] else tcpWritten st.

(** The state [st'] a toggle of [attr] on channel [n] leaves behind it:
    [record] is the new record of the channel, in which [attr] is [flag]; the
    frame for [flag] was handed to [sendPacket]; the rest of the state, the
    log apart, is that of [st]. *)
Definition toggled (st st' : State) (n : N) (attr : string) (flag : bool)
    (record : gmap string bool) : Prop :=
  channelStates st' = <[n := record]> (channelStates st)
  ∧ record !! attr = Some flag
  ∧ mixerBypassState st' = mixerBypassState st
  ∧ receiveBuffer st' = receiveBuffer st
  ∧ tcpWritable st' = tcpWritable st
  ∧ tcpWritten st' = written_after (pv_frame (channel_path n attr) (bool_number flag)) st.

(** A frame with the version field as [parsePacket] wants it: bytes 2 and 3
    replaced by [01 00]. *)
Definition with_version_1 (frame : list byte) : list byte :=
  take 2 frame ++ [x01; x00] ++ drop 4 frame.

(** ** More concrete inputs *)

(** [{"children":{"line":{"children":{"ch1":null}},"global":{"values":{"mixerBypass":1}}}}] *)
Definition null_channel_text : list Z :=
  Str.js "{" ++ quoted (Str.js "children") ++ Str.js ":{"
  ++ quoted (Str.js "line") ++ Str.js ":{"
  ++ quoted (Str.js "children") ++ Str.js ":{"
  ++ quoted (Str.js "ch1") ++ Str.js ":null}},"
  ++ quoted (Str.js "global") ++ Str.js ":{"
  ++ quoted (Str.js "values") ++ Str.js ":{"
  ++ quoted (Str.js "mixerBypass") ++ Str.js ":1}}}}".

Definition null_channel_snapshot : value :=
  VObj [(Str.js "children",
    VObj [(Str.js "line",
            VObj [(Str.js "children", VObj [(Str.js "ch1", VNull)])]);
          (Str.js "global",
            VObj [(Str.js "values", VObj [(Str.js "mixerBypass", VNum Float32.one)])])])].

(** [{"children":{"line":{"children":{"ch3":{"values":{"mute":0}},"ch03":{"values":{"mute":1}}}},"global":{"values":{"mixerBypass":1}}}}] *)
Definition two_keys_text : list Z :=
  Str.js "{" ++ quoted (Str.js "children") ++ Str.js ":{"
  ++ quoted (Str.js "line") ++ Str.js ":{"
  ++ quoted (Str.js "children") ++ Str.js ":{"
  ++ quoted (Str.js "ch3") ++ Str.js ":{"
  ++ quoted (Str.js "values") ++ Str.js ":{" ++ quoted (Str.js "mute") ++ Str.js ":0}},"
  ++ quoted (Str.js "ch03") ++ Str.js ":{"
  ++ quoted (Str.js "values") ++ Str.js ":{" ++ quoted (Str.js "mute") ++ Str.js ":1}}}},"
  ++ quoted (Str.js "global") ++ Str.js ":{"
  ++ quoted (Str.js "values") ++ Str.js ":{"
  ++ quoted (Str.js "mixerBypass") ++ Str.js ":1}}}}".

Definition two_keys_snapshot : value :=
  VObj [(Str.js "children",
    VObj [(Str.js "line",
            VObj [(Str.js "children",
              VObj [(Str.js "ch3",
                      VObj [(Str.js "values", VObj [(Str.js "mute", VNum Float32.zero)])]);
                    (Str.js "ch03",
                      VObj [(Str.js "values", VObj [(Str.js "mute", VNum Float32.one)])])])]);
          (Str.js "global",
            VObj [(Str.js "values", VObj [(Str.js "mixerBypass", VNum Float32.one)])])])].

(** A runtime for these documents: it is [example_runtime] with a parser
    that knows the two texts above and rejects every other text. *)
Definition second_runtime : Runtime := {|
  inflateRawSync := inflate_stored;
  JSON_parse := fun text =>
    if Str.eqb text null_channel_text then Ok null_channel_snapshot
    else if Str.eqb text two_keys_text then Ok two_keys_snapshot
    else Throw (LibraryError "Unexpected token");
  coerced_gt0 := fun _ => Ok false;
|}.

Definition null_channel_zm : Packet := zm_packet (stored_block (Str.to_utf8 null_channel_text)).

Definition two_keys_zm : Packet := zm_packet (stored_block (Str.to_utf8 two_keys_text)).

(** * Properties *)

(** ** Bytes and buffers *)

Lemma byte_val_range (b : byte) : 0 ≤ Buf.byte_val b < 256.
Proof.
  unfold Buf.byte_val. pose proof (Byte.to_N_bounded b). lia.
Qed.

Lemma byte_val_of (z : Z) : Buf.byte_val (Buf.byte_of z) = z mod 256.
Proof.
  unfold Buf.byte_val, Buf.byte_of.
  pose proof (Z.mod_pos_bound z 256 eq_refl) as Hr.
  destruct (Byte.of_N (Z.to_N (z mod 256))) as [b|] eqn:E.
  - apply Byte.to_of_N in E. rewrite E. lia.
  - apply Byte.of_N_None_iff in E. lia.
Qed.

Lemma byte_of_val (b : byte) : Buf.byte_of (Buf.byte_val b) = b.
Proof.
  unfold Buf.byte_of, Buf.byte_val.
  pose proof (Byte.to_N_bounded b).
  rewrite Z.mod_small by lia. rewrite N2Z.id, Byte.of_to_N. reflexivity.
Qed.

Lemma le16_value (n : Z) :
  0 ≤ n < 65536 →
  Buf.byte_val (Buf.byte_of n) + 256 * Buf.byte_val (Buf.byte_of (n / 256)) = n.
Proof.
  intros Hn. rewrite !byte_val_of.
  rewrite (Z.mod_small (n / 256)) by (split; [apply Z.div_pos; lia | apply Z.div_lt_upper_bound; lia]).
  pose proof (Z.div_mod n 256). lia.
Qed.

Lemma len_nil : Buf.len [] = 0.
Proof. reflexivity. Qed.

Lemma len_cons (x : byte) (l : list byte) : Buf.len (x :: l) = 1 + Buf.len l.
Proof. unfold Buf.len. cbn [length]. lia. Qed.

Lemma len_app (l k : list byte) : Buf.len (l ++ k) = Buf.len l + Buf.len k.
Proof. unfold Buf.len. rewrite length_app. lia. Qed.

Lemma len_nonneg (l : list byte) : 0 ≤ Buf.len l.
Proof. unfold Buf.len. lia. Qed.

Lemma adjustOffset_inside (o n : Z) : 0 ≤ o → o ≤ n → Buf.adjustOffset o n = o.
Proof.
  intros Ho Hn. unfold Buf.adjustOffset.
  destruct (Z.ltb_spec o 0); lia.
Qed.

Lemma adjustOffset_beyond (o n : Z) : 0 ≤ n → n ≤ o → Buf.adjustOffset o n = n.
Proof.
  intros Ho Hn. unfold Buf.adjustOffset.
  destruct (Z.ltb_spec o 0); lia.
Qed.

Lemma slice_inside (buf : list byte) (s e : Z) :
  0 ≤ s → s ≤ e → e ≤ Buf.len buf →
  Buf.slice buf s e = take (Z.to_nat (e - s)) (drop (Z.to_nat s) buf).
Proof.
  intros Hs Hse He. unfold Buf.slice.
  rewrite !adjustOffset_inside by lia. reflexivity.
Qed.

Lemma slice_from_inside (buf : list byte) (s : Z) :
  0 ≤ s → s ≤ Buf.len buf → Buf.slice_from buf s = drop (Z.to_nat s) buf.
Proof.
  intros Hs He. unfold Buf.slice_from. rewrite slice_inside by lia.
  apply take_ge. rewrite length_drop. unfold Buf.len in *. lia.
Qed.

Lemma slice_from_beyond (buf : list byte) (s : Z) :
  Buf.len buf ≤ s → Buf.slice_from buf s = [].
Proof.
  intros Hs. unfold Buf.slice_from, Buf.slice.
  pose proof (len_nonneg buf).
  rewrite (adjustOffset_beyond s) by lia.
  rewrite adjustOffset_inside by lia.
  replace (Z.to_nat (Buf.len buf - Buf.len buf)) with 0%nat by lia. reflexivity.
Qed.

Lemma slice_prefix (l k : list byte) : Buf.slice (l ++ k) 0 (Buf.len l) = l.
Proof.
  rewrite slice_inside by (rewrite ?len_app; pose proof (len_nonneg l); pose proof (len_nonneg k); lia).
  cbn [Z.to_nat drop]. unfold Buf.len. rewrite Z.sub_0_r, Nat2Z.id.
  apply take_app_length.
Qed.

Lemma slice_from_suffix (l k : list byte) : Buf.slice_from (l ++ k) (Buf.len l) = k.
Proof.
  rewrite slice_from_inside by (rewrite ?len_app; pose proof (len_nonneg l); pose proof (len_nonneg k); lia).
  unfold Buf.len. rewrite Nat2Z.id. apply drop_app_length.
Qed.

Lemma slice_from_1 (x : byte) (rest : list byte) : Buf.slice_from (x :: rest) 1 = rest.
Proof. exact (slice_from_suffix [x] rest). Qed.

Lemma slice_from_2 (x y : byte) (rest : list byte) :
  Buf.slice_from (x :: y :: rest) 2 = rest.
Proof. exact (slice_from_suffix [x; y] rest). Qed.

Lemma slice_length (buf : list byte) (s e : Z) :
  (length (Buf.slice buf s e) ≤ length buf)%nat.
Proof.
  unfold Buf.slice. rewrite length_take, length_drop. lia.
Qed.

(** ** Packet codec *)

Lemma slice_header (h0 h1 h2 h3 h4 h5 : byte) (rest : list byte) :
  Buf.slice (h0 :: h1 :: h2 :: h3 :: h4 :: h5 :: rest) 0 6 = [h0; h1; h2; h3; h4; h5].
Proof. exact (slice_prefix [h0; h1; h2; h3; h4; h5] rest). Qed.

Lemma len_header_ge (h0 h1 h2 h3 h4 h5 : byte) (rest : list byte) :
  (Buf.len (h0 :: h1 :: h2 :: h3 :: h4 :: h5 :: rest) <? 6) = false.
Proof.
  rewrite !len_cons. pose proof (len_nonneg rest). apply Z.ltb_ge. lia.
Qed.

(** The header every builder writes, [55 43 00 01], reads as version 256. *)
Lemma parsePacket_built_header (s0 s1 : byte) (payload : list byte) :
  parsePacket (header_bytes ++ [s0; s1] ++ payload) = Throw (Error "Invalid header").
Proof.
  change (header_bytes ++ [s0; s1] ++ payload)
    with (x55 :: x43 :: x00 :: x01 :: s0 :: s1 :: payload).
  unfold parsePacket. rewrite len_header_ge, slice_header. reflexivity.
Qed.

Lemma framed_rejected (payload : list byte) :
  let built := size ← Buf.writeUInt16LE (Buf.len payload);
               mret (header_bytes ++ size ++ payload) in
  decode_built built = Throw (Error "Invalid header") ∨ built = Throw RangeError.
Proof.
  cbv zeta. unfold Buf.writeUInt16LE.
  destruct ((Buf.len payload <? 0) || (65535 <? Buf.len payload)).
  - right. reflexivity.
  - left. apply parsePacket_built_header.
Qed.

Lemma buildUMPacket_rejected (udpPort : Z) :
  decode_built (buildUMPacket udpPort) = Throw (Error "Invalid header")
  ∨ buildUMPacket udpPort = Throw RangeError.
Proof.
  unfold buildUMPacket.
  change (Buf.writeUInt16LE 0) with (Ok [x00; x00]).
  change (Buf.writeUInt16LE 102) with (Ok [x66; x00]).
  cbn [mbind result_bind].
  destruct (Buf.writeUInt16LE udpPort) as [portBuffer|e] eqn:E.
  - apply framed_rejected.
  - right. unfold Buf.writeUInt16LE in E.
    destruct ((udpPort <? 0) || (65535 <? udpPort)); [|discriminate].
    injection E as <-. reflexivity.
Qed.

Lemma buildPVPacket_rejected (name : list Z) (value : spec_float) :
  decode_built (buildPVPacket name value) = Throw (Error "Invalid header")
  ∨ buildPVPacket name value = Throw RangeError.
Proof.
  unfold buildPVPacket.
  change (Buf.writeUInt16LE 104) with (Ok [x68; x00]).
  change (Buf.writeUInt16LE 102) with (Ok [x66; x00]).
  cbn [mbind result_bind].
  apply framed_rejected.
Qed.

(** ** Methods that do not touch the receive buffer *)

Lemma set_receiveBuffer_same (st : State) : set_receiveBuffer (receiveBuffer st) st = st.
Proof. destruct st; reflexivity. Qed.

Lemma set_receiveBuffer_twice (b1 b2 : list byte) (st : State) :
  set_receiveBuffer b1 (set_receiveBuffer b2 st) = set_receiveBuffer b1 st.
Proof. reflexivity. Qed.

Create HintDb agnostic.

Lemma agnostic_ret {A} (x : A) : buffer_agnostic (mret x).
Proof. intros st buf. reflexivity. Qed.

Lemma agnostic_lift {A} (r : result A) : buffer_agnostic (lift r).
Proof. intros st buf. reflexivity. Qed.

Lemma agnostic_throw {A} (e : exn) : buffer_agnostic (@throw A e).
Proof. intros st buf. reflexivity. Qed.

Lemma agnostic_log (entry : LogEntry) : buffer_agnostic (log entry).
Proof. intros st buf. reflexivity. Qed.

Lemma agnostic_set_channelStates f : buffer_agnostic (modify (set_channelStates f)).
Proof. intros st buf. reflexivity. Qed.

Lemma agnostic_set_mixerBypassState v : buffer_agnostic (modify (set_mixerBypassState v)).
Proof. intros st buf. reflexivity. Qed.

Lemma agnostic_add_tcpWritten packet : buffer_agnostic (modify (add_tcpWritten packet)).
Proof. intros st buf. reflexivity. Qed.

Lemma agnostic_bind {A B} (m : M A) (k : A → M B) :
  buffer_agnostic m → (∀ x, buffer_agnostic (k x)) → buffer_agnostic (m ≫= k).
Proof.
  intros Hm Hk st buf. unfold mbind, M_bind. rewrite Hm.
  destruct (m st) as [[x|e] st']; cbn [fst snd]; [apply Hk | reflexivity].
Qed.

Lemma agnostic_try_catch {A} (body : M A) (handler : exn → M A) :
  buffer_agnostic body → (∀ e, buffer_agnostic (handler e)) →
  buffer_agnostic (try_catch body handler).
Proof.
  intros Hm Hk st buf. unfold try_catch. rewrite Hm.
  destruct (body st) as [[x|e] st']; cbn [fst snd]; [reflexivity | apply Hk].
Qed.

Lemma agnostic_for_each {A} (xs : list A) (body : A → M unit) :
  (∀ x, buffer_agnostic (body x)) → buffer_agnostic (for_each xs body).
Proof.
  intros Hb. induction xs as [|x xs IH]; cbn [for_each].
  - apply agnostic_ret.
  - apply agnostic_bind; [apply Hb | intros _; exact IH].
Qed.

Lemma agnostic_assign_attr n attr v : buffer_agnostic (assign_attr n attr v).
Proof.
  intros st buf. unfold assign_attr, mbind, M_bind, get_state, channel.
  cbn [channelStates set_receiveBuffer].
  destruct (channelStates st !! n); reflexivity.
Qed.

Lemma agnostic_if {A} (c : bool) (m1 m2 : M A) :
  buffer_agnostic m1 → buffer_agnostic m2 → buffer_agnostic (if c then m1 else m2).
Proof. destruct c; auto. Qed.

#[local] Hint Resolve agnostic_ret agnostic_lift agnostic_throw agnostic_log
  agnostic_set_channelStates agnostic_set_mixerBypassState agnostic_add_tcpWritten
  agnostic_assign_attr : agnostic.

Ltac agnostic :=
  repeat first
    [ progress auto with agnostic
    | apply agnostic_bind; [|intros ?]
    | apply agnostic_try_catch; [|intros ?]
    | apply agnostic_for_each; intros ?
    | apply agnostic_if
    | match goal with
      | |- buffer_agnostic (match ?x with _ => _ end) => destruct x
      end ].

Section Agnostic_handlers.
Context `{Runtime}.

Lemma agnostic_update_attr values n attr : buffer_agnostic (update_attr values n attr).
Proof. unfold update_attr. agnostic. Qed.
#[local] Hint Resolve agnostic_update_attr : agnostic.

Lemma agnostic_update_channel entry : buffer_agnostic (update_channel entry).
Proof. unfold update_channel. destruct entry as [key channelData]. agnostic. Qed.
#[local] Hint Resolve agnostic_update_channel : agnostic.

Lemma agnostic_updateChannelStates jsonData : buffer_agnostic (updateChannelStates jsonData).
Proof. unfold updateChannelStates. agnostic. Qed.
#[local] Hint Resolve agnostic_updateChannelStates : agnostic.

Lemma agnostic_updateGlobalStates jsonData : buffer_agnostic (updateGlobalStates jsonData).
Proof. unfold updateGlobalStates. agnostic. Qed.
#[local] Hint Resolve agnostic_updateGlobalStates : agnostic.

Lemma agnostic_handleZMPacket packet : buffer_agnostic (handleZMPacket packet).
Proof. unfold handleZMPacket. agnostic. Qed.

Lemma agnostic_handlePVPacket packet : buffer_agnostic (handlePVPacket packet).
Proof. unfold handlePVPacket, apply_pv. agnostic. Qed.

End Agnostic_handlers.

(** ** Frame reassembler *)

Lemma agnostic_keeps_buffer {A} (m : M A) (st : State) :
  buffer_agnostic m → receiveBuffer (m st).2 = receiveBuffer st.
Proof.
  intros Hm. specialize (Hm st (receiveBuffer st)).
  rewrite set_receiveBuffer_same in Hm.
  apply (f_equal snd) in Hm. cbn [snd] in Hm. rewrite Hm at 1. reflexivity.
Qed.

Lemma readUInt16LE_inside (buf : list byte) (offset : Z) :
  0 ≤ offset → offset + 2 ≤ Buf.len buf →
  Buf.readUInt16LE buf offset = Ok (Buf.at_ buf offset + 256 * Buf.at_ buf (offset + 1)).
Proof.
  intros H0 H1. unfold Buf.readUInt16LE.
  destruct (Z.ltb_spec offset 0); [lia|].
  destruct (Z.ltb_spec (Buf.len buf) (offset + 2)); [lia|]. reflexivity.
Qed.

Lemma readUInt16LE_range (buf : list byte) (offset v : Z) :
  Buf.readUInt16LE buf offset = Ok v → 0 ≤ v < 65536.
Proof.
  unfold Buf.readUInt16LE.
  destruct ((offset <? 0) || (Buf.len buf <? offset + 2)); [discriminate|].
  intros [= <-]. unfold Buf.at_.
  pose proof (byte_val_range (nth (Z.to_nat offset) buf x00)).
  pose proof (byte_val_range (nth (Z.to_nat (offset + 1)) buf x00)). lia.
Qed.

Lemma indexOf_from_range (needle buf : list byte) (i : Z) :
  Buf.indexOf_from needle buf i = -1
  ∨ i ≤ Buf.indexOf_from needle buf i < i + Buf.len buf.
Proof.
  revert i. induction buf as [|x buf IH]; intros i; cbn [Buf.indexOf_from].
  - left. reflexivity.
  - rewrite len_cons. pose proof (len_nonneg buf).
    destruct (Buf.starts_with needle (x :: buf)).
    + right. lia.
    + destruct (IH (i + 1)) as [->|Hr]; [left; reflexivity | right; lia].
Qed.

Lemma length_slice_from (buf : list byte) (s : Z) :
  0 ≤ s → s ≤ Buf.len buf → Buf.len (Buf.slice_from buf s) = Buf.len buf - s.
Proof.
  intros H0 H1. rewrite slice_from_inside by lia.
  unfold Buf.len in *. rewrite length_drop. lia.
Qed.

Ltac simpl_state :=
  cbn [fst snd receiveBuffer channelStates mixerBypassState tcpWritable tcpWritten
       logged set_receiveBuffer set_channelStates set_mixerBypassState add_logged
       add_tcpWritten] in *.

Ltac run_M :=
  unfold log; unfold mbind, M_bind, mret, M_ret, get_state, modify, lift, throw;
  simpl_state.

Section Reassembler.
Context `{Runtime}.

Lemma agnostic_try_block (packetData : list byte) :
  buffer_agnostic
    (packet ← lift (parsePacket packetData);
     (if Str.eqb (type packet) (Str.js "ZM") then handleZMPacket packet
      else if Str.eqb (type packet) (Str.js "PV") then handlePVPacket packet
      else mret tt) ;;
     mret (Some packet)).
Proof.
  pose proof agnostic_handleZMPacket. pose proof agnostic_handlePVPacket.
  agnostic.
Qed.

(** The [try]/[catch] of the loop never throws and never grows the buffer. *)
Lemma parse_and_dispatch_total (packetData : list byte) (st : State) :
  ∃ decoded st',
    parse_and_dispatch packetData st = (Ok decoded, st')
    ∧ Buf.len (receiveBuffer st') ≤ Buf.len (receiveBuffer st).
Proof.
  unfold parse_and_dispatch, try_catch.
  pose proof (agnostic_keeps_buffer _ st (agnostic_try_block packetData)) as Hbuf.
  match type of Hbuf with receiveBuffer (?m st).2 = _ => destruct (m st) as [[d|e] st1] end;
    cbn [snd] in Hbuf.
  - eexists _, _. split; [reflexivity|]. rewrite Hbuf. lia.
  - run_M. eexists _, _. split; [reflexivity|].
    simpl_state. rewrite Hbuf.
    pose proof (slice_length (receiveBuffer st) 2 (Buf.len (receiveBuffer st))).
    unfold Buf.slice_from. unfold Buf.len in *. lia.
Qed.

(** An iteration that reaches the frame extraction never throws; when it
    goes back to the test of the loop the buffer has lost 2 bytes or more. *)
Lemma read_frame_shrinks (st : State) :
  ∃ iteration st',
    read_frame st = (Ok iteration, st')
    ∧ match iteration with
      | Break => receiveBuffer st' = receiveBuffer st
      | Continue _ => Buf.len (receiveBuffer st') + 2 ≤ Buf.len (receiveBuffer st)
      end.
Proof.
  unfold read_frame. run_M.
  destruct (Z.ltb_spec (Buf.len (receiveBuffer st)) 6) as [Hlt|Hge].
  { eexists _, _. split; reflexivity. }
  rewrite (readUInt16LE_inside _ 2) by lia.
  destruct (negb _).
  { eexists _, _. split; [reflexivity|]. simpl_state.
    rewrite length_slice_from by lia. lia. }
  rewrite (readUInt16LE_inside _ 4) by lia.
  set (size := Buf.at_ (receiveBuffer st) 4 + 256 * Buf.at_ (receiveBuffer st) (4 + 1)).
  assert (0 ≤ size) as Hsize.
  { unfold size, Buf.at_.
    pose proof (byte_val_range (nth (Z.to_nat 4) (receiveBuffer st) x00)).
    pose proof (byte_val_range (nth (Z.to_nat (4 + 1)) (receiveBuffer st) x00)). lia. }
  destruct (Z.ltb_spec (Buf.len (receiveBuffer st)) (6 + size)) as [Hwait|Hfull].
  { eexists _, _. split; reflexivity. }
  destruct (parse_and_dispatch_total
              (Buf.slice (receiveBuffer st) 0 (6 + size))
              (set_receiveBuffer (Buf.slice_from (receiveBuffer st) (6 + size)) st))
    as (decoded & st' & -> & Hlen).
  eexists _, _. split; [reflexivity|]. simpl_state.
  rewrite length_slice_from in Hlen by lia. lia.
Qed.

Lemma loop_body_shrinks (st : State) :
  ∃ iteration st',
    loop_body st = (Ok iteration, st')
    ∧ match iteration with
      | Break => True
      | Continue _ => Buf.len (receiveBuffer st') + 2 ≤ Buf.len (receiveBuffer st)
      end.
Proof.
  unfold loop_body. run_M.
  set (headerIndex := Buf.indexOf _ _).
  destruct (Z.eqb_spec headerIndex (-1)) as [Hnone|Hfound].
  { eexists _, _. split; [reflexivity|exact I]. }
  assert (0 ≤ headerIndex < Buf.len (receiveBuffer st)) as Hrange.
  { unfold headerIndex, Buf.indexOf in *.
    destruct (indexOf_from_range (Str.to_ascii_bytes (Str.js "UC")) (receiveBuffer st) 0); lia. }
  destruct (0 <? headerIndex).
  - destruct (read_frame_shrinks
                (set_receiveBuffer (Buf.slice_from (receiveBuffer st) headerIndex)
                   (add_logged (WarnDiscarding headerIndex) st)))
      as (iteration & st' & -> & Hit).
    eexists _, _. split; [reflexivity|].
    destruct iteration; [exact I|]. simpl_state.
    rewrite length_slice_from in Hit by lia. lia.
  - destruct (read_frame_shrinks st) as (iteration & st' & -> & Hit).
    eexists _, _. split; [reflexivity|].
    destruct iteration; [exact I|exact Hit].
Qed.

(** The loop ends within as many iterations as the buffer has bytes. *)
Lemma process_buffer_total (fuel : nat) (st : State) :
  (length (receiveBuffer st) ≤ fuel)%nat →
  ∃ decoded st', process_buffer fuel st = (Ok (Some decoded), st').
Proof.
  revert st. induction fuel as [|fuel IH]; intros st Hfuel.
  - cbn [process_buffer]. run_M.
    destruct (Z.ltb_spec (Buf.len (receiveBuffer st)) 6) as [Hlt|Hge].
    + eexists _, _. reflexivity.
    + unfold Buf.len in Hge. lia.
  - cbn [process_buffer]. run_M.
    destruct (Z.ltb_spec (Buf.len (receiveBuffer st)) 6) as [Hlt|Hge].
    { eexists _, _. reflexivity. }
    destruct (loop_body_shrinks st) as (iteration & st' & -> & Hit).
    destruct iteration as [|d].
    { eexists _, _. reflexivity. }
    destruct (IH st') as (ds & st'' & ->).
    { unfold Buf.len in Hit. lia. }
    eexists _, _. reflexivity.
Qed.

Lemma handleIncomingData_total (data : list byte) (st : State) :
  ∃ decoded st', handleIncomingData data st = (Ok (Some decoded), st').
Proof.
  unfold handleIncomingData. run_M.
  apply process_buffer_total. simpl_state. lia.
Qed.

End Reassembler.

(** ** Frames of the wire format *)

Lemma len_spec_frame (payload : list byte) :
  Buf.len (spec_frame payload) = 6 + Buf.len payload.
Proof. unfold spec_frame. rewrite len_app. reflexivity. Qed.

Lemma readUInt16LE_header_2 (h0 h1 h2 h3 h4 h5 : byte) (rest : list byte) :
  Buf.readUInt16LE (h0 :: h1 :: h2 :: h3 :: h4 :: h5 :: rest) 2
  = Ok (Buf.byte_val h2 + 256 * Buf.byte_val h3).
Proof.
  rewrite readUInt16LE_inside by (rewrite ?len_cons; pose proof (len_nonneg rest); lia).
  reflexivity.
Qed.

Lemma readUInt16LE_header_4 (h0 h1 h2 h3 h4 h5 : byte) (rest : list byte) :
  Buf.readUInt16LE (h0 :: h1 :: h2 :: h3 :: h4 :: h5 :: rest) 4
  = Ok (Buf.byte_val h4 + 256 * Buf.byte_val h5).
Proof.
  rewrite readUInt16LE_inside by (rewrite ?len_cons; pose proof (len_nonneg rest); lia).
  reflexivity.
Qed.

Lemma spec_frame_size (payload rest : list byte) :
  Buf.len payload < 65536 →
  Buf.readUInt16LE (spec_frame payload ++ rest) 4 = Ok (Buf.len payload).
Proof.
  intros Hlen. pose proof (len_nonneg payload).
  unfold spec_frame. cbn [app]. rewrite readUInt16LE_header_4.
  rewrite le16_value by lia. reflexivity.
Qed.

Lemma spec_frame_version (payload rest : list byte) :
  Buf.readUInt16LE (spec_frame payload ++ rest) 2 = Ok 1.
Proof. unfold spec_frame. cbn [app]. rewrite readUInt16LE_header_2. reflexivity. Qed.

Lemma parsePacket_spec_frame (payload : list byte) :
  6 ≤ Buf.len payload < 65536 →
  parsePacket (spec_frame payload) = Ok (message payload).
Proof.
  intros Hlen. unfold parsePacket.
  pose proof (spec_frame_size payload [] ltac:(lia)) as Hsize.
  rewrite app_nil_r in Hsize.
  unfold spec_frame in *. cbn [app] in *.
  rewrite len_header_ge, slice_header.
  change (Str.eqb (Str.of_ascii_bytes _ 0 2) (Str.js "UC")) with true.
  cbn [negb].
  rewrite readUInt16LE_header_2.
  change (Buf.byte_val x01 + 256 * Buf.byte_val x00) with 1.
  cbn [mbind result_bind Z.eqb Pos.eqb negb].
  rewrite readUInt16LE_header_4 in *.
  injection Hsize as ->.
  cbn [mbind result_bind].
  rewrite !len_cons.
  destruct (Z.ltb_spec (1 + (1 + (1 + (1 + (1 + (1 + Buf.len payload)))))) (6 + Buf.len payload));
    [lia|].
  match goal with
  | |- context [x55 :: x43 :: x01 :: x00 :: ?s0 :: ?s1 :: payload] =>
    set (hdr := [x55; x43; x01; x00; s0; s1]);
    change (x55 :: x43 :: x01 :: x00 :: s0 :: s1 :: payload) with (hdr ++ payload)
  end.
  assert (Buf.slice (hdr ++ payload) 6 (6 + Buf.len payload) = payload) as ->.
  { rewrite slice_inside by (rewrite ?len_app; change (Buf.len hdr) with 6; lia).
    change (Z.to_nat 6) with (length hdr). rewrite drop_app_length.
    apply take_ge. unfold Buf.len. lia. }
  rewrite (readUInt16LE_inside _ 2), (readUInt16LE_inside _ 4) by lia.
  cbn [mbind result_bind mret result_ret].
  rewrite slice_from_inside by lia. reflexivity.
Qed.

Lemma readUInt32LE_inside (buf : list byte) (offset : Z) :
  0 ≤ offset → offset + 4 ≤ Buf.len buf → ∃ w, Buf.readUInt32LE buf offset = Ok w.
Proof.
  intros H0 H1. unfold Buf.readUInt32LE.
  destruct (Z.ltb_spec offset 0); [lia|].
  destruct (Z.ltb_spec (Buf.len buf) (offset + 4)); [lia|]. eexists. reflexivity.
Qed.

Section Dispatch.
Context `{Runtime}.

Lemma handleZMPacket_returns (packet : Packet) (st : State) :
  4 ≤ Buf.len (data packet) → (handleZMPacket packet st).1 = Ok tt.
Proof.
  intros Hlen. unfold handleZMPacket.
  destruct (readUInt32LE_inside (data packet) 0) as [w Hw]; [lia..|].
  rewrite Hw. unfold try_catch. run_M.
  match goal with |- context [match ?body with _ => _ end] => destruct body as [[[]|e] st'] end;
    reflexivity.
Qed.

Lemma handlePVPacket_returns (packet : Packet) (st : State) :
  4 ≤ Buf.len (data packet) → (handlePVPacket packet st).1 = Ok tt.
Proof.
  intros Hlen. unfold handlePVPacket, decode_pv, apply_pv, Float32.readFloatLE.
  destruct (readUInt32LE_inside (data packet) (Buf.len (data packet) - 4)) as [w Hw]; [lia..|].
  rewrite Hw. run_M. cbn [result_bind result_ret fst snd].
  destruct (Str.eqb _ _); [reflexivity|].
  destruct (match_channel_path _) as [[digits parameter]|]; reflexivity.
Qed.

Lemma parse_and_dispatch_well_formed (payload : list byte) (st : State) :
  well_formed payload →
  parse_and_dispatch (spec_frame payload) st = (Ok (Some (message payload)), dispatched payload st).
Proof.
  intros [Hlen Hbody]. unfold dispatched, parse_and_dispatch, try_catch.
  rewrite parsePacket_spec_frame by exact Hlen. run_M.
  assert (Buf.len (data (message payload)) = Buf.len payload - 6) as Hdata.
  { cbn [data message]. unfold Buf.len. rewrite length_drop. unfold Buf.len in Hlen. lia. }
  unfold Str.eqb. case_bool_decide as Hzm.
  - pose proof (Hbody (or_introl Hzm)).
    pose proof (handleZMPacket_returns (message payload) st ltac:(lia)) as Hr.
    destruct (handleZMPacket (message payload) st) as [r st']. cbn [fst] in Hr. subst r.
    reflexivity.
  - case_bool_decide as Hpv; [|reflexivity].
    pose proof (Hbody (or_intror Hpv)).
    pose proof (handlePVPacket_returns (message payload) st ltac:(lia)) as Hr.
    destruct (handlePVPacket (message payload) st) as [r st']. cbn [fst] in Hr. subst r.
    reflexivity.
Qed.

Lemma dispatched_set_receiveBuffer (payload buf : list byte) (st : State) :
  well_formed payload →
  dispatched payload (set_receiveBuffer buf st) = set_receiveBuffer buf (dispatched payload st).
Proof.
  intros Hwf.
  pose proof (parse_and_dispatch_well_formed payload st Hwf) as E1.
  pose proof (parse_and_dispatch_well_formed payload (set_receiveBuffer buf st) Hwf) as E2.
  unfold parse_and_dispatch, try_catch in E1, E2.
  rewrite agnostic_try_block in E2.
  match type of E1 with
  | (let (_, _) := ?body in _) = _ => destruct body as [[d|e] st']
  end; cbn [fst snd] in *.
  - injection E1 as _ <-. injection E2 as _ <-. reflexivity.
  - exfalso. revert E1. run_M. discriminate.
Qed.

End Dispatch.

(** ** Reassembly of a stream of well-formed frames *)

Lemma indexOf_magic (rest : list byte) :
  Buf.indexOf (x55 :: x43 :: rest) (Str.to_ascii_bytes (Str.js "UC")) = 0.
Proof. reflexivity. Qed.

Lemma indexOf_magic_after_one (gap : byte) (rest : list byte) :
  Buf.indexOf (gap :: x55 :: x43 :: rest) (Str.to_ascii_bytes (Str.js "UC")) = 1.
Proof.
  change (Str.to_ascii_bytes (Str.js "UC")) with [x55; x43].
  unfold Buf.indexOf. cbn [Buf.indexOf_from Buf.starts_with].
  change (Byte.eqb x43 x55) with false.
  rewrite andb_false_r. reflexivity.
Qed.

Section Aligned.
Context `{Runtime}.

Lemma read_frame_complete (st : State) (payload rest : list byte) :
  receiveBuffer st = spec_frame payload ++ rest →
  well_formed payload →
  read_frame st
  = (Ok (Continue (Some (message payload))), set_receiveBuffer rest (dispatched payload st)).
Proof.
  intros Hbuf Hwf. pose proof Hwf as [Hlen _].
  unfold read_frame. run_M. rewrite Hbuf.
  rewrite len_app, len_spec_frame. pose proof (len_nonneg rest).
  destruct (Z.ltb_spec (6 + Buf.len payload + Buf.len rest) 6); [lia|].
  rewrite spec_frame_version. cbn [Z.eqb Pos.eqb negb].
  rewrite spec_frame_size by lia.
  destruct (Z.ltb_spec (6 + Buf.len payload + Buf.len rest) (6 + Buf.len payload)); [lia|].
  rewrite <- len_spec_frame. rewrite slice_prefix, slice_from_suffix.
  rewrite parse_and_dispatch_well_formed by exact Hwf.
  rewrite dispatched_set_receiveBuffer by exact Hwf. reflexivity.
Qed.

Lemma loop_body_complete (st : State) (payload rest : list byte) :
  receiveBuffer st = spec_frame payload ++ rest →
  well_formed payload →
  loop_body st
  = (Ok (Continue (Some (message payload))), set_receiveBuffer rest (dispatched payload st)).
Proof.
  intros Hbuf Hwf. unfold loop_body. run_M.
  assert (Buf.indexOf (receiveBuffer st) (Str.to_ascii_bytes (Str.js "UC")) = 0) as ->
    by (rewrite Hbuf; reflexivity).
  cbn [Z.eqb Z.ltb Z.compare].
  apply read_frame_complete; assumption.
Qed.

Lemma read_frame_waiting (st : State) :
  waiting (receiveBuffer st) → 6 ≤ Buf.len (receiveBuffer st) →
  read_frame st = (Ok Break, st)
  ∧ Buf.indexOf (receiveBuffer st) (Str.to_ascii_bytes (Str.js "UC")) = 0.
Proof.
  intros [Hnil | (payload & tail & Hlen & Htail & Hpre)] H6.
  { rewrite Hnil, len_nil in H6. lia. }
  unfold read_frame. run_M.
  destruct (Z.ltb_spec (Buf.len (receiveBuffer st)) 6); [lia|].
  assert (Buf.len (receiveBuffer st) < 6 + Buf.len payload) as Hshort.
  { apply (f_equal Buf.len) in Hpre. rewrite len_app, len_spec_frame in Hpre.
    destruct tail; [congruence|]. rewrite len_cons in Hpre.
    pose proof (len_nonneg tail). lia. }
  destruct (receiveBuffer st) as [|h0 [|h1 [|h2 [|h3 [|h4 [|h5 partial]]]]]];
    try (rewrite ?len_cons, ?len_nil in H6; lia).
  unfold spec_frame in Hpre. cbn [app] in Hpre.
  injection Hpre as -> -> -> -> -> -> Hrest.
  rewrite readUInt16LE_header_2, readUInt16LE_header_4.
  change (Buf.byte_val x01 + 256 * Buf.byte_val x00) with 1.
  cbn [Z.eqb Pos.eqb negb].
  pose proof (len_nonneg payload).
  rewrite le16_value by lia.
  destruct (Z.ltb_spec (Buf.len (x55 :: x43 :: x01 :: x00 ::
              Buf.byte_of (Buf.len payload) :: Buf.byte_of (Buf.len payload / 256) :: partial))
            (6 + Buf.len payload)); [|lia].
  split; reflexivity.
Qed.

Lemma process_buffer_waiting (fuel : nat) (st : State) :
  waiting (receiveBuffer st) → (length (receiveBuffer st) ≤ fuel)%nat →
  process_buffer fuel st = (Ok (Some []), st).
Proof.
  intros Hwait Hfuel.
  destruct fuel as [|fuel]; cbn [process_buffer]; run_M;
    destruct (Z.ltb_spec (Buf.len (receiveBuffer st)) 6) as [Hlt|Hge]; try reflexivity.
  - unfold Buf.len in Hge. lia.
  - destruct (read_frame_waiting st Hwait Hge) as [Hread Hidx].
    unfold loop_body. run_M. rewrite Hidx. cbn [Z.eqb Z.ltb Z.compare].
    rewrite Hread. reflexivity.
Qed.

Lemma fold_dispatched_set_receiveBuffer (payloads : list (list byte)) (buf : list byte)
    (st : State) :
  Forall well_formed payloads →
  fold_left (fun s p => dispatched p s) payloads (set_receiveBuffer buf st)
  = set_receiveBuffer buf (fold_left (fun s p => dispatched p s) payloads st).
Proof.
  intros Hwf. revert st. induction Hwf as [|payload payloads Hp Hps IH]; intros st.
  - reflexivity.
  - cbn [fold_left]. rewrite dispatched_set_receiveBuffer by exact Hp. apply IH.
Qed.

(** With complete well-formed frames at the front of the buffer and the
    beginning of another one behind them, the loop dispatches the complete
    frames in order and keeps the rest. *)
Lemma process_buffer_aligned (payloads : list (list byte)) (partial : list byte)
    (fuel : nat) (st : State) :
  Forall well_formed payloads →
  waiting partial →
  receiveBuffer st = concat (map spec_frame payloads) ++ partial →
  (length (receiveBuffer st) ≤ fuel)%nat →
  process_buffer fuel st
  = (Ok (Some (map message payloads)),
     set_receiveBuffer partial (fold_left (fun s p => dispatched p s) payloads st)).
Proof.
  intros Hwf Hwait. revert fuel st.
  induction Hwf as [|payload payloads Hp Hps IH]; intros fuel st Hbuf Hfuel.
  - cbn [map concat app fold_left] in *. rewrite <- Hbuf, set_receiveBuffer_same.
    apply process_buffer_waiting; [rewrite Hbuf; exact Hwait | exact Hfuel].
  - cbn [map concat fold_left] in *. rewrite <- app_assoc in Hbuf.
    pose proof Hp as [Hlen _].
    assert (Buf.len (receiveBuffer st)
            = 6 + Buf.len payload + Buf.len (concat (map spec_frame payloads) ++ partial))
      as Hlenbuf by (rewrite Hbuf, len_app, len_spec_frame; reflexivity).
    pose proof (len_nonneg (concat (map spec_frame payloads) ++ partial)).
    destruct fuel as [|fuel]; [unfold Buf.len in *; lia|].
    cbn [process_buffer]. run_M.
    destruct (Z.ltb_spec (Buf.len (receiveBuffer st)) 6); [lia|].
    rewrite (loop_body_complete st payload _ Hbuf Hp).
    rewrite IH; [| reflexivity | simpl_state; unfold Buf.len in *; lia].
    rewrite fold_dispatched_set_receiveBuffer by exact Hps. reflexivity.
Qed.

End Aligned.

Lemma waiting_for_waiting (partial : list byte) (payloads : list (list byte)) :
  Forall well_formed payloads → waiting_for partial payloads → waiting partial.
Proof.
  intros Hwf Hw. destruct Hwf as [|payload payloads [Hlen _] _]; cbn in Hw.
  - left. exact Hw.
  - right. destruct Hw as (tail & Htail & Hpre). exists payload, tail.
    repeat split; [lia | exact Htail | exact Hpre].
Qed.

(** A prefix of a stream of frames is a number of complete frames followed
    by a proper prefix of the next one. *)
Lemma split_stream (payloads : list (list byte)) (buf tail : list byte) :
  buf ++ tail = concat (map spec_frame payloads) →
  ∃ done rest partial,
    payloads = done ++ rest
    ∧ buf = concat (map spec_frame done) ++ partial
    ∧ partial ++ tail = concat (map spec_frame rest)
    ∧ waiting_for partial rest.
Proof.
  revert buf. induction payloads as [|payload payloads IH]; intros buf Hstream.
  - cbn [map concat] in Hstream. apply app_eq_nil in Hstream as [-> ->].
    exists [], [], []. repeat split.
  - cbn [map concat] in Hstream.
    assert (∃ l, buf = spec_frame payload ++ l ∧ l ++ tail = concat (map spec_frame payloads)
                 ∨ (l ≠ [] ∧ spec_frame payload = buf ++ l
                    ∧ tail = l ++ concat (map spec_frame payloads))) as [l Hcase].
    { apply app_eq_app in Hstream as [l [[-> ->] | [Hf ->]]].
      - exists l. left. split; reflexivity.
      - destruct l as [|x l].
        + exists []. left. rewrite app_nil_r in Hf. subst buf.
          rewrite app_nil_r. split; reflexivity.
        + exists (x :: l). right. repeat split; [discriminate | exact Hf]. }
    destruct Hcase as [[-> Hl] | (Hne & Hf & ->)].
    + destruct (IH l Hl) as (done & rest & partial & -> & -> & Hrest & Hw).
      exists (payload :: done), rest, partial.
      cbn [map concat app]. rewrite <- app_assoc. repeat split; assumption.
    + exists [], (payload :: payloads), buf. cbn [map concat app].
      repeat split.
      * rewrite Hf, <- app_assoc. reflexivity.
      * exists l. split; [exact Hne | symmetry; exact Hf].
Qed.

Section Chunks.
Context `{Runtime}.

Lemma handleIncomingData_aligned (payloads : list (list byte)) (partial chunk : list byte)
    (st : State) :
  Forall well_formed payloads →
  waiting partial →
  receiveBuffer st ++ chunk = concat (map spec_frame payloads) ++ partial →
  handleIncomingData chunk st
  = (Ok (Some (map message payloads)),
     set_receiveBuffer partial (fold_left (fun s p => dispatched p s) payloads st)).
Proof.
  intros Hwf Hwait Hbuf. unfold handleIncomingData. run_M.
  rewrite (process_buffer_aligned payloads partial _ _ Hwf Hwait);
    [| simpl_state; exact Hbuf | simpl_state; lia].
  rewrite fold_dispatched_set_receiveBuffer by exact Hwf. reflexivity.
Qed.

Lemma feed_aligned (chunks : list (list byte)) (payloads : list (list byte)) (st : State) :
  Forall well_formed payloads →
  waiting_for (receiveBuffer st) payloads →
  receiveBuffer st ++ concat chunks = concat (map spec_frame payloads) →
  feed chunks st
  = (Ok (Some (map message payloads)),
     set_receiveBuffer [] (fold_left (fun s p => dispatched p s) payloads st)).
Proof.
  revert payloads st. induction chunks as [|chunk chunks IH]; intros payloads st Hwf Hw Hstream.
  - cbn [concat] in Hstream. rewrite app_nil_r in Hstream.
    assert (payloads = []) as ->.
    { destruct payloads as [|payload payloads]; [reflexivity|]. exfalso.
      cbn [waiting_for] in Hw. destruct Hw as (tail & Htail & Hpre).
      cbn [map concat] in Hstream. rewrite Hstream in Hpre.
      apply (f_equal (@length byte)) in Hpre. rewrite !length_app in Hpre.
      destruct tail; [congruence | cbn [length] in Hpre; lia]. }
    cbn [waiting_for map concat fold_left feed] in *.
    rewrite <- Hw, set_receiveBuffer_same. reflexivity.
  - cbn [concat] in Hstream. rewrite app_assoc in Hstream.
    destruct (split_stream payloads _ _ Hstream)
      as (done & rest & partial & -> & Hbuf & Hrest & Hwrest).
    apply Forall_app in Hwf as [Hdone Hwfrest].
    cbn [feed]. unfold mbind at 1, M_bind at 1.
    rewrite (handleIncomingData_aligned done partial chunk st Hdone
               (waiting_for_waiting _ _ Hwfrest Hwrest) Hbuf).
    unfold mbind, M_bind.
    rewrite (IH rest); [| exact Hwfrest | exact Hwrest | exact Hrest].
    rewrite fold_dispatched_set_receiveBuffer by exact Hwfrest.
    rewrite set_receiveBuffer_twice, map_app, fold_left_app. reflexivity.
Qed.

End Chunks.

Section Resynchronisation.
Context `{Runtime}.

Lemma process_buffer_step (fuel : nat) (st st' : State) (decoded : option Packet) :
  6 ≤ Buf.len (receiveBuffer st) →
  loop_body st = (Ok (Continue decoded), st') →
  process_buffer (S fuel) st
  = (rest ← process_buffer fuel; mret (app (option_list decoded) <$> rest)) st'.
Proof.
  intros Hlen Hbody. cbn [process_buffer]. unfold mbind at 1 2, M_bind at 1 2, get_state.
  destruct (Z.ltb_spec (Buf.len (receiveBuffer st)) 6); [lia|].
  rewrite Hbody. reflexivity.
Qed.

Lemma loop_body_invalid_version (st : State) (v0 v1 : byte) (rest : list byte) :
  receiveBuffer st = x55 :: x43 :: v0 :: v1 :: rest →
  2 ≤ Buf.len rest →
  Buf.byte_val v0 + 256 * Buf.byte_val v1 ≠ 1 →
  loop_body st
  = (Ok (Continue None),
     set_receiveBuffer (v0 :: v1 :: rest) (add_logged WarnInvalidVersion st)).
Proof.
  intros Hbuf Hlen Hver. unfold loop_body. run_M.
  assert (Buf.indexOf (receiveBuffer st) (Str.to_ascii_bytes (Str.js "UC")) = 0) as ->
    by (rewrite Hbuf; reflexivity).
  cbn [Z.eqb Z.ltb Z.compare]. unfold read_frame. run_M. rewrite Hbuf.
  rewrite !len_cons.
  destruct (Z.ltb_spec (1 + (1 + (1 + (1 + Buf.len rest)))) 6); [lia|].
  rewrite readUInt16LE_inside by (rewrite ?len_cons; lia).
  change (Buf.at_ (x55 :: x43 :: v0 :: v1 :: rest) 2) with (Buf.byte_val v0).
  change (Buf.at_ (x55 :: x43 :: v0 :: v1 :: rest) (2 + 1)) with (Buf.byte_val v1).
  destruct (Z.eqb_spec (Buf.byte_val v0 + 256 * Buf.byte_val v1) 1); [contradiction|].
  cbn [negb].
  rewrite slice_from_2. reflexivity.
Qed.

(** A well-formed frame right behind a magic that is not followed by the
    version is decoded. *)
Lemma resync_adjacent (fuel : nat) (st : State) (payload : list byte) :
  well_formed payload →
  receiveBuffer st = [x55; x43] ++ spec_frame payload →
  (length (spec_frame payload) ≤ fuel)%nat →
  process_buffer (S fuel) st
  = (Ok (Some [message payload]),
     set_receiveBuffer [] (dispatched payload (add_logged WarnInvalidVersion st))).
Proof.
  intros Hwf Hbuf Hfuel. pose proof Hwf as [Hlen _].
  assert (6 ≤ Buf.len (receiveBuffer st)) as H6.
  { rewrite Hbuf, len_app, len_spec_frame. change (Buf.len [x55; x43]) with 2. lia. }
  assert (loop_body st
          = (Ok (Continue None),
             set_receiveBuffer (spec_frame payload) (add_logged WarnInvalidVersion st)))
    as Hfirst.
  { apply loop_body_invalid_version.
    - exact Hbuf.
    - rewrite !len_cons. pose proof (len_nonneg payload). lia.
    - vm_compute. discriminate. }
  rewrite (process_buffer_step fuel st _ None H6 Hfirst).
  unfold mbind, M_bind.
  rewrite (process_buffer_aligned [payload] []);
    [cbn [fold_left]; rewrite dispatched_set_receiveBuffer by exact Hwf; reflexivity
    | constructor; [exact Hwf | constructor] | left; reflexivity
    | simpl_state; cbn [map concat]; rewrite !app_nil_r; reflexivity
    | simpl_state; exact Hfuel].
Qed.

(** The same with one more byte between the magic and the frame. *)
Lemma resync_one_byte_later (fuel : nat) (st : State) (gap : byte) (payload : list byte) :
  well_formed payload →
  receiveBuffer st = [x55; x43; gap] ++ spec_frame payload →
  process_buffer (S (S fuel)) st
  = (Ok (Some [message payload]),
     set_receiveBuffer []
       (dispatched payload (add_logged (WarnDiscarding 1) (add_logged WarnInvalidVersion st)))).
Proof.
  intros Hwf Hbuf. pose proof Hwf as [Hlen _].
  assert (6 ≤ Buf.len (receiveBuffer st)) as H6.
  { rewrite Hbuf, len_app, len_spec_frame. change (Buf.len [x55; x43; gap]) with 3. lia. }
  assert (loop_body st
          = (Ok (Continue None),
             set_receiveBuffer (gap :: spec_frame payload) (add_logged WarnInvalidVersion st)))
    as Hfirst.
  { apply loop_body_invalid_version.
    - exact Hbuf.
    - rewrite !len_cons. pose proof (len_nonneg payload). lia.
    - pose proof (byte_val_range gap). change (Buf.byte_val x55) with 85. lia. }
  rewrite (process_buffer_step (S fuel) st _ None H6 Hfirst).
  unfold mbind at 1, M_bind at 1.
  set (st1 := set_receiveBuffer _ _).
  assert (loop_body st1
          = (Ok (Continue (Some (message payload))),
             set_receiveBuffer [] (dispatched payload (add_logged (WarnDiscarding 1)
                                     (add_logged WarnInvalidVersion st))))) as Hsecond.
  { unfold loop_body. run_M.
    assert (Buf.indexOf (receiveBuffer st1) (Str.to_ascii_bytes (Str.js "UC")) = 1) as ->.
    { subst st1. simpl_state. apply indexOf_magic_after_one. }
    cbn [Z.eqb Z.ltb Z.compare]. subst st1. simpl_state.
    rewrite slice_from_1.
    rewrite (read_frame_complete _ payload []);
      [| simpl_state; rewrite app_nil_r; reflexivity | exact Hwf].
    change (add_logged (WarnDiscarding 1)
              (set_receiveBuffer (gap :: spec_frame payload) (add_logged WarnInvalidVersion st)))
      with (set_receiveBuffer (gap :: spec_frame payload)
              (add_logged (WarnDiscarding 1) (add_logged WarnInvalidVersion st))).
    rewrite !dispatched_set_receiveBuffer by exact Hwf. reflexivity. }
  rewrite (process_buffer_step fuel st1 _ _
             ltac:(subst st1; simpl_state; rewrite !len_cons, len_spec_frame; lia) Hsecond).
  unfold mbind, M_bind.
  destruct fuel; reflexivity.
Qed.

End Resynchronisation.

(** ** Strings and UTF-8 *)

Lemma utf8_lead_lower (v : Z) : 0 < Str.lower (Str.utf8_lead v).2.
Proof.
  unfold Str.utf8_lead.
  repeat match goal with
         | |- context [if ?c then _ else _] => destruct c
         end; cbn; lia.
Qed.

Lemma utf8_step_lower (st : Str.utf8_state) (v : Z) : 0 < Str.lower (Str.utf8_step st v).2.
Proof.
  unfold Str.utf8_step. destruct (Str.needed st) as [|n].
  - apply utf8_lead_lower.
  - destruct (_ || _).
    + pose proof (utf8_lead_lower v). destruct (Str.utf8_lead v). exact H.
    + destruct n; cbn; lia.
Qed.

(** A NUL byte ends whatever sequence is open and is decoded on its own,
    so it splits the text in two texts that are decoded apart. *)
Lemma utf8_decode_nul (a b : list byte) (st : Str.utf8_state) :
  0 < Str.lower st →
  Str.utf8_decode st (a ++ x00 :: b)
  = Str.utf8_decode st a ++ [0] ++ Str.utf8_decode Str.utf8_init b.
Proof.
  revert st. induction a as [|x a IH]; intros st Hlower.
  - cbn [app Str.utf8_decode]. change (Buf.byte_val x00) with 0.
    unfold Str.utf8_step. destruct (Str.needed st) as [|n].
    + reflexivity.
    + destruct (Z.ltb_spec 0 (Str.lower st)); [|lia]. reflexivity.
  - cbn [app Str.utf8_decode].
    pose proof (utf8_step_lower st (Buf.byte_val x)) as Hnext.
    destruct (Str.utf8_step st (Buf.byte_val x)) as [out st']. cbn [snd] in Hnext.
    rewrite IH by exact Hnext. rewrite <- app_assoc. reflexivity.
Qed.

Lemma of_utf8_nul (a b : list byte) :
  Str.of_utf8 (a ++ x00 :: b) = Str.of_utf8 a ++ [0] ++ Str.of_utf8 b.
Proof.
  unfold Str.of_utf8. rewrite utf8_decode_nul by (cbn; lia).
  rewrite !flat_map_app. reflexivity.
Qed.

Lemma strip_nul_app (s t : list Z) :
  Str.strip_nul (s ++ t) = Str.strip_nul s ++ Str.strip_nul t.
Proof. unfold Str.strip_nul. apply filter_app. Qed.

Lemma strip_nul_utf8_nul (a b : list byte) :
  Str.strip_nul (Str.of_utf8 (a ++ x00 :: b))
  = Str.strip_nul (Str.of_utf8 a) ++ Str.strip_nul (Str.of_utf8 b).
Proof. rewrite of_utf8_nul, !strip_nul_app. reflexivity. Qed.

Lemma utf8_decode_ascii (buf : list byte) :
  Forall (fun x => Buf.byte_val x < 128) buf →
  Str.utf8_decode Str.utf8_init buf = map Buf.byte_val buf.
Proof.
  induction 1 as [|x buf Hx _ IH]; [reflexivity|].
  cbn [Str.utf8_decode map]. unfold Str.utf8_step, Str.utf8_lead. cbn [Str.needed Str.utf8_init].
  destruct (Z.leb_spec (Buf.byte_val x) 127); [|lia].
  cbn [app]. rewrite IH. reflexivity.
Qed.

Lemma of_utf8_ascii (buf : list byte) :
  Forall (fun x => Buf.byte_val x < 128) buf → Str.of_utf8 buf = map Buf.byte_val buf.
Proof.
  intros Hbuf. unfold Str.of_utf8. rewrite utf8_decode_ascii by exact Hbuf.
  clear Hbuf. induction buf as [|x buf IH]; [reflexivity|].
  cbn [map flat_map]. rewrite IH. unfold Str.utf16_of_code_point.
  pose proof (byte_val_range x).
  destruct (Z.ltb_spec (Buf.byte_val x) 65536); [reflexivity | lia].
Qed.

Lemma to_utf8_ascii (s : list Z) : Forall is_ascii s → Str.to_utf8 s = map Buf.byte_of s.
Proof.
  induction 1 as [|c s Hc _ IH]; [reflexivity|]. unfold is_ascii in Hc.
  cbn [Str.to_utf8 map]. unfold Str.is_high_surrogate, Str.is_low_surrogate.
  destruct (Z.leb_spec 55296 c); [lia|]. destruct (Z.leb_spec 56320 c); [lia|].
  cbn [andb]. unfold Str.utf8_bytes_of_code_point.
  destruct (Z.ltb_spec c 128); [|lia]. rewrite IH. reflexivity.
Qed.

Lemma of_utf8_to_utf8_ascii (s : list Z) :
  Forall is_ascii s → Str.of_utf8 (Str.to_utf8 s) = s.
Proof.
  intros Hs. rewrite to_utf8_ascii by exact Hs.
  rewrite of_utf8_ascii.
  - induction Hs as [|c s Hc _ IH]; [reflexivity|]. unfold is_ascii in Hc.
    cbn [map]. rewrite IH, byte_val_of, Z.mod_small by lia. reflexivity.
  - induction Hs as [|c s Hc _ IH]; constructor; [|exact IH]. unfold is_ascii in Hc.
    rewrite byte_val_of, Z.mod_small by lia. lia.
Qed.

Lemma at_app_r (l k : list byte) (i : Z) :
  0 ≤ i → Buf.at_ (l ++ k) (Buf.len l + i) = Buf.at_ k i.
Proof.
  intros Hi. unfold Buf.at_, Buf.len.
  replace (Z.to_nat (Z.of_nat (length l) + i)) with (length l + Z.to_nat i)%nat by lia.
  rewrite app_nth2_plus. reflexivity.
Qed.

Lemma decode_pv_split (nameBytes : list byte) (v0 v1 v2 v3 : byte) :
  decode_pv (nameBytes ++ [v0; v1; v2; v3])
  = Ok (Str.strip_nul (Str.of_utf8 nameBytes),
        Float32.of_bits (Buf.byte_val v0 + 256 * Buf.byte_val v1
                         + 65536 * Buf.byte_val v2 + 16777216 * Buf.byte_val v3)).
Proof.
  unfold decode_pv, Float32.readFloatLE, Buf.readUInt32LE.
  rewrite len_app. change (Buf.len [v0; v1; v2; v3]) with 4.
  replace (Buf.len nameBytes + 4 - 4) with (Buf.len nameBytes) by lia.
  pose proof (len_nonneg nameBytes).
  rewrite slice_prefix.
  destruct (Z.ltb_spec (Buf.len nameBytes) 0); [lia|].
  destruct (Z.ltb_spec (Buf.len nameBytes + 4) (Buf.len nameBytes + 4)); [lia|].
  cbn [orb mbind result_bind mret result_ret].
  rewrite <- (Z.add_0_r (Buf.len nameBytes)) at 1.
  rewrite !at_app_r by lia. reflexivity.
Qed.

(** ** Commands *)

Lemma digits_of_length (fuel : nat) (n : N) (acc : list Z) :
  (length (Str.digits_of fuel n acc) ≤ fuel + length acc)%nat.
Proof.
  revert n acc. induction fuel as [|fuel IH]; intros n acc; cbn [Str.digits_of].
  - lia.
  - destruct (n <? 10)%N.
    + cbn [length]. lia.
    + specialize (IH (n / 10)%N ((48 + Z.of_N (n mod 10)) :: acc)).
      cbn [length] in IH. lia.
Qed.

Lemma digits_of_ascii (fuel : nat) (n : N) (acc : list Z) :
  Forall is_ascii acc → Forall is_ascii (Str.digits_of fuel n acc).
Proof.
  revert n acc. induction fuel as [|fuel IH]; intros n acc Hacc; cbn [Str.digits_of].
  - exact Hacc.
  - assert (is_ascii (48 + Z.of_N (n mod 10))) as Hd.
    { unfold is_ascii. pose proof (N.mod_lt n 10 ltac:(discriminate)) as Hmod.
      revert Hmod. generalize (n mod 10)%N. intros d Hd. lia. }
    destruct (n <? 10)%N; [|apply IH]; constructor; assumption.
Qed.

Lemma all_ascii_spec (s : list Z) : all_ascii s = true → Forall is_ascii s.
Proof.
  unfold all_ascii. rewrite forallb_forall, Forall_forall. intros Hs c Hc.
  apply list_elem_of_In, Hs in Hc. unfold is_ascii. lia.
Qed.

Lemma channel_path_ascii (n : N) (attr : string) :
  all_ascii (Str.js attr) = true → Forall is_ascii (channel_path n attr).
Proof.
  intros Hattr. unfold channel_path, Str.of_number.
  repeat apply Forall_app_2.
  - apply all_ascii_spec. reflexivity.
  - apply digits_of_ascii. constructor.
  - apply all_ascii_spec. reflexivity.
  - apply all_ascii_spec. exact Hattr.
Qed.

Lemma channel_path_length (n : N) (attr : string) :
  (length (channel_path n attr) ≤ 29 + length (Str.js attr))%nat.
Proof.
  unfold channel_path, Str.of_number. rewrite !length_app.
  pose proof (digits_of_length 21 n []).
  change (length (Str.js "line/ch")) with 7%nat.
  change (length (Str.js "/")) with 1%nat. cbn [length] in *. lia.
Qed.

Lemma buildPVPacket_returns (name : list Z) (value : spec_float) :
  Buf.len (Str.to_utf8 name) ≤ 65522 →
  buildPVPacket name value = Ok (pv_frame name value).
Proof.
  intros Hlen. unfold buildPVPacket, pv_frame.
  change (Buf.writeUInt16LE 104) with (Ok [x68; x00]).
  change (Buf.writeUInt16LE 102) with (Ok [x66; x00]).
  cbn [mbind result_bind].
  change ([x68; x00] ++ [x66; x00]) with [x68; x00; x66; x00].
  fold (pv_payload name value).
  assert (Buf.len (pv_payload name value) = 13 + Buf.len (Str.to_utf8 name)) as Hp.
  { unfold pv_payload. rewrite !len_app.
    change (Buf.len (Str.to_ascii_bytes (Str.js "PV"))) with 2.
    change (Buf.len [x68; x00; x66; x00]) with 4.
    change (Buf.len [x00; x00; x00]) with 3.
    change (Buf.len (Float32.writeFloatLE value)) with 4. lia. }
  pose proof (len_nonneg (Str.to_utf8 name)).
  unfold Buf.writeUInt16LE.
  destruct (Z.ltb_spec (Buf.len (pv_payload name value)) 0); [lia|].
  destruct (Z.ltb_spec 65535 (Buf.len (pv_payload name value))); [lia|].
  reflexivity.
Qed.

Lemma buildPVPacket_channel (n : N) (attr : string) (value : spec_float) :
  In attr attributes →
  buildPVPacket (channel_path n attr) value = Ok (pv_frame (channel_path n attr) value).
Proof.
  intros Hattr. apply buildPVPacket_returns.
  assert (all_ascii (Str.js attr) = true ∧ (length (Str.js attr) ≤ 4)%nat) as [Hascii Hlen].
  { cbn in Hattr. destruct Hattr as [<-|[<-|[<-|[<-|[<-|[]]]]]]; split; (reflexivity || (cbn; lia)). }
  rewrite to_utf8_ascii by (apply channel_path_ascii; exact Hascii).
  pose proof (channel_path_length n attr).
  unfold Buf.len. rewrite length_map. lia.
Qed.

Lemma sendPacket_sent (packet : list byte) (st : State) :
  sendPacket packet st = (Ok tt, sent packet st).
Proof. unfold sendPacket, sent. run_M. destruct (tcpWritable st); reflexivity. Qed.

Lemma known_sent (packet : list byte) (st : State) (n : N) (attr : string) :
  known (sent packet st) n attr = known st n attr.
Proof. unfold sent. destruct (tcpWritable st); reflexivity. Qed.

Lemma channel_sent (packet : list byte) (st : State) (n : N) :
  channel (sent packet st) n = channel st n.
Proof. unfold sent. destruct (tcpWritable st); reflexivity. Qed.

Lemma setChannelMute_sent (n : N) (flag : bool) (st : State) :
  setChannelMute n flag st
  = (Ok tt, sent (pv_frame (channel_path n "mute") (bool_number flag)) st).
Proof.
  unfold setChannelMute. rewrite buildPVPacket_channel by (cbn; tauto).
  apply sendPacket_sent.
Qed.

Lemma setChannelSolo_sent (n : N) (flag : bool) (st : State) :
  setChannelSolo n flag st
  = (Ok tt, sent (pv_frame (channel_path n "solo") (bool_number flag)) st).
Proof.
  unfold setChannelSolo. rewrite buildPVPacket_channel by (cbn; tauto).
  apply sendPacket_sent.
Qed.

Lemma setChannel48V_sent (n : N) (flag : bool) (st : State) :
  setChannel48V n flag st
  = (Ok tt, sent (pv_frame (channel_path n "48v") (bool_number flag)) st).
Proof.
  unfold setChannel48V. rewrite buildPVPacket_channel by (cbn; tauto).
  apply sendPacket_sent.
Qed.

Lemma setChannelHPF_sent (n : N) (flag : bool) (st : State) :
  setChannelHPF n flag st
  = (Ok tt, sent (pv_frame (channel_path n "hpf") (bool_number flag)) st).
Proof.
  unfold setChannelHPF. rewrite buildPVPacket_channel by (cbn; tauto).
  apply sendPacket_sent.
Qed.

Lemma setChannelPad_sent (n : N) (flag : bool) (st : State) :
  setChannelPad n flag st
  = (Ok tt, sent (pv_frame (channel_path n "pad") (bool_number flag)) st).
Proof.
  unfold setChannelPad. rewrite buildPVPacket_channel by (cbn; tauto).
  apply sendPacket_sent.
Qed.

Lemma toggleChannelMute_unknown (n : N) (st : State) :
  known st n "mute" = None →
  toggleChannelMute n st
  = (Ok tt,
     add_logged InfoCallingCheckFeedbacks
       (add_logged (WarnUnknown n "mute")
          (set_channelStates <[n := {[ "mute"%string := true ]}]>
             (sent (pv_frame (channel_path n "mute") Float32.one) st)))).
Proof.
  intros Hunknown. unfold toggleChannelMute.
  unfold mbind at 1 2, M_bind at 1 2, get_state. rewrite Hunknown.
  unfold mbind at 1 2, M_bind at 1 2. rewrite setChannelMute_sent. reflexivity.
Qed.

Lemma toggle_with_spread_unknown (attr : string) (setChannel : N → bool → M unit)
    (unknownDefault : bool) (n : N) (st : State) :
  (∀ flag st, setChannel n flag st
              = (Ok tt, sent (pv_frame (channel_path n attr) (bool_number flag)) st)) →
  known st n attr = None →
  toggle_with_spread attr setChannel unknownDefault n st
  = (Ok tt,
     add_logged (WarnUnknown n attr)
       (set_channelStates <[n := spread_with (channel st n) attr unknownDefault]>
          (sent (pv_frame (channel_path n attr) (bool_number unknownDefault)) st))).
Proof.
  intros Hset Hunknown. unfold toggle_with_spread.
  unfold mbind at 1, M_bind at 1, get_state. rewrite Hunknown.
  unfold mbind at 1 2, M_bind at 1 2. rewrite Hset. reflexivity.
Qed.

(** ** What a method leaves untouched *)

Section Preserves.
Context {X : Type} (f : State → X).
Hypothesis f_logged : ∀ entry st, f (add_logged entry st) = f st.

Lemma preserves_ret {A} (x : A) : preserves f (mret x).
Proof. intros st. reflexivity. Qed.

Lemma preserves_lift {A} (r : result A) : preserves f (lift r).
Proof. intros st. reflexivity. Qed.

Lemma preserves_throw {A} (e : exn) : preserves f (@throw A e).
Proof. intros st. reflexivity. Qed.

Lemma preserves_log (entry : LogEntry) : preserves f (log entry).
Proof. intros st. apply f_logged. Qed.

Lemma preserves_bind {A B} (m : M A) (k : A → M B) :
  preserves f m → (∀ x, preserves f (k x)) → preserves f (m ≫= k).
Proof.
  intros Hm Hk st. unfold mbind, M_bind. specialize (Hm st).
  destruct (m st) as [[x|e] st']; cbn [snd] in *; [rewrite Hk|]; exact Hm.
Qed.

Lemma preserves_bind_lift {A B} (r : result A) (k : A → M B) :
  (∀ x, r = Ok x → preserves f (k x)) → preserves f (lift r ≫= k).
Proof.
  intros Hk st. unfold mbind, M_bind, lift.
  destruct r as [x|e]; [apply Hk|]; reflexivity.
Qed.

Lemma preserves_try_catch {A} (body : M A) (handler : exn → M A) :
  preserves f body → (∀ e, preserves f (handler e)) → preserves f (try_catch body handler).
Proof.
  intros Hm Hk st. unfold try_catch. specialize (Hm st).
  destruct (body st) as [[x|e] st']; cbn [snd] in *; [|rewrite Hk]; exact Hm.
Qed.

Lemma preserves_for_each {A} (xs : list A) (body : A → M unit) :
  (∀ x, In x xs → preserves f (body x)) → preserves f (for_each xs body).
Proof.
  induction xs as [|x xs IH]; intros Hb; cbn [for_each].
  - apply preserves_ret.
  - apply preserves_bind; [apply Hb; left; reflexivity|].
    intros _. apply IH. intros y Hy. apply Hb. right. exact Hy.
Qed.

End Preserves.

Lemma known_add_logged (n : N) (attr : string) (entry : LogEntry) (st : State) :
  known (add_logged entry st) n attr = known st n attr.
Proof. reflexivity. Qed.

Lemma known_insert (n m : N) (attr : string) (record : gmap string bool) (st : State) :
  known (set_channelStates <[m := record]> st) n attr
  = if decide (m = n) then record !! attr else known st n attr.
Proof.
  unfold known, channel. simpl_state. rewrite lookup_insert.
  destruct (decide (m = n)); reflexivity.
Qed.

Section Snapshot.
Context `{Runtime}.

Lemma preserves_assign_attr (n m : N) (attr attr' : string) (v : bool) :
  m ≠ n ∨ attr' ≠ attr →
  preserves (fun st => known st n attr) (assign_attr m attr' v).
Proof.
  intros Hne st. unfold assign_attr. run_M.
  destruct (channel st m) as [record|] eqn:Hm; [|reflexivity].
  cbn [snd]. rewrite known_insert. destruct (decide (m = n)) as [->|]; [|reflexivity].
  unfold known. rewrite Hm. destruct Hne as [|Hattr]; [contradiction|].
  apply lookup_insert_ne. exact Hattr.
Qed.

Lemma preserves_update_attr (n m : N) (attr attr' : string) (values : value) :
  (m = n → attr' = attr → ∀ v, get_prop values attr = Ok v → is_undefined v = true) →
  preserves (fun st => known st n attr) (update_attr values m attr').
Proof.
  intros Habsent st. unfold update_attr.
  unfold mbind at 1, M_bind at 1, lift at 1.
  destruct (get_prop values attr') as [v|e] eqn:Hget; [|reflexivity].
  destruct (is_undefined v) eqn:Hv; [reflexivity|].
  unfold mbind at 1, M_bind at 1, lift at 1.
  destruct (gt0 v) as [active|e]; [|reflexivity].
  apply preserves_assign_attr.
  destruct (decide (m = n)) as [Hm|Hm]; [|left; exact Hm].
  destruct (decide (attr' = attr)) as [Ha|Ha]; [|right; exact Ha].
  subst attr'. rewrite (Habsent Hm eq_refl v Hget) in Hv. discriminate.
Qed.

Lemma preserves_update_channel (n : N) (attr : string) (entry : list Z * value) :
  entry_defines entry n attr = false →
  preserves (fun st => known st n attr) (update_channel entry).
Proof.
  intros Habsent. destruct entry as [key channelData]. unfold update_channel.
  destruct (match_channel_key key) as [digits|] eqn:Hkey; [|apply preserves_ret].
  apply preserves_bind_lift. intros values Hvalues.
  destruct (truthy values); [|apply preserves_ret].
  assert (∀ attr', preserves (fun st => known st n attr)
                     (update_attr values (Str.parseInt10 digits) attr')) as Hattr.
  { intros attr'. apply preserves_update_attr. intros Hn _ v Hget.
    destruct (is_undefined v) eqn:Hv; [reflexivity|]. exfalso.
    unfold entry_defines in Habsent. cbn [fst snd] in Habsent.
    rewrite Hkey, Hn, N.eqb_refl, Hvalues, Hget, Hv in Habsent. discriminate. }
  repeat (apply preserves_bind; [|intros _]); try apply Hattr.
  intros st. unfold modify. cbn [snd]. unfold known, channel. simpl_state.
  rewrite lookup_insert. destruct (decide (Str.parseInt10 digits = n)) as [->|]; [|reflexivity].
  destruct (channelStates st !! n); reflexivity.
Qed.

Lemma preserves_updateChannelStates (n : N) (attr : string) (jsonData : value) :
  snapshot_defines jsonData n attr = false →
  preserves (fun st => known st n attr) (updateChannelStates jsonData).
Proof.
  intros Habsent. unfold updateChannelStates.
  apply preserves_bind_lift. intros [lineChildren|] Hline; [|apply preserves_ret].
  apply preserves_bind_lift. intros items Hitems.
  apply preserves_for_each. intros entry Hentry.
  apply preserves_update_channel.
  unfold snapshot_defines in Habsent. rewrite Hline, Hitems in Habsent.
  destruct (entry_defines entry n attr) eqn:Hdef; [|reflexivity].
  rewrite <- Habsent. symmetry. apply existsb_exists. exists entry. split; assumption.
Qed.

Lemma updateGlobalStates_keeps_channels (jsonData : value) (st : State) :
  channelStates (updateGlobalStates jsonData st).2 = channelStates st.
Proof.
  unfold updateGlobalStates. run_M.
  destruct (global_values jsonData) as [[globalValues|]|e]; try reflexivity.
  destruct (get_prop globalValues "mixerBypass") as [v|e]; [|reflexivity].
  destruct (is_undefined v); [reflexivity|].
  destruct (gt0 v); reflexivity.
Qed.

Lemma updateGlobalStates_absent (jsonData : value) (st : State) :
  snapshot_defines_bypass jsonData = false →
  mixerBypassState (updateGlobalStates jsonData st).2 = mixerBypassState st.
Proof.
  intros Habsent. unfold updateGlobalStates. run_M.
  destruct (global_values jsonData) as [[globalValues|]|e] eqn:Hglobal; try reflexivity.
  destruct (get_prop globalValues "mixerBypass") as [v|e] eqn:Hget; [|reflexivity].
  destruct (is_undefined v) eqn:Hv; [reflexivity|].
  unfold snapshot_defines_bypass in Habsent. rewrite Hglobal, Hget, Hv in Habsent.
  discriminate.
Qed.

Lemma preserves_bypass_assign_attr m attr v : preserves mixerBypassState (assign_attr m attr v).
Proof.
  intros st. unfold assign_attr. run_M. destruct (channel st m); reflexivity.
Qed.

Lemma preserves_bypass_updateChannelStates (jsonData : value) :
  preserves mixerBypassState (updateChannelStates jsonData).
Proof.
  assert (∀ values m attr, preserves mixerBypassState (update_attr values m attr)) as Hattr.
  { intros values m attr. unfold update_attr.
    apply preserves_bind; [apply preserves_lift|]. intros v.
    destruct (is_undefined v); [apply preserves_ret|].
    apply preserves_bind; [apply preserves_lift|]. intros active.
    apply preserves_bypass_assign_attr. }
  unfold updateChannelStates.
  apply preserves_bind; [apply preserves_lift|]. intros [lineChildren|]; [|apply preserves_ret].
  apply preserves_bind; [apply preserves_lift|]. intros items.
  apply preserves_for_each. intros [key channelData] _. unfold update_channel.
  destruct (match_channel_key key); [|apply preserves_ret].
  apply preserves_bind; [apply preserves_lift|]. intros values.
  destruct (truthy values); [|apply preserves_ret].
  repeat (apply preserves_bind; [|intros _]); try apply Hattr.
  intros st. reflexivity.
Qed.

(** What [handleZMPacket] does once the 4 bytes in front are read. *)
Lemma handleZMPacket_unfold (packet : Packet) (st : State) :
  4 ≤ Buf.len (data packet) →
  handleZMPacket packet st
  = match snapshot_of packet with
    | Ok jsonData =>
      match (updateChannelStates jsonData ;; updateGlobalStates jsonData) st with
      | (Ok _, st') => (Ok tt, st')
      | (Throw e, st') => (Ok tt, add_logged (ErrorDecompressing e) st')
      end
    | Throw e => (Ok tt, add_logged (ErrorDecompressing e) st)
    end.
Proof.
  intros Hlen. unfold handleZMPacket, snapshot_of.
  destruct (readUInt32LE_inside (data packet) 0) as [w ->]; [lia..|].
  unfold try_catch.
  unfold mbind at 1 2, M_bind at 1 2, lift at 1 2.
  destruct (inflateRawSync _) as [decompressed|e]; cbn [mbind result_bind]; [|reflexivity].
  unfold mbind at 1, M_bind at 1, lift at 1.
  destruct (JSON_parse _) as [jsonData|e]; [|reflexivity].
  destruct ((updateChannelStates jsonData ;; updateGlobalStates jsonData) st) as [[[]|e] st'];
    reflexivity.
Qed.

End Snapshot.

(** ** Parameter values *)

Lemma plain_ascii (s : list Z) : Forall is_plain s → Forall is_ascii s.
Proof.
  intros Hs. eapply Forall_impl; [exact Hs|]. unfold is_plain, is_ascii. intros c. lia.
Qed.

Lemma strip_nul_plain (s : list Z) : Forall is_plain s → Str.strip_nul s = s.
Proof.
  unfold Str.strip_nul. induction 1 as [|c s Hc _ IH]; [reflexivity|].
  unfold is_plain in Hc. rewrite filter_cons_True by lia. rewrite IH. reflexivity.
Qed.

Lemma strip_nul_padded (name : list Z) :
  Forall is_plain name →
  Str.strip_nul (Str.of_utf8 (Str.to_utf8 name ++ [x00; x00; x00])) = name.
Proof.
  intros Hname.
  change (Str.to_utf8 name ++ [x00; x00; x00])
    with (Str.to_utf8 name ++ x00 :: [] ++ x00 :: [] ++ x00 :: []).
  rewrite !strip_nul_utf8_nul. change (Str.strip_nul (Str.of_utf8 [])) with (@nil Z).
  rewrite !app_nil_r, of_utf8_to_utf8_ascii by (apply plain_ascii; exact Hname).
  apply strip_nul_plain. exact Hname.
Qed.

(** The body [buildPVPacket] writes for a boolean decodes to the name and to
    a number that is positive exactly when the boolean is true. *)
Lemma decode_pv_built (name : list Z) (flag : bool) :
  Forall is_plain name →
  ∃ val, decode_pv (Str.to_utf8 name ++ [x00; x00; x00]
                    ++ Float32.writeFloatLE (bool_number flag)) = Ok (name, val)
         ∧ Float32.gt0 val = flag.
Proof.
  intros Hname. rewrite app_assoc.
  destruct flag.
  - change (Float32.writeFloatLE (bool_number true)) with [x00; x00; x80; x3f].
    rewrite decode_pv_split, strip_nul_padded by exact Hname.
    eexists. split; reflexivity.
  - change (Float32.writeFloatLE (bool_number false)) with [x00; x00; x00; x00].
    rewrite decode_pv_split, strip_nul_padded by exact Hname.
    eexists. split; reflexivity.
Qed.

Lemma strip_prefix_app (p rest : list Z) : Str.strip_prefix p (p ++ rest) = Some rest.
Proof.
  induction p as [|c p IH]; cbn [Str.strip_prefix app].
  - destruct rest; reflexivity.
  - rewrite Z.eqb_refl. exact IH.
Qed.

Lemma span_digits_slash (digits rest : list Z) :
  Forall (fun c => Str.is_digit c = true) digits →
  Str.span_digits (digits ++ 47 :: rest) = (digits, 47 :: rest).
Proof.
  induction 1 as [|c digits Hc _ IH]; cbn [app Str.span_digits].
  - reflexivity.
  - rewrite Hc, IH. reflexivity.
Qed.

Lemma match_channel_path_channel (digits : list Z) (attr : string) :
  digits ≠ [] →
  Forall (fun c => Str.is_digit c = true) digits →
  In attr attributes →
  match_channel_path (Str.js "line/ch" ++ digits ++ Str.js "/" ++ Str.js attr)
  = Some (digits, attr).
Proof.
  intros Hne Hdigits Hattr. unfold match_channel_path.
  rewrite strip_prefix_app.
  change (Str.js "/" ++ Str.js attr) with (47 :: Str.js attr).
  rewrite span_digits_slash by exact Hdigits.
  destruct digits as [|d digits]; [contradiction|].
  cbn in Hattr. destruct Hattr as [<-|[<-|[<-|[<-|[<-|[]]]]]]; reflexivity.
Qed.

Lemma digits_plain (digits : list Z) :
  Forall (fun c => Str.is_digit c = true) digits → Forall is_plain digits.
Proof.
  intros Hs. eapply Forall_impl; [exact Hs|]. unfold Str.is_digit, is_plain. intros c. lia.
Qed.

Lemma channel_name_plain (digits : list Z) (attr : string) :
  Forall (fun c => Str.is_digit c = true) digits →
  In attr attributes →
  Forall is_plain (Str.js "line/ch" ++ digits ++ Str.js "/" ++ Str.js attr).
Proof.
  intros Hdigits Hattr.
  assert (∀ s, forallb (fun c => (0 <? c) && (c <? 128)) s = true → Forall is_plain s) as Hb.
  { intros s. rewrite forallb_forall, Forall_forall. intros Hs c Hc.
    apply list_elem_of_In, Hs in Hc. unfold is_plain. lia. }
  repeat apply Forall_app_2.
  - apply Hb. reflexivity.
  - apply digits_plain. exact Hdigits.
  - apply Hb. reflexivity.
  - apply Hb. cbn in Hattr. destruct Hattr as [<-|[<-|[<-|[<-|[<-|[]]]]]]; reflexivity.
Qed.

Lemma apply_pv_channel (digits : list Z) (attr : string) (val : spec_float) (st : State) :
  digits ≠ [] →
  Forall (fun c => Str.is_digit c = true) digits →
  In attr attributes →
  apply_pv (Str.js "line/ch" ++ digits ++ Str.js "/" ++ Str.js attr) val st
  = (Ok tt,
     set_channelStates
       <[Str.parseInt10 digits
         := spread_with (channel st (Str.parseInt10 digits)) attr (Float32.gt0 val)]> st).
Proof.
  intros Hne Hdigits Hattr. unfold apply_pv.
  assert (Str.eqb (Str.js "line/ch" ++ digits ++ Str.js "/" ++ Str.js attr)
            (Str.js "global/mixerBypass") = false) as ->.
  { unfold Str.eqb. apply bool_decide_eq_false. discriminate. }
  rewrite match_channel_path_channel by assumption. reflexivity.
Qed.

Lemma digits_of_plain (fuel : nat) (n : N) (acc : list Z) :
  Forall is_plain acc → Forall is_plain (Str.digits_of fuel n acc).
Proof.
  revert n acc. induction fuel as [|fuel IH]; intros n acc Hacc; cbn [Str.digits_of].
  - exact Hacc.
  - assert (is_plain (48 + Z.of_N (n mod 10))) as Hd.
    { unfold is_plain. pose proof (N.mod_lt n 10 ltac:(discriminate)) as Hmod.
      revert Hmod. generalize (n mod 10)%N. intros d Hd. lia. }
    destruct (n <? 10)%N; [|apply IH]; constructor; assumption.
Qed.

Lemma channel_path_plain (n : N) (attr : string) :
  In attr attributes → Forall is_plain (channel_path n attr).
Proof.
  intros Hattr.
  assert (∀ s, forallb (fun c => (0 <? c) && (c <? 128)) s = true → Forall is_plain s) as Hb.
  { intros s. rewrite forallb_forall, Forall_forall. intros Hs c Hc.
    apply list_elem_of_In, Hs in Hc. unfold is_plain. lia. }
  unfold channel_path, Str.of_number. repeat apply Forall_app_2.
  - apply Hb. reflexivity.
  - apply digits_of_plain. constructor.
  - apply Hb. reflexivity.
  - apply Hb. cbn in Hattr. destruct Hattr as [<-|[<-|[<-|[<-|[<-|[]]]]]]; reflexivity.
Qed.

(** The body of the frame [pv_frame] stands for. *)
Lemma pv_frame_body (name : list Z) (value : spec_float) :
  drop 12 (pv_frame name value)
  = Str.to_utf8 name ++ [x00; x00; x00] ++ Float32.writeFloatLE value.
Proof. reflexivity. Qed.

Lemma pv_frame_is_pv_frame (n : N) (attr : string) (flag : bool) :
  In attr attributes →
  is_pv_frame (pv_frame (channel_path n attr) (bool_number flag)) (channel_path n attr) flag.
Proof.
  intros Hattr. split; [|split].
  - apply buildPVPacket_channel. exact Hattr.
  - unfold pv_frame, pv_payload.
    rewrite !app_assoc. rewrite length_app.
    change (length (Float32.writeFloatLE (bool_number flag))) with 4%nat.
    match goal with
    | |- drop (length ?l + 4 - 4) _ = _ =>
      replace (length l + 4 - 4)%nat with (length l) by lia
    end.
    rewrite drop_app_length. destruct flag; reflexivity.
  - rewrite pv_frame_body. apply decode_pv_built, channel_path_plain. exact Hattr.
Qed.

(** * The claims of the specification *)

Section Claims.
Context `{Runtime}.

(** C1. Encoding a message with [buildUMPacket], [buildJMPacket],
    [buildKAPacket] or [buildPVPacket] and decoding the bytes with
    [parsePacket] does not give the message back: the builders write the
    version as the bytes [00 01], which [parsePacket] reads in little-endian
    order as 256 and rejects. The JM and KA frames and the UM and PV frames
    of a concrete input are rejected with 'Invalid header'; for every other
    input either the same happens or the builder itself throws. *)
Theorem C1_built_packets_are_rejected :
  decode_built buildKAPacket = Throw (Error "Invalid header")
  ∧ decode_built buildJMPacket = Throw (Error "Invalid header")
  ∧ decode_built (buildUMPacket 50000) = Throw (Error "Invalid header")
  ∧ decode_built (buildPVPacket (Str.js "line/ch5/mute") Float32.one)
    = Throw (Error "Invalid header")
  ∧ (∀ udpPort : Z,
       decode_built (buildUMPacket udpPort) = Throw (Error "Invalid header")
       ∨ buildUMPacket udpPort = Throw RangeError)
  ∧ (∀ (name : list Z) (value : spec_float),
       decode_built (buildPVPacket name value) = Throw (Error "Invalid header")
       ∨ buildPVPacket name value = Throw RangeError).
Proof.
  repeat apply conj.
  - vm_compute. reflexivity.
  - vm_compute. reflexivity.
  - vm_compute. reflexivity.
  - vm_compute. reflexivity.
  - apply buildUMPacket_rejected.
  - apply buildPVPacket_rejected.
Qed.

(** C2. For every byte sequence that is a concatenation of valid frames
    (frames of the wire format whose payload holds a type and an address
    pair, and a body of 4 bytes or more when the type is ZM or PV), feeding
    it to the reassembler split at arbitrary chunk boundaries gives the same
    decoded frames in the same order, and the same final state, as feeding
    it in a single chunk: every frame, in the order of the stream. *)
Theorem C2_chunking_yields_same_frames
    (payloads : list (list byte)) (chunks : list (list byte)) (st : State) :
  Forall well_formed payloads →
  receiveBuffer st = [] →
  concat chunks = concat (map spec_frame payloads) →
  feed chunks st = handleIncomingData (concat (map spec_frame payloads)) st
  ∧ (handleIncomingData (concat (map spec_frame payloads)) st).1
    = Ok (Some (map message payloads)).
Proof.
  intros Hwf Hbuf Hchunks.
  assert (handleIncomingData (concat (map spec_frame payloads)) st
          = (Ok (Some (map message payloads)),
             set_receiveBuffer [] (fold_left (fun s p => dispatched p s) payloads st)))
    as Hwhole.
  { apply handleIncomingData_aligned; [exact Hwf | left; reflexivity |].
    rewrite Hbuf, app_nil_r. reflexivity. }
  rewrite Hwhole. split; [|reflexivity].
  apply feed_aligned; [exact Hwf | | rewrite Hbuf; exact Hchunks].
  rewrite Hbuf. destruct payloads as [|payload payloads]; cbn [waiting_for]; [reflexivity|].
  exists (spec_frame payload). split; [discriminate | reflexivity].
Qed.


(** The no-op of [sendPacket] under a toggle: on the instance the
    constructor leaves, which has no socket, toggling mute on channel 5
    writes nothing, logs 'TCP client is not connected' and records
    mute = true. *)
Example toggleChannelMute_without_a_socket :
  known constructor 5 "mute" = None
  ∧ tcpWritten (toggleChannelMute 5 constructor).2 = []
  ∧ logged (toggleChannelMute 5 constructor).2
    = [ErrorNotConnected; WarnUnknown 5 "mute"; InfoCallingCheckFeedbacks]
  ∧ known (toggleChannelMute 5 constructor).2 5 "mute" = Some true.
Proof. vm_compute. repeat split. Qed.

(** C4, as the code has it. A channel attribute is read as one of three
    states: an attribute that was never observed reads as unknown, and after
    a PV message with the value 0.0 it reads as false. The feedbacks of
    mute, solo, hpf and 48v render the difference: no style for unknown, the
    colour of the inactive state for false. Pad has no feedback; its state
    is read by its toggle only. The global [mixerBypass] has two states: it
    is false from the constructor on, and a PV message with the value 0.0
    leaves the instance exactly as the constructor made it. *)
Theorem C4_tri_state_for_channels_only (digits : list Z) (attr : string) (st : State) :
  digits ≠ [] →
  Forall (fun c => Str.is_digit c = true) digits →
  In attr attributes →
  known st (Str.parseInt10 digits) attr = None →
  let name := Str.js "line/ch" ++ digits ++ Str.js "/" ++ Str.js attr in
  let observed := (handlePVPacket (pv_packet name Float32.zero) st).2 in
  known observed (Str.parseInt10 digits) attr = Some false
  ∧ (∀ (id : ChannelFeedback) (options : FeedbackOptions),
       feedback_attr id = attr →
       channel_feedback id options (Str.parseInt10 digits) st = None
       ∧ channel_feedback id options (Str.parseInt10 digits) observed
         = Some (inactiveColor options))
  ∧ mixerBypassState constructor = false
  ∧ handlePVPacket (pv_packet (Str.js "global/mixerBypass") Float32.zero) constructor
    = (Ok tt, constructor).
Proof.
  intros Hne Hdigits Hattr Hunknown name observed.
  assert (known observed (Str.parseInt10 digits) attr = Some false) as Hobserved.
  { subst observed. unfold handlePVPacket, pv_packet. cbn [data].
    destruct (decode_pv_built name false) as (val & Hdecode & Hval);
      [apply channel_name_plain; assumption|].
    change (bool_number false) with Float32.zero in Hdecode.
    unfold mbind, M_bind, lift. rewrite Hdecode. cbn [fst snd].
    subst name. rewrite apply_pv_channel by assumption. cbn [snd].
    rewrite known_insert. destruct (decide _); [|contradiction].
    unfold spread_with. rewrite lookup_insert_eq, Hval. reflexivity. }
  repeat apply conj.
  - exact Hobserved.
  - intros id options Hid. unfold channel_feedback.
    rewrite Hid, Hunknown, Hobserved. split; reflexivity.
  - reflexivity.
  - vm_compute. reflexivity.
Qed.

(** C4 fails for [mixerBypass]: the state in which the parameter was
    observed as false is the state in which it was never observed, so the
    feedback and the toggle cannot tell them apart. *)
Lemma C4_bypass_unknown_reads_as_false :
  let observed :=
    (handlePVPacket (pv_packet (Str.js "global/mixerBypass") Float32.zero) constructor).2 in
  observed = constructor
  ∧ mixer_bypass_feedback {| activeColor := 16711680; inactiveColor := 65280 |} constructor
    = Some 65280
  ∧ mixer_bypass_feedback {| activeColor := 16711680; inactiveColor := 65280 |} observed
    = Some 65280
  ∧ toggleMixerBypass observed = toggleMixerBypass constructor.
Proof. vm_compute. repeat split. Qed.

(** C5. When the receive buffer starts with the magic 'UC' and the 16-bit
    field behind it is not 1, one iteration of the loop discards the first 2
    bytes of the buffer, no more, and goes back to the header search; a
    valid frame that starts right behind the discarded magic, or one byte
    later, is then found and decoded. *)
Theorem C5_invalid_version_skips_two_bytes :
  (∀ (st : State) (v0 v1 : byte) (rest : list byte),
     receiveBuffer st = x55 :: x43 :: v0 :: v1 :: rest →
     2 ≤ Buf.len rest →
     Buf.byte_val v0 + 256 * Buf.byte_val v1 ≠ 1 →
     loop_body st
     = (Ok (Continue None),
        set_receiveBuffer (v0 :: v1 :: rest) (add_logged WarnInvalidVersion st)))
  ∧ (∀ (st : State) (payload : list byte),
       well_formed payload →
       receiveBuffer st = [] →
       (handleIncomingData ([x55; x43] ++ spec_frame payload) st).1
       = Ok (Some [message payload]))
  ∧ (∀ (st : State) (gap : byte) (payload : list byte),
       well_formed payload →
       receiveBuffer st = [] →
       (handleIncomingData ([x55; x43; gap] ++ spec_frame payload) st).1
       = Ok (Some [message payload])).
Proof.
  split; [|split].
  - intros st v0 v1 rest. apply loop_body_invalid_version.
  - intros st payload Hwf Hbuf. unfold handleIncomingData. run_M. rewrite Hbuf.
    cbn [app length].
    rewrite (resync_adjacent _ _ payload Hwf); [reflexivity | reflexivity | lia].
  - intros st gap payload Hwf Hbuf. unfold handleIncomingData. run_M. rewrite Hbuf.
    cbn [app length].
    rewrite (resync_one_byte_later _ _ gap payload Hwf); reflexivity.
Qed.

(** C6. A ZM snapshot changes only what its document names: a channel
    attribute for which the document has no key
    [children.line.children.ch<N>.values.<attr>] keeps the value it had,
    known or unknown, and [mixerBypass] keeps its value when the document
    has no key [children.global.values.mixerBypass]. *)
Theorem C6_snapshot_merges (packet : Packet) (st : State) :
  (∀ (n : N) (attr : string),
     packet_defines packet n attr = false →
     known (handleZMPacket packet st).2 n attr = known st n attr)
  ∧ (packet_defines_bypass packet = false →
     mixerBypassState (handleZMPacket packet st).2 = mixerBypassState st).
Proof.
  destruct (Z.ltb_spec (Buf.len (data packet)) 4) as [Hshort|Hlen].
  { assert (handleZMPacket packet st = (Throw RangeError, st)) as ->.
    { unfold handleZMPacket, Buf.readUInt32LE. cbn [Z.ltb Z.compare orb].
      change (0 + 4) with 4.
      destruct (Z.ltb_spec (Buf.len (data packet)) 4); [reflexivity | lia]. }
    split; reflexivity. }
  rewrite handleZMPacket_unfold by exact Hlen.
  unfold packet_defines, packet_defines_bypass.
  destruct (snapshot_of packet) as [jsonData|e]; [|split; reflexivity].
  pose proof (updateGlobalStates_keeps_channels jsonData) as Hglobal.
  unfold mbind, M_bind.
  split.
  - intros n attr Habsent.
    pose proof (preserves_updateChannelStates n attr jsonData Habsent st) as Hchannels.
    cbn beta in Hchannels.
    destruct (updateChannelStates jsonData st) as [[[]|e] st1]; cbn [snd] in *.
    + specialize (Hglobal st1).
      destruct (updateGlobalStates jsonData st1) as [[[]|e] st2]; cbn [snd] in *;
        unfold known, channel in *; simpl_state; rewrite Hglobal; exact Hchannels.
    + exact Hchannels.
  - intros Habsent.
    pose proof (preserves_bypass_updateChannelStates jsonData st) as Hchannels.
    destruct (updateChannelStates jsonData st) as [[[]|e] st1]; cbn [snd] in *.
    + pose proof (updateGlobalStates_absent jsonData st1 Habsent) as Hbypass.
      destruct (updateGlobalStates jsonData st1) as [[[]|e] st2]; cbn [snd] in *;
        simpl_state; congruence.
    + exact Hchannels.
Qed.

(** C7. A PV body of 4 bytes or more is decoded as follows: the last 4
    bytes are the little-endian 32-bit float, and the bytes in front of
    them, decoded as UTF-8 and with the NULs removed, are the name. A NUL
    byte in the name bytes never reaches the name, wherever it stands: it
    splits the bytes in two parts that are decoded apart. So the body
    [line/ch5], NUL, [/mute], three NULs, [00 00 80 3f] gives the name
    [line/ch5/mute] and the value 1.0. *)
Theorem C7_pv_decode :
  (∀ (nameBytes : list byte) (v0 v1 v2 v3 : byte),
     decode_pv (nameBytes ++ [v0; v1; v2; v3])
     = Ok (Str.strip_nul (Str.of_utf8 nameBytes),
           Float32.of_bits (Buf.byte_val v0 + 256 * Buf.byte_val v1
                            + 65536 * Buf.byte_val v2 + 16777216 * Buf.byte_val v3)))
  ∧ (∀ before after : list byte,
       Str.strip_nul (Str.of_utf8 (before ++ x00 :: after))
       = Str.strip_nul (Str.of_utf8 before) ++ Str.strip_nul (Str.of_utf8 after))
  ∧ decode_pv (Str.to_utf8 (Str.js "line/ch5") ++ [x00] ++ Str.to_utf8 (Str.js "/mute")
               ++ [x00; x00; x00] ++ [x00; x00; x80; x3f])
    = Ok (Str.js "line/ch5/mute", S754_finite false 8388608 (-23)).
Proof.
  repeat apply conj.
  - apply decode_pv_split.
  - apply strip_nul_utf8_nul.
  - vm_compute. reflexivity.
Qed.

(** C8. When the body of a ZM packet does not inflate or does not parse,
    the channel states and [mixerBypass] are what they were; with the 4
    bytes in front of the stream present, [handleZMPacket] returns, and all
    it has done is to log the error. *)
Theorem C8_failed_snapshot_is_dropped (packet : Packet) (st : State) (e : exn) :
  snapshot_of packet = Throw e →
  channelStates (handleZMPacket packet st).2 = channelStates st
  ∧ mixerBypassState (handleZMPacket packet st).2 = mixerBypassState st
  ∧ (4 ≤ Buf.len (data packet) →
     handleZMPacket packet st = (Ok tt, add_logged (ErrorDecompressing e) st)).
Proof.
  intros Hfail.
  destruct (Z.ltb_spec (Buf.len (data packet)) 4) as [Hshort|Hlen].
  - assert (handleZMPacket packet st = (Throw RangeError, st)) as ->.
    { unfold handleZMPacket, Buf.readUInt32LE. cbn [Z.ltb Z.compare orb].
      change (0 + 4) with 4.
      destruct (Z.ltb_spec (Buf.len (data packet)) 4); [reflexivity | lia]. }
    repeat split. lia.
  - rewrite handleZMPacket_unfold by exact Hlen. rewrite Hfail. repeat split.
Qed.

(** C9. When the record of a channel exists and its mute state is unknown,
    [toggleChannelMute] replaces the record by [{mute: true}]: every other
    attribute of the channel becomes unknown. In the same situation
    [toggleChannelSolo], [toggleChannel48V], [toggleChannelHPF] and
    [toggleChannelPad] add their attribute to the record and keep the
    others. *)
Theorem C9_mute_replaces_others_merge (n : N) (st : State) (record : gmap string bool) :
  channel st n = Some record →
  (record !! "mute"%string = None →
   channel (toggleChannelMute n st).2 n = Some {[ "mute"%string := true ]}
   ∧ ∀ attr, attr ≠ "mute"%string → known (toggleChannelMute n st).2 n attr = None)
  ∧ (record !! "solo"%string = None →
     channel (toggleChannelSolo n st).2 n = Some (<["solo"%string := true]> record)
     ∧ ∀ attr, attr ≠ "solo"%string →
               known (toggleChannelSolo n st).2 n attr = known st n attr)
  ∧ (record !! "48v"%string = None →
     channel (toggleChannel48V n st).2 n = Some (<["48v"%string := false]> record)
     ∧ ∀ attr, attr ≠ "48v"%string →
               known (toggleChannel48V n st).2 n attr = known st n attr)
  ∧ (record !! "hpf"%string = None →
     channel (toggleChannelHPF n st).2 n = Some (<["hpf"%string := false]> record)
     ∧ ∀ attr, attr ≠ "hpf"%string →
               known (toggleChannelHPF n st).2 n attr = known st n attr)
  ∧ (record !! "pad"%string = None →
     channel (toggleChannelPad n st).2 n = Some (<["pad"%string := false]> record)
     ∧ ∀ attr, attr ≠ "pad"%string →
               known (toggleChannelPad n st).2 n attr = known st n attr).
Proof.
  intros Hrecord.
  assert (∀ attr, known st n attr = record !! attr) as Hknown
    by (intros attr; unfold known; rewrite Hrecord; reflexivity).
  assert (∀ attr setChannel unknownDefault,
            (∀ flag st, setChannel n flag st
                        = (Ok tt, sent (pv_frame (channel_path n attr) (bool_number flag)) st)) →
            record !! attr = None →
            channel (toggle_with_spread attr setChannel unknownDefault n st).2 n
            = Some (<[attr := unknownDefault]> record)
            ∧ ∀ attr', attr' ≠ attr →
                known (toggle_with_spread attr setChannel unknownDefault n st).2 n attr'
                = known st n attr') as Hspread.
  { intros attr setChannel unknownDefault Hset Hunknown.
    rewrite (toggle_with_spread_unknown attr setChannel unknownDefault n st Hset)
      by (rewrite Hknown; exact Hunknown).
    cbn [snd]. rewrite Hrecord. split.
    - unfold channel. simpl_state. apply lookup_insert_eq.
    - intros attr' Hne. rewrite known_add_logged, known_insert.
      destruct (decide (n = n)); [|contradiction].
      unfold spread_with. cbn [default]. rewrite lookup_insert_ne by congruence.
      symmetry. apply Hknown. }
  repeat apply conj.
  - intros Hunknown.
    rewrite toggleChannelMute_unknown by (rewrite Hknown; exact Hunknown).
    cbn [snd]. split.
    + unfold channel. simpl_state. apply lookup_insert_eq.
    + intros attr Hne. rewrite !known_add_logged, known_insert.
      destruct (decide (n = n)); [|contradiction].
      apply lookup_singleton_ne. congruence.
  - apply (Hspread "solo"%string setChannelSolo true (setChannelSolo_sent n)).
  - apply (Hspread "48v"%string setChannel48V false (setChannel48V_sent n)).
  - apply (Hspread "hpf"%string setChannelHPF false (setChannelHPF_sent n)).
  - apply (Hspread "pad"%string setChannelPad false (setChannelPad_sent n)).
Qed.

(** C10. The loop of [handleIncomingData] ends for every chunk and every
    state, within as many iterations as the buffer has bytes, and every
    iteration either leaves the loop or takes 2 bytes or more off the
    receive buffer. *)
Theorem C10_loop_terminates :
  (∀ (data : list byte) (st : State),
     ∃ decoded st', handleIncomingData data st = (Ok (Some decoded), st'))
  ∧ (∀ st : State,
       ∃ iteration st',
         loop_body st = (Ok iteration, st')
         ∧ match iteration with
           | Break => True
           | Continue _ => Buf.len (receiveBuffer st') + 2 ≤ Buf.len (receiveBuffer st)
           end).
Proof.
  split.
  - apply handleIncomingData_total.
  - apply loop_body_shrinks.
Qed.

End Claims.

(** * Further properties of the code *)

(** ** What the handlers and the commands leave untouched *)

Lemma preserves_get_state {X} (f : State → X) : preserves f get_state.
Proof. intros st. reflexivity. Qed.

Lemma preserves_modify {X} (f : State → X) (g : State → State) :
  (∀ st, f (g st) = f st) → preserves f (modify g).
Proof. intros Hg st. apply Hg. Qed.

Lemma preserves_if {X A} (f : State → X) (c : bool) (m1 m2 : M A) :
  preserves f m1 → preserves f m2 → preserves f (if c then m1 else m2).
Proof. destruct c; tauto. Qed.

(** [preserving] takes a method apart; what is left are the updates of
    the state, which [field] has to show harmless. *)
Ltac preserving field :=
  repeat lazymatch goal with
  | |- preserves _ (mret _) => apply preserves_ret
  | |- preserves _ (lift _) => apply preserves_lift
  | |- preserves _ (throw _) => apply preserves_throw
  | |- preserves _ get_state => apply preserves_get_state
  | |- preserves _ (log _) => apply preserves_log; intros; field
  | |- preserves _ (modify _) => apply preserves_modify; intros; field
  | |- preserves _ (_ ≫= _) => apply preserves_bind; [|intros ?]
  | |- preserves _ (try_catch _ _) => apply preserves_try_catch; [|intros ?]
  | |- preserves _ (for_each _ _) => apply preserves_for_each; intros ? _
  | |- preserves _ (if _ then _ else _) => apply preserves_if
  | |- preserves _ (match ?x with _ => _ end) => destruct x
  | |- preserves _ _ => solve [auto]
  end.

Section Handlers_preserve.
Context `{Runtime} {X : Type} (f : State → X).
Hypothesis f_logged : ∀ entry st, f (add_logged entry st) = f st.
Hypothesis f_channelStates : ∀ g st, f (set_channelStates g st) = f st.
Hypothesis f_mixerBypassState : ∀ v st, f (set_mixerBypassState v st) = f st.

Lemma handleZMPacket_preserves (packet : Packet) : preserves f (handleZMPacket packet).
Proof.
  unfold handleZMPacket, updateChannelStates, updateGlobalStates, update_channel,
    update_attr, assign_attr.
  preserving ltac:(auto).
Qed.

Lemma handlePVPacket_preserves (packet : Packet) : preserves f (handlePVPacket packet).
Proof. unfold handlePVPacket, apply_pv. preserving ltac:(auto). Qed.

Lemma handleIncomingUDPData_preserves (data : list byte) :
  preserves f (handleIncomingUDPData data).
Proof.
  pose proof handleZMPacket_preserves. pose proof handlePVPacket_preserves.
  unfold handleIncomingUDPData. preserving ltac:(auto).
Qed.

Hypothesis f_receiveBuffer : ∀ buf st, f (set_receiveBuffer buf st) = f st.

Lemma parse_and_dispatch_preserves (packetData : list byte) :
  preserves f (parse_and_dispatch packetData).
Proof.
  pose proof handleZMPacket_preserves. pose proof handlePVPacket_preserves.
  unfold parse_and_dispatch. preserving ltac:(auto).
Qed.

Lemma loop_body_preserves : preserves f loop_body.
Proof.
  pose proof parse_and_dispatch_preserves.
  unfold loop_body, read_frame. preserving ltac:(auto).
Qed.

Lemma process_buffer_preserves (fuel : nat) : preserves f (process_buffer fuel).
Proof.
  pose proof loop_body_preserves.
  induction fuel as [|fuel IH]; cbn [process_buffer]; preserving ltac:(auto).
Qed.

Lemma handleIncomingData_preserves (data : list byte) :
  preserves f (handleIncomingData data).
Proof.
  pose proof process_buffer_preserves.
  unfold handleIncomingData. preserving ltac:(auto).
Qed.

End Handlers_preserve.

(** ** The decoder *)

Lemma of_ascii_bytes_magic (c0 c1 : byte) (rest : list byte) :
  Str.of_ascii_bytes (c0 :: c1 :: rest) 0 2
  = [Z.land (Buf.byte_val c0) 127; Z.land (Buf.byte_val c1) 127].
Proof.
  unfold Str.of_ascii_bytes. pose proof (len_nonneg rest).
  rewrite !len_cons. rewrite Z.min_l by lia. reflexivity.
Qed.

(** [parsePacket] on a frame, whatever follows it: the header is accepted
    and the payload is cut out; what is left are the two reads of the
    address pair, which need 6 bytes of payload. *)
Lemma parsePacket_frame (payload trailing : list byte) :
  Buf.len payload < 65536 →
  parsePacket (spec_frame payload ++ trailing)
  = (a ← Buf.readUInt16LE payload 2;
     b ← Buf.readUInt16LE payload 4;
     mret {| type := Str.of_ascii_bytes payload 0 2;
             addressPair := {| a := a; b := b |};
             data := Buf.slice_from payload 6 |}).
Proof.
  intros Hlen. unfold parsePacket.
  pose proof (len_nonneg payload) as Hpos. pose proof (len_nonneg trailing) as Htrail.
  pose proof (spec_frame_size payload trailing Hlen) as Hsize.
  unfold spec_frame in *. cbn [app] in *.
  rewrite len_header_ge, slice_header.
  change (Str.eqb (Str.of_ascii_bytes _ 0 2) (Str.js "UC")) with true.
  cbn [negb].
  rewrite readUInt16LE_header_2.
  change (Buf.byte_val x01 + 256 * Buf.byte_val x00) with 1.
  cbn [mbind result_bind Z.eqb Pos.eqb negb].
  rewrite readUInt16LE_header_4 in *.
  injection Hsize as ->.
  cbn [mbind result_bind].
  rewrite !len_cons, len_app.
  destruct (Z.ltb_spec (1 + (1 + (1 + (1 + (1 + (1 + (Buf.len payload + Buf.len trailing)))))))
              (6 + Buf.len payload)); [lia|].
  match goal with
  | |- context [x55 :: x43 :: x01 :: x00 :: ?s0 :: ?s1 :: payload ++ trailing] =>
    set (hdr := [x55; x43; x01; x00; s0; s1]);
    change (x55 :: x43 :: x01 :: x00 :: s0 :: s1 :: payload ++ trailing)
      with (hdr ++ payload ++ trailing)
  end.
  assert (Buf.slice (hdr ++ payload ++ trailing) 6 (6 + Buf.len payload) = payload) as ->.
  { rewrite slice_inside by (rewrite ?len_app; change (Buf.len hdr) with 6; lia).
    change (Z.to_nat 6) with (length hdr). rewrite drop_app_length.
    replace (Z.to_nat (6 + Buf.len payload - 6)) with (length payload)
      by (unfold Buf.len; lia).
    apply take_app_length. }
  reflexivity.
Qed.

Lemma parsePacket_frame_whole (payload trailing : list byte) :
  6 ≤ Buf.len payload < 65536 →
  parsePacket (spec_frame payload ++ trailing) = Ok (message payload).
Proof.
  intros Hlen. rewrite parsePacket_frame by lia.
  rewrite (readUInt16LE_inside _ 2), (readUInt16LE_inside _ 4) by lia.
  cbn [mbind result_bind mret result_ret].
  rewrite slice_from_inside by lia. reflexivity.
Qed.

Lemma parsePacket_frame_short (payload trailing : list byte) :
  Buf.len payload < 6 →
  parsePacket (spec_frame payload ++ trailing) = Throw RangeError.
Proof.
  intros Hlen. rewrite parsePacket_frame by lia.
  unfold Buf.readUInt16LE. cbn [Z.ltb Z.compare orb].
  destruct (Z.ltb_spec (Buf.len payload) (2 + 2)) as [|H4]; [reflexivity|].
  cbn [mbind result_bind].
  destruct (Z.ltb_spec (Buf.len payload) (4 + 2)); [reflexivity | lia].
Qed.

Lemma byte_val_inj (x y : byte) : Buf.byte_val x = Buf.byte_val y → x = y.
Proof. intros Hxy. rewrite <- (byte_of_val x), <- (byte_of_val y), Hxy. reflexivity. Qed.

Lemma le16_bytes (s0 s1 : byte) :
  let size := Buf.byte_val s0 + 256 * Buf.byte_val s1 in
  Buf.byte_of size = s0 ∧ Buf.byte_of (size / 256) = s1.
Proof.
  intros size. subst size.
  pose proof (byte_val_range s0). pose proof (byte_val_range s1).
  split; apply byte_val_inj; rewrite byte_val_of.
  - rewrite Z.mul_comm, Z_mod_plus_full. apply Z.mod_small. lia.
  - rewrite Z.mul_comm, Z.div_add, Z.div_small by lia. apply Z.mod_small. lia.
Qed.

(** [parsePacket] compares the magic after clearing the high bit of the
    two bytes, as [toString('ascii')] does. *)
Lemma parsePacket_masked (m0 m1 : byte) (payload trailing : list byte) :
  Z.land (Buf.byte_val m0) 127 = 85 →
  Z.land (Buf.byte_val m1) 127 = 67 →
  6 ≤ Buf.len payload < 65536 →
  parsePacket (m0 :: m1 :: drop 2 (spec_frame payload ++ trailing)) = Ok (message payload).
Proof.
  intros Hm0 Hm1 Hlen. unfold parsePacket.
  pose proof (len_nonneg trailing) as Htrail.
  unfold spec_frame. cbn [app drop].
  rewrite len_header_ge, slice_header, of_ascii_bytes_magic, Hm0, Hm1.
  change (Str.eqb [85; 67] (Str.js "UC")) with true. cbn [negb].
  rewrite readUInt16LE_header_2.
  change (Buf.byte_val x01 + 256 * Buf.byte_val x00) with 1.
  cbn [mbind result_bind Z.eqb Pos.eqb negb].
  rewrite readUInt16LE_header_4, le16_value by lia.
  cbn [mbind result_bind].
  rewrite !len_cons, len_app.
  destruct (Z.ltb_spec (1 + (1 + (1 + (1 + (1 + (1 + (Buf.len payload + Buf.len trailing)))))))
              (6 + Buf.len payload)); [lia|].
  match goal with
  | |- context [m0 :: m1 :: x01 :: x00 :: ?s0 :: ?s1 :: payload ++ trailing] =>
    set (hdr := [m0; m1; x01; x00; s0; s1]);
    change (m0 :: m1 :: x01 :: x00 :: s0 :: s1 :: payload ++ trailing)
      with (hdr ++ payload ++ trailing)
  end.
  assert (Buf.slice (hdr ++ payload ++ trailing) 6 (6 + Buf.len payload) = payload) as ->.
  { rewrite slice_inside by (rewrite ?len_app; change (Buf.len hdr) with 6; lia).
    change (Z.to_nat 6) with (length hdr). rewrite drop_app_length.
    replace (Z.to_nat (6 + Buf.len payload - 6)) with (length payload)
      by (unfold Buf.len; lia).
    apply take_app_length. }
  rewrite (readUInt16LE_inside _ 2), (readUInt16LE_inside _ 4) by lia.
  cbn [mbind result_bind mret result_ret].
  rewrite slice_from_inside by lia. reflexivity.
Qed.

Lemma parsePacket_cut (payload data tail : list byte) :
  Buf.len payload < 65536 →
  6 ≤ Buf.len data →
  tail ≠ [] →
  data ++ tail = spec_frame payload →
  parsePacket data = Throw (Error "Incomplete packet").
Proof.
  intros Hsize Hlen Htail Hframe.
  assert (Buf.len data < 6 + Buf.len payload) as Hcut.
  { apply (f_equal Buf.len) in Hframe. rewrite len_app, len_spec_frame in Hframe.
    destruct tail; [contradiction|]. rewrite len_cons in Hframe.
    pose proof (len_nonneg tail). lia. }
  pose proof (spec_frame_size payload [] Hsize) as Hfield.
  rewrite app_nil_r, <- Hframe in Hfield.
  unfold spec_frame in Hframe.
  destruct data as [|h0 [|h1 [|h2 [|h3 [|h4 [|h5 rest]]]]]];
    try (exfalso; revert Hlen; rewrite ?len_cons, ?len_nil; lia).
  cbn [app] in Hframe, Hfield.
  injection Hframe as -> -> -> -> -> -> Hrest.
  rewrite readUInt16LE_header_4 in Hfield. injection Hfield as Hfield.
  unfold parsePacket.
  rewrite len_header_ge, slice_header.
  change (Str.eqb (Str.of_ascii_bytes _ 0 2) (Str.js "UC")) with true. cbn [negb].
  rewrite readUInt16LE_header_2.
  change (Buf.byte_val x01 + 256 * Buf.byte_val x00) with 1.
  cbn [mbind result_bind Z.eqb Pos.eqb negb].
  rewrite readUInt16LE_header_4. cbn [mbind result_bind]. rewrite Hfield.
  match goal with
  | |- context [Buf.len ?buf <? 6 + Buf.len payload] =>
    destruct (Z.ltb_spec (Buf.len buf) (6 + Buf.len payload)); [|lia]
  end.
  reflexivity.
Qed.

(** X1. What [parsePacket] accepts. It returns a packet exactly for the bytes
    that are a frame, followed by anything: two bytes that are 'U' and 'C'
    once their high bit is cleared, the version 1, the length of the payload
    and a payload of 6 bytes or more. The packet is then the message of the
    payload; the bytes that follow the frame play no part. *)
Theorem X1_parsePacket_accepts_the_frames (data : list byte) (packet : Packet) :
  parsePacket data = Ok packet
  ↔ ∃ (m0 m1 : byte) (payload trailing : list byte),
      data = m0 :: m1 :: drop 2 (spec_frame payload ++ trailing)
      ∧ Z.land (Buf.byte_val m0) 127 = 85
      ∧ Z.land (Buf.byte_val m1) 127 = 67
      ∧ 6 ≤ Buf.len payload < 65536
      ∧ packet = message payload.
Proof.
  split.
  2:{ intros (m0 & m1 & payload & trailing & -> & Hm0 & Hm1 & Hlen & ->).
      apply parsePacket_masked; assumption. }
  unfold parsePacket.
  destruct (Z.ltb_spec (Buf.len data) 6) as [|Hlen]; [discriminate|].
  destruct data as [|h0 [|h1 [|h2 [|h3 [|h4 [|h5 rest]]]]]];
    try (exfalso; revert Hlen; rewrite ?len_cons, ?len_nil; lia).
  rewrite slice_header, of_ascii_bytes_magic.
  unfold Str.eqb. case_bool_decide as Hmagic; [|discriminate]. cbn [negb].
  change (Str.js "UC") with [85; 67] in Hmagic. injection Hmagic as Hm0 Hm1.
  rewrite readUInt16LE_header_2. cbn [mbind result_bind].
  destruct (Z.eqb_spec (Buf.byte_val h2 + 256 * Buf.byte_val h3) 1) as [Hversion|];
    [|discriminate].
  cbn [negb]. rewrite readUInt16LE_header_4. cbn [mbind result_bind].
  pose proof (le16_bytes h4 h5) as [Hs0 Hs1].
  pose proof (byte_val_range h2). pose proof (byte_val_range h3).
  pose proof (byte_val_range h4). pose proof (byte_val_range h5).
  pose proof (len_nonneg rest) as Hrest.
  remember (Buf.byte_val h4 + 256 * Buf.byte_val h5) as size eqn:Esize.
  destruct (Z.ltb_spec (Buf.len (h0 :: h1 :: h2 :: h3 :: h4 :: h5 :: rest)) (6 + size))
    as [|Hfits]; [discriminate|].
  rewrite !len_cons in Hfits.
  assert (Buf.slice (h0 :: h1 :: h2 :: h3 :: h4 :: h5 :: rest) 6 (6 + size)
          = take (Z.to_nat size) rest) as ->.
  { rewrite slice_inside by (rewrite ?len_cons; lia).
    replace (Z.to_nat (6 + size - 6)) with (Z.to_nat size) by lia. reflexivity. }
  set (payload := take (Z.to_nat size) rest).
  assert (Buf.len payload = size) as Hpayload.
  { unfold Buf.len, payload in *. rewrite length_take. lia. }
  unfold Buf.readUInt16LE. rewrite Hpayload. cbn [Z.ltb Z.compare orb].
  destruct (Z.ltb_spec size (2 + 2)); [discriminate|]. cbn [mbind result_bind].
  destruct (Z.ltb_spec size (4 + 2)); [discriminate|]. cbn [mbind result_bind mret result_ret].
  intros [= <-]. exists h0, h1, payload, (drop (Z.to_nat size) rest).
  assert (h2 = x01 ∧ h3 = x00) as [-> ->].
  { split; apply byte_val_inj; [change (Buf.byte_val x01) with 1
                               | change (Buf.byte_val x00) with 0]; lia. }
  repeat apply conj; try assumption; try lia.
  - unfold spec_frame. cbn [app drop]. rewrite Hpayload, Hs0, Hs1.
    unfold payload. rewrite take_drop. reflexivity.
  - unfold message. rewrite slice_from_inside by lia. reflexivity.
Qed.

(** X2. The errors of [parsePacket]. Fewer than 6 bytes: 'Packet too small to
    be valid'. Another magic or another version than 1: 'Invalid header'. A
    frame of which bytes are missing at the end: 'Incomplete packet'. A whole
    frame whose payload has fewer than 6 bytes: a [RangeError], thrown by the
    reads of the address pair. *)
Theorem X2_parsePacket_errors :
  (∀ data : list byte,
     Buf.len data < 6 → parsePacket data = Throw (Error "Packet too small to be valid"))
  ∧ (∀ data : list byte,
       6 ≤ Buf.len data →
       Str.of_ascii_bytes data 0 2 ≠ Str.js "UC" ∨ Buf.readUInt16LE data 2 ≠ Ok 1 →
       parsePacket data = Throw (Error "Invalid header"))
  ∧ (∀ payload data tail : list byte,
       Buf.len payload < 65536 →
       6 ≤ Buf.len data →
       tail ≠ [] →
       data ++ tail = spec_frame payload →
       parsePacket data = Throw (Error "Incomplete packet"))
  ∧ (∀ payload trailing : list byte,
       Buf.len payload < 6 →
       parsePacket (spec_frame payload ++ trailing) = Throw RangeError).
Proof.
  repeat apply conj.
  - intros data Hshort. unfold parsePacket.
    destruct (Z.ltb_spec (Buf.len data) 6); [reflexivity | lia].
  - intros data Hlen Hbad. unfold parsePacket.
    destruct (Z.ltb_spec (Buf.len data) 6); [lia|].
    destruct data as [|h0 [|h1 [|h2 [|h3 [|h4 [|h5 rest]]]]]];
      try (exfalso; revert Hlen; rewrite ?len_cons, ?len_nil; lia).
    rewrite slice_header, of_ascii_bytes_magic.
    rewrite of_ascii_bytes_magic, readUInt16LE_header_2 in Hbad.
    unfold Str.eqb. case_bool_decide as Hmagic; [|reflexivity]. cbn [negb].
    rewrite readUInt16LE_header_2. cbn [mbind result_bind].
    destruct (Z.eqb_spec (Buf.byte_val h2 + 256 * Buf.byte_val h3) 1) as [Hversion|];
      [|reflexivity].
    exfalso. destruct Hbad as [Hbad|Hbad]; [contradiction|]. apply Hbad. congruence.
  - apply parsePacket_cut.
  - apply parsePacket_frame_short.
Qed.


(** ** Builders *)

Lemma with_version_1_framed (payload : list byte) :
  with_version_1
    (header_bytes ++ [Buf.byte_of (Buf.len payload); Buf.byte_of (Buf.len payload / 256)]
     ++ payload)
  = spec_frame payload.
Proof. reflexivity. Qed.

Lemma writeUInt16LE_inside (value : Z) :
  0 ≤ value ≤ 65535 →
  Buf.writeUInt16LE value = Ok [Buf.byte_of value; Buf.byte_of (value / 256)].
Proof.
  intros Hvalue. unfold Buf.writeUInt16LE.
  destruct (Z.ltb_spec value 0); [lia|]. destruct (Z.ltb_spec 65535 value); [lia|].
  reflexivity.
Qed.

Lemma writeUInt16LE_outside (value : Z) :
  value < 0 ∨ 65535 < value → Buf.writeUInt16LE value = Throw RangeError.
Proof.
  intros Hvalue. unfold Buf.writeUInt16LE.
  destruct (Z.ltb_spec value 0); [reflexivity|].
  destruct (Z.ltb_spec 65535 value); [reflexivity | lia].
Qed.

Lemma buildUMPacket_returns (udpPort : Z) :
  0 ≤ udpPort ≤ 65535 →
  buildUMPacket udpPort
  = Ok (header_bytes ++ [x08; x00]
        ++ Str.to_ascii_bytes (Str.js "UM") ++ [x00; x00; x66; x00]
        ++ [Buf.byte_of udpPort; Buf.byte_of (udpPort / 256)]).
Proof.
  intros Hport. unfold buildUMPacket.
  change (Buf.writeUInt16LE 0) with (Ok [x00; x00]).
  change (Buf.writeUInt16LE 102) with (Ok [x66; x00]).
  cbn [mbind result_bind]. rewrite (writeUInt16LE_inside udpPort) by exact Hport.
  reflexivity.
Qed.

(** X3. Builders and parser agree on everything but the version. With bytes 2
    and 3 of the frame replaced by [01 00], [parsePacket] returns what
    [buildUMPacket], [buildPVPacket], [buildKAPacket] and [buildJMPacket]
    encoded: the type, the address pair, and as the body the port, the name
    with its padding and the float, nothing, and the length and the text of
    the subscription. *)
Theorem X3_frames_round_trip_up_to_the_version :
  (∀ udpPort : Z,
     0 ≤ udpPort ≤ 65535 →
     ∃ frame packet,
       buildUMPacket udpPort = Ok frame
       ∧ parsePacket (with_version_1 frame) = Ok packet
       ∧ type packet = Str.js "UM"
       ∧ addressPair packet = {| a := 0; b := 0x66 |}
       ∧ Buf.len (data packet) = 2
       ∧ Buf.readUInt16LE (data packet) 0 = Ok udpPort)
  ∧ (∀ (name : list Z) (value : spec_float),
       Buf.len (Str.to_utf8 name) ≤ 65522 →
       ∃ frame,
         buildPVPacket name value = Ok frame
         ∧ parsePacket (with_version_1 frame) = Ok (pv_packet name value))
  ∧ (∃ frame,
       buildKAPacket = Ok frame
       ∧ parsePacket (with_version_1 frame)
         = Ok {| type := Str.js "KA"; addressPair := {| a := 0x68; b := 0x66 |}; data := [] |})
  ∧ (∃ frame text,
       buildJMPacket = Ok frame
       ∧ text = Str.to_utf8 (stringify_object subMsg)
       ∧ parsePacket (with_version_1 frame)
         = Ok {| type := Str.js "JM"; addressPair := {| a := 0x68; b := 0x66 |};
                 data := [Buf.byte_of (Buf.len text); x00; x00; x00] ++ text |}).
Proof.
  repeat apply conj.
  - intros udpPort Hport. eexists. eexists.
    split; [apply buildUMPacket_returns; exact Hport|].
    set (payload := Str.to_ascii_bytes (Str.js "UM") ++ [x00; x00; x66; x00]
                    ++ [Buf.byte_of udpPort; Buf.byte_of (udpPort / 256)]).
    change (with_version_1 (header_bytes ++ [x08; x00] ++ payload)) with (spec_frame payload).
    split; [apply parsePacket_spec_frame; vm_compute; split; [discriminate | reflexivity]|].
    repeat split.
    change (Ok (Buf.byte_val (Buf.byte_of udpPort)
                + 256 * Buf.byte_val (Buf.byte_of (udpPort / 256))) = Ok udpPort).
    rewrite le16_value by lia. reflexivity.
  - intros name value Hlen. eexists.
    split; [apply buildPVPacket_returns; exact Hlen|].
    unfold pv_frame. rewrite with_version_1_framed.
    assert (Buf.len (pv_payload name value) = 13 + Buf.len (Str.to_utf8 name)) as Hp.
    { unfold pv_payload. rewrite !len_app.
      change (Buf.len (Str.to_ascii_bytes (Str.js "PV"))) with 2.
      change (Buf.len [x68; x00; x66; x00]) with 4.
      change (Buf.len [x00; x00; x00]) with 3.
      change (Buf.len (Float32.writeFloatLE value)) with 4. lia. }
    pose proof (len_nonneg (Str.to_utf8 name)).
    rewrite parsePacket_spec_frame by lia.
    change (pv_payload name value)
      with (x50 :: x56 :: x68 :: x00 :: x66 :: x00
            :: Str.to_utf8 name ++ [x00; x00; x00] ++ Float32.writeFloatLE value).
    unfold message. rewrite of_ascii_bytes_magic. reflexivity.
  - eexists. split; vm_compute; reflexivity.
  - eexists. eexists. split; [vm_compute; reflexivity|]. split; [reflexivity|].
    vm_compute. reflexivity.
Qed.

(** X4. The limits of the builders. [buildUMPacket] throws a [RangeError] for
    a port that does not fit 16 bits, and [buildPVPacket] for a name of more
    than 65522 bytes in UTF-8, which is when the payload no longer fits the
    length field; below that [buildPVPacket] returns a frame of 19 bytes
    more than the name, whose length field holds the length of what follows
    it. *)
Theorem X4_builders_limits :
  (∀ udpPort : Z,
     udpPort < 0 ∨ 65535 < udpPort → buildUMPacket udpPort = Throw RangeError)
  ∧ (∀ (name : list Z) (value : spec_float),
       65522 < Buf.len (Str.to_utf8 name) → buildPVPacket name value = Throw RangeError)
  ∧ (∀ (name : list Z) (value : spec_float),
       Buf.len (Str.to_utf8 name) ≤ 65522 →
       ∃ frame,
         buildPVPacket name value = Ok frame
         ∧ Buf.len frame = 19 + Buf.len (Str.to_utf8 name)
         ∧ Buf.readUInt16LE frame 4 = Ok (Buf.len frame - 6)).
Proof.
  assert (∀ name value,
            Buf.len (pv_payload name value) = 13 + Buf.len (Str.to_utf8 name)) as Hp.
  { intros name value. unfold pv_payload. rewrite !len_app.
    change (Buf.len (Str.to_ascii_bytes (Str.js "PV"))) with 2.
    change (Buf.len [x68; x00; x66; x00]) with 4.
    change (Buf.len [x00; x00; x00]) with 3.
    change (Buf.len (Float32.writeFloatLE value)) with 4. lia. }
  repeat apply conj.
  - intros udpPort Hport. unfold buildUMPacket.
    change (Buf.writeUInt16LE 0) with (Ok [x00; x00]).
    change (Buf.writeUInt16LE 102) with (Ok [x66; x00]).
    cbn [mbind result_bind]. rewrite (writeUInt16LE_outside udpPort) by exact Hport.
    reflexivity.
  - intros name value Hlong. unfold buildPVPacket.
    change (Buf.writeUInt16LE 104) with (Ok [x68; x00]).
    change (Buf.writeUInt16LE 102) with (Ok [x66; x00]).
    cbn [mbind result_bind].
    change ([x68; x00] ++ [x66; x00]) with [x68; x00; x66; x00].
    fold (pv_payload name value). unfold Buf.writeUInt16LE.
    specialize (Hp name value).
    destruct (Z.ltb_spec (Buf.len (pv_payload name value)) 0); [reflexivity|].
    destruct (Z.ltb_spec 65535 (Buf.len (pv_payload name value))); [reflexivity | lia].
  - intros name value Hlen. exists (pv_frame name value).
    split; [apply buildPVPacket_returns; exact Hlen|].
    specialize (Hp name value). pose proof (len_nonneg (Str.to_utf8 name)).
    assert (Buf.len (pv_frame name value) = 19 + Buf.len (Str.to_utf8 name)) as Hframe.
    { unfold pv_frame. rewrite !len_app, Hp. change (Buf.len header_bytes) with 4.
      rewrite !len_cons, len_nil. lia. }
    split; [exact Hframe|]. rewrite Hframe.
    unfold pv_frame. change header_bytes with [x55; x43; x00; x01]. cbn [app].
    rewrite readUInt16LE_header_4, le16_value by lia. f_equal. lia.
Qed.

(** ** Datagrams *)

Section Datagrams.
Context `{Runtime}.

Lemma handleZMPacket_short (packet : Packet) (st : State) :
  Buf.len (data packet) < 4 → handleZMPacket packet st = (Throw RangeError, st).
Proof.
  intros Hshort. unfold handleZMPacket, Buf.readUInt32LE. cbn [Z.ltb Z.compare orb].
  change (0 + 4) with 4.
  destruct (Z.ltb_spec (Buf.len (data packet)) 4); [reflexivity | lia].
Qed.

Lemma handlePVPacket_short (packet : Packet) (st : State) :
  Buf.len (data packet) < 4 → handlePVPacket packet st = (Throw RangeError, st).
Proof.
  intros Hshort. unfold handlePVPacket, decode_pv, Float32.readFloatLE, Buf.readUInt32LE.
  destruct (Z.ltb_spec (Buf.len (data packet) - 4) 0); [reflexivity | lia].
Qed.

Lemma len_data_message (payload : list byte) :
  6 ≤ Buf.len payload → Buf.len (data (message payload)) = Buf.len payload - 6.
Proof.
  intros Hlen. cbn [data message]. unfold Buf.len in *. rewrite length_drop. lia.
Qed.

Lemma dispatch_malformed (payload : list byte) (st : State) :
  6 ≤ Buf.len payload → malformed payload →
  dispatch (message payload) st = (Throw RangeError, st).
Proof.
  intros Hlen [Hshort|[Hbody Htype]]; [lia|].
  pose proof (len_data_message payload Hlen) as Hdata.
  unfold dispatch, Str.eqb. case_bool_decide as Hzm.
  - apply handleZMPacket_short. lia.
  - destruct Htype as [Hzm'|Hpv]; [contradiction|].
    rewrite bool_decide_eq_true_2 by exact Hpv. apply handlePVPacket_short. lia.
Qed.

Lemma dispatch_well_formed (payload : list byte) (st : State) :
  well_formed payload →
  dispatch (message payload) st = (Ok tt, dispatched payload st).
Proof.
  intros Hwf. pose proof (parse_and_dispatch_well_formed payload st Hwf) as Hrun.
  destruct Hwf as [Hlen Hbody].
  unfold parse_and_dispatch, try_catch in Hrun.
  rewrite parsePacket_spec_frame in Hrun by exact Hlen.
  unfold mbind at 1, M_bind at 1, lift at 1 in Hrun.
  change (if Str.eqb (type (message payload)) (Str.js "ZM")
          then handleZMPacket (message payload)
          else if Str.eqb (type (message payload)) (Str.js "PV")
               then handlePVPacket (message payload) else mret tt)
    with (dispatch (message payload)) in Hrun.
  unfold mbind, M_bind in Hrun.
  destruct (dispatch (message payload) st) as [[[]|e] st'].
  - injection Hrun as <-. reflexivity.
  - exfalso. revert Hrun. run_M. discriminate.
Qed.

(** The listener on a datagram that starts with a frame. *)
Lemma handleIncomingUDPData_frame (payload trailing : list byte) (st : State) :
  Buf.len payload < 65536 →
  handleIncomingUDPData (spec_frame payload ++ trailing) st
  = try_catch (packet ← lift (parsePacket (spec_frame payload ++ trailing)); dispatch packet)
      (fun error => log (ErrorParsingUDP error)) st.
Proof.
  intros Hlen. unfold handleIncomingUDPData.
  rewrite spec_frame_version.
  assert ((6 <=? Buf.len (spec_frame payload ++ trailing)) = true) as ->.
  { rewrite len_app, len_spec_frame.
    pose proof (len_nonneg payload). pose proof (len_nonneg trailing). lia. }
  assert (Str.eqb (Str.of_ascii_bytes (spec_frame payload ++ trailing) 0 2) (Str.js "UC")
          = true) as ->.
  { unfold spec_frame. cbn [app]. rewrite of_ascii_bytes_magic. reflexivity. }
  reflexivity.
Qed.

Lemma handleIncomingUDPData_well_formed (payload trailing : list byte) (st : State) :
  well_formed payload →
  handleIncomingUDPData (spec_frame payload ++ trailing) st = (Ok tt, dispatched payload st).
Proof.
  intros Hwf. pose proof Hwf as [Hlen _].
  rewrite handleIncomingUDPData_frame by lia. unfold try_catch.
  rewrite parsePacket_frame_whole by exact Hlen.
  unfold mbind, M_bind, lift. rewrite dispatch_well_formed by exact Hwf. reflexivity.
Qed.

Lemma dispatched_keeps_buffer (payload : list byte) (st : State) :
  well_formed payload →
  set_receiveBuffer (receiveBuffer st) (dispatched payload st) = dispatched payload st.
Proof.
  intros Hwf. rewrite <- dispatched_set_receiveBuffer by exact Hwf.
  rewrite set_receiveBuffer_same. reflexivity.
Qed.

(** X5. A datagram never makes the listener throw, whatever its bytes, and it
    never changes the receive buffer of the TCP connection or what was
    written to the socket: it cannot disturb a TCP frame that is being
    reassembled. *)
Theorem X5_datagram_listener_is_contained (data : list byte) (st : State) :
  (handleIncomingUDPData data st).1 = Ok tt
  ∧ receiveBuffer (handleIncomingUDPData data st).2 = receiveBuffer st
  ∧ tcpWritten (handleIncomingUDPData data st).2 = tcpWritten st
  ∧ tcpWritable (handleIncomingUDPData data st).2 = tcpWritable st.
Proof.
  split.
  { unfold handleIncomingUDPData, try_catch.
    match goal with
    | |- (match ?body st with _ => _ end).1 = _ => destruct (body st) as [[[]|e] st']
    end; reflexivity. }
  repeat apply conj.
  - apply (handleIncomingUDPData_preserves receiveBuffer); reflexivity.
  - apply (handleIncomingUDPData_preserves tcpWritten); reflexivity.
  - apply (handleIncomingUDPData_preserves tcpWritable); reflexivity.
Qed.

(** X6. A well-formed frame has the same effect on the instance whether it
    arrives in a datagram, with whatever bytes behind it, or on its own over
    the TCP connection. *)
Theorem X6_datagram_same_as_stream (payload trailing : list byte) (st : State) :
  well_formed payload →
  receiveBuffer st = [] →
  (handleIncomingUDPData (spec_frame payload ++ trailing) st).2
  = (handleIncomingData (spec_frame payload) st).2.
Proof.
  intros Hwf Hbuf.
  rewrite handleIncomingUDPData_well_formed by exact Hwf.
  rewrite (handleIncomingData_aligned [payload] [] (spec_frame payload) st).
  - cbn [snd fold_left]. rewrite <- Hbuf. symmetry. apply dispatched_keeps_buffer. exact Hwf.
  - constructor; [exact Hwf | constructor].
  - left. reflexivity.
  - rewrite Hbuf. cbn [map concat app]. rewrite !app_nil_r. reflexivity.
Qed.

(** X7. What the listener does with a datagram that does not hold a whole
    well-formed frame. Fewer than 6 bytes, another magic or another version
    than 1: nothing, and nothing is logged. A frame cut short: 'Incomplete
    packet' is logged. A frame with a malformed payload: a [RangeError] is
    logged. The state is otherwise unchanged in all three cases. *)
Theorem X7_datagram_without_a_frame (st : State) :
  (∀ data : list byte,
     Buf.len data < 6
     ∨ Str.of_ascii_bytes data 0 2 ≠ Str.js "UC"
     ∨ Buf.readUInt16LE data 2 ≠ Ok 1 →
     handleIncomingUDPData data st = (Ok tt, st))
  ∧ (∀ payload data tail : list byte,
       Buf.len payload < 65536 →
       6 ≤ Buf.len data →
       tail ≠ [] →
       data ++ tail = spec_frame payload →
       handleIncomingUDPData data st
       = (Ok tt, add_logged (ErrorParsingUDP (Error "Incomplete packet")) st))
  ∧ (∀ payload trailing : list byte,
       Buf.len payload < 65536 →
       malformed payload →
       handleIncomingUDPData (spec_frame payload ++ trailing) st
       = (Ok tt, add_logged (ErrorParsingUDP RangeError) st)).
Proof.
  repeat apply conj.
  - intros data Hbad. unfold handleIncomingUDPData, try_catch.
    destruct (Z.leb_spec 6 (Buf.len data)) as [Hlen|Hlen]; [|reflexivity].
    cbn [andb]. unfold Str.eqb. case_bool_decide as Hmagic; [|reflexivity].
    unfold mbind at 1, M_bind at 1, lift at 1.
    destruct (Buf.readUInt16LE data 2) as [version|e] eqn:Hversion.
    + destruct (Z.eqb_spec version 1) as [->|]; [|reflexivity].
      destruct Hbad as [|[|]]; [lia | contradiction | contradiction].
    + exfalso. revert Hversion. rewrite readUInt16LE_inside by lia. discriminate.
  - intros payload data tail Hsize Hlen Htail Hframe.
    pose proof (parsePacket_cut payload data tail Hsize Hlen Htail Hframe) as Hparse.
    pose proof (spec_frame_version payload []) as Hversion.
    rewrite app_nil_r, <- Hframe in Hversion.
    unfold spec_frame in Hframe.
    destruct data as [|h0 [|h1 [|h2 [|h3 [|h4 [|h5 rest]]]]]];
      try (exfalso; revert Hlen; rewrite ?len_cons, ?len_nil; lia).
    cbn [app] in Hframe, Hversion.
    unfold handleIncomingUDPData, try_catch.
    rewrite (proj2 (Z.leb_le _ _) Hlen), of_ascii_bytes_magic.
    injection Hframe as -> -> _ _ _ _ _.
    change (Str.eqb _ (Str.js "UC")) with true. cbn [andb].
    rewrite readUInt16LE_header_2 in *. injection Hversion as ->.
    unfold mbind at 1, M_bind at 1, lift at 1. cbn [Z.eqb Pos.eqb].
    unfold mbind, M_bind, lift. rewrite Hparse. reflexivity.
  - intros payload trailing Hsize Hbad.
    rewrite handleIncomingUDPData_frame by exact Hsize. unfold try_catch.
    destruct (Z.lt_ge_cases (Buf.len payload) 6) as [Hshort|Hlen].
    + rewrite parsePacket_frame_short by exact Hshort. reflexivity.
    + rewrite parsePacket_frame_whole by lia.
      unfold mbind, M_bind, lift. rewrite dispatch_malformed by assumption. reflexivity.
Qed.

End Datagrams.

(** ** The loop of the reassembler *)

Lemma indexOf_from_found (needle buf : list byte) (i : Z) :
  Buf.indexOf_from needle buf i ≠ -1 →
  Buf.starts_with needle (drop (Z.to_nat (Buf.indexOf_from needle buf i - i)) buf) = true.
Proof.
  revert i. induction buf as [|x buf IH]; intros i Hfound; cbn [Buf.indexOf_from] in *.
  - contradiction.
  - destruct (Buf.starts_with needle (x :: buf)) eqn:Hhere.
    + rewrite Z.sub_diag. exact Hhere.
    + specialize (IH (i + 1) Hfound).
      destruct (indexOf_from_range needle buf (i + 1)) as [|Hrange]; [contradiction|].
      replace (Z.to_nat (Buf.indexOf_from needle buf (i + 1) - i))
        with (S (Z.to_nat (Buf.indexOf_from needle buf (i + 1) - (i + 1)))) by lia.
      exact IH.
Qed.

Lemma indexOf_from_app_magic (garbage rest : list byte) (i : Z) :
  Buf.indexOf_from [x55; x43] garbage i = -1 →
  0 ≤ i →
  Buf.indexOf_from [x55; x43] (garbage ++ x55 :: x43 :: rest) i = i + Buf.len garbage.
Proof.
  revert i. induction garbage as [|c garbage IH]; intros i Hnone Hi.
  - change (Buf.indexOf_from [x55; x43] ([] ++ x55 :: x43 :: rest) i) with i.
    rewrite len_nil. lia.
  - cbn [Buf.indexOf_from] in Hnone.
    destruct (Buf.starts_with [x55; x43] (c :: garbage)) eqn:Hhere; [lia|].
    cbn [app Buf.indexOf_from].
    assert (Buf.starts_with [x55; x43] (c :: garbage ++ x55 :: x43 :: rest) = false) as ->.
    { destruct garbage as [|d garbage]; cbn [app Buf.starts_with] in *.
      - change (Byte.eqb x43 x55) with false. rewrite andb_false_r. reflexivity.
      - exact Hhere. }
    rewrite IH by (exact Hnone || lia). rewrite len_cons. lia.
Qed.

Section Loop.
Context `{Runtime}.

(** The fuel of the loop does not matter once there is as much of it as
    the buffer has bytes. *)
Lemma process_buffer_fuel (fuel fuel' : nat) (st : State) :
  (length (receiveBuffer st) ≤ fuel)%nat →
  (length (receiveBuffer st) ≤ fuel')%nat →
  process_buffer fuel st = process_buffer fuel' st.
Proof.
  revert fuel' st. induction fuel as [|fuel IH]; intros fuel' st Hfuel Hfuel'.
  - destruct fuel' as [|fuel']; cbn [process_buffer]; run_M; [reflexivity|].
    destruct (Z.ltb_spec (Buf.len (receiveBuffer st)) 6) as [|Hge]; [reflexivity|].
    unfold Buf.len in Hge. lia.
  - destruct fuel' as [|fuel']; cbn [process_buffer]; run_M;
      destruct (Z.ltb_spec (Buf.len (receiveBuffer st)) 6) as [|Hge]; try reflexivity.
    + unfold Buf.len in Hge. lia.
    + destruct (loop_body_shrinks st) as (iteration & st1 & -> & Hshrink).
      destruct iteration as [|decoded]; [reflexivity|].
      rewrite (IH fuel' st1); [reflexivity | |]; unfold Buf.len in Hshrink; lia.
Qed.

Lemma read_frame_break (st st' : State) :
  read_frame st = (Ok Break, st') →
  Buf.starts_with (Str.to_ascii_bytes (Str.js "UC")) (receiveBuffer st) = true →
  incomplete (receiveBuffer st').
Proof.
  unfold read_frame. run_M. intros Hrun Hmagic.
  destruct (Z.ltb_spec (Buf.len (receiveBuffer st)) 6) as [Hlt|Hge].
  { injection Hrun as <-. left. exact Hlt. }
  rewrite (readUInt16LE_inside _ 2) in Hrun by lia.
  destruct (Z.eqb_spec (Buf.at_ (receiveBuffer st) 2 + 256 * Buf.at_ (receiveBuffer st) (2 + 1)) 1)
    as [Hversion|]; cbn [negb] in Hrun; [|discriminate].
  rewrite (readUInt16LE_inside _ 4) in Hrun by lia.
  match type of Hrun with
  | context [Buf.len _ <? 6 + ?size] =>
    destruct (Z.ltb_spec (Buf.len (receiveBuffer st)) (6 + size)) as [Hcut|]
  end.
  - injection Hrun as <-. right. eexists. split; [exact Hmagic|].
    rewrite (readUInt16LE_inside _ 2), (readUInt16LE_inside _ 4) by lia.
    rewrite Hversion. split; [reflexivity|]. split; [reflexivity | exact Hcut].
  - destruct (parse_and_dispatch _ _) as [[decoded|e] st2]; discriminate.
Qed.

Lemma loop_body_break (st st' : State) :
  loop_body st = (Ok Break, st') → incomplete (receiveBuffer st').
Proof.
  unfold loop_body. run_M. unfold Buf.indexOf.
  pose proof (indexOf_from_found (Str.to_ascii_bytes (Str.js "UC")) (receiveBuffer st) 0) as Hfound.
  destruct (indexOf_from_range (Str.to_ascii_bytes (Str.js "UC")) (receiveBuffer st) 0)
    as [Hnone|Hrange].
  { rewrite Hnone. cbn [Z.eqb]. intros Hrun. injection Hrun as <-. left. reflexivity. }
  revert Hfound Hrange.
  generalize (Buf.indexOf_from (Str.to_ascii_bytes (Str.js "UC")) (receiveBuffer st) 0).
  intros headerIndex Hfound Hrange.
  destruct (Z.eqb_spec headerIndex (-1)); [lia|].
  rewrite Z.sub_0_r in Hfound. specialize (Hfound ltac:(lia)).
  destruct (Z.ltb_spec 0 headerIndex) as [Hpos|Hzero]; intros Hrun.
  - apply read_frame_break in Hrun; [exact Hrun|]. simpl_state.
    rewrite slice_from_inside by lia. exact Hfound.
  - apply read_frame_break in Hrun; [exact Hrun|].
    replace headerIndex with 0 in Hfound by lia. exact Hfound.
Qed.

Lemma process_buffer_leaves_incomplete (fuel : nat) (st st' : State)
    (decoded : list Packet) :
  process_buffer fuel st = (Ok (Some decoded), st') → incomplete (receiveBuffer st').
Proof.
  revert st decoded. induction fuel as [|fuel IH]; intros st decoded;
    cbn [process_buffer]; run_M;
    destruct (Z.ltb_spec (Buf.len (receiveBuffer st)) 6) as [Hlt|Hge];
    try (intros Hrun; injection Hrun as _ <-; left; exact Hlt).
  - discriminate.
  - destruct (loop_body st) as [[[|packet]|e] st1] eqn:Hbody.
    + intros Hrun. injection Hrun as _ <-. apply (loop_body_break st). exact Hbody.
    + destruct (process_buffer fuel st1) as [[[rest|]|e] st2] eqn:Hrest;
        cbn [fmap option_fmap option_map]; intros Hrun; try discriminate.
      injection Hrun as _ <-. apply (IH st1 rest). exact Hrest.
    + discriminate.
Qed.

(** X8. The receive buffer is bounded. Whatever arrives, and whatever the
    buffer held, when [handleIncomingData] returns the buffer holds fewer
    than 6 bytes, or the beginning of one frame with a valid header whose
    payload is not there in full: so never more than 65540 bytes. *)
Theorem X8_receive_buffer_is_bounded (data : list byte) (st : State) :
  incomplete (receiveBuffer (handleIncomingData data st).2)
  ∧ Buf.len (receiveBuffer (handleIncomingData data st).2) ≤ 65540.
Proof.
  assert (incomplete (receiveBuffer (handleIncomingData data st).2)) as Hleft.
  { destruct (handleIncomingData_total data st) as (decoded & st' & Hrun).
    rewrite Hrun. cbn [snd].
    unfold handleIncomingData in Hrun. revert Hrun. run_M.
    apply process_buffer_leaves_incomplete. }
  split; [exact Hleft|].
  destruct Hleft as [Hlt|(size & _ & _ & Hsize & Hcut)]; [lia|].
  apply readUInt16LE_range in Hsize. lia.
Qed.

(** X9. Nothing decodable is left behind. When [handleIncomingData] has
    returned, a second call with no new bytes decodes nothing and changes
    nothing: the loop stops only when the buffer holds no frame it could
    still take. *)
Theorem X9_nothing_is_left_to_decode (data : list byte) (st : State) :
  let after := (handleIncomingData data st).2 in
  handleIncomingData [] after = (Ok (Some []), after).
Proof.
  intros after.
  assert (incomplete (receiveBuffer after)) as Hleft.
  { destruct (handleIncomingData_total data st) as (decoded & st' & Hrun).
    subst after. rewrite Hrun. cbn [snd].
    unfold handleIncomingData in Hrun. revert Hrun. run_M.
    apply process_buffer_leaves_incomplete. }
  clearbody after. unfold handleIncomingData. run_M.
  rewrite app_nil_r, set_receiveBuffer_same.
  destruct (length (receiveBuffer after)) as [|fuel] eqn:Hfuel; cbn [process_buffer]; run_M;
    destruct (Z.ltb_spec (Buf.len (receiveBuffer after)) 6) as [|Hlen]; try reflexivity.
  { unfold Buf.len in Hlen. lia. }
  destruct Hleft as [|(size & Hmagic & Hversion & Hsize & Hcut)]; [lia|].
  unfold loop_body. run_M.
  assert (Buf.indexOf (receiveBuffer after) (Str.to_ascii_bytes (Str.js "UC")) = 0) as ->.
  { unfold Buf.indexOf. destruct (receiveBuffer after); [discriminate|].
    cbn [Buf.indexOf_from]. rewrite Hmagic. reflexivity. }
  cbn [Z.eqb Z.ltb Z.compare].
  unfold read_frame. run_M.
  destruct (Z.ltb_spec (Buf.len (receiveBuffer after)) 6); [lia|].
  rewrite Hversion, Hsize. cbn [Z.eqb Pos.eqb negb].
  destruct (Z.ltb_spec (Buf.len (receiveBuffer after)) (6 + size)); [reflexivity | lia].
Qed.

(** X10. Bytes without the magic in front of a magic cost a warning and nothing
    else: what follows them is handled as if it had come alone. *)
Theorem X10_garbage_in_front_is_skipped (garbage rest : list byte) (st : State) :
  receiveBuffer st = [] →
  garbage ≠ [] →
  Buf.indexOf garbage (Str.to_ascii_bytes (Str.js "UC")) = -1 →
  6 ≤ Buf.len (garbage ++ x55 :: x43 :: rest) →
  handleIncomingData (garbage ++ x55 :: x43 :: rest) st
  = handleIncomingData (x55 :: x43 :: rest) (add_logged (WarnDiscarding (Buf.len garbage)) st).
Proof.
  intros Hbuf Hgarbage Hnone Hlen.
  assert (0 < Buf.len garbage) as Hpos.
  { destruct garbage; [contradiction|]. rewrite len_cons.
    pose proof (len_nonneg garbage). lia. }
  set (warned := add_logged (WarnDiscarding (Buf.len garbage)) st).
  unfold handleIncomingData. run_M. subst warned. simpl_state. rewrite Hbuf. cbn [app].
  set (start := set_receiveBuffer (garbage ++ x55 :: x43 :: rest) st).
  set (found := set_receiveBuffer (x55 :: x43 :: rest)
                  (add_logged (WarnDiscarding (Buf.len garbage)) st)).
  assert (loop_body start = read_frame found) as Hfirst.
  { unfold loop_body. run_M. subst start. simpl_state.
    unfold Buf.indexOf in *. change (Str.to_ascii_bytes (Str.js "UC")) with [x55; x43] in *.
    rewrite indexOf_from_app_magic by (exact Hnone || lia). rewrite Z.add_0_l.
    destruct (Z.eqb_spec (Buf.len garbage) (-1)); [lia|].
    destruct (Z.ltb_spec 0 (Buf.len garbage)); [|lia].
    rewrite slice_from_suffix. reflexivity. }
  assert (loop_body found = read_frame found) as Hsecond.
  { unfold loop_body. run_M. subst found. simpl_state. reflexivity. }
  destruct (length (garbage ++ x55 :: x43 :: rest)) as [|fuel] eqn:Hfuel.
  { unfold Buf.len in Hlen. lia. }
  cbn [process_buffer]. run_M. subst start. simpl_state.
  destruct (Z.ltb_spec (Buf.len (garbage ++ x55 :: x43 :: rest)) 6); [lia|].
  fold (set_receiveBuffer (garbage ++ x55 :: x43 :: rest) st).
  rewrite Hfirst.
  destruct (length (x55 :: x43 :: rest)) as [|fuel'] eqn:Hfuel'; [discriminate|].
  cbn [process_buffer]. run_M. subst found. simpl_state.
  fold (set_receiveBuffer (x55 :: x43 :: rest)
          (add_logged (WarnDiscarding (Buf.len garbage)) st)).
  set (found := set_receiveBuffer (x55 :: x43 :: rest)
                  (add_logged (WarnDiscarding (Buf.len garbage)) st)) in *.
  destruct (Z.ltb_spec (Buf.len (x55 :: x43 :: rest)) 6) as [Hshort|Hlong].
  - unfold read_frame. run_M. subst found. simpl_state.
    destruct (Z.ltb_spec (Buf.len (x55 :: x43 :: rest)) 6); [reflexivity | lia].
  - rewrite Hsecond.
    pose proof (loop_body_shrinks found) as (iteration & st1 & Hbody & Hshrink).
    rewrite Hsecond in Hbody. rewrite Hbody.
    destruct iteration as [|decoded]; [reflexivity|].
    rewrite (process_buffer_fuel fuel fuel' st1); [reflexivity | |].
    + subst found. simpl_state. unfold Buf.len in Hshrink.
      rewrite length_app in Hfuel. lia.
    + subst found. simpl_state. unfold Buf.len in Hshrink. lia.
Qed.

(** X11. Input that holds no frame. Fewer than 6 bytes in all are kept and
    nothing else happens; so are the first bytes of a frame, up to its last
    byte but one, and nothing is logged. 6 bytes or more without the magic
    are all dropped, with a warning: also a last byte 'U', which may have been
    the first byte of the magic of the next frame. *)
Theorem X11_input_without_a_frame (data : list byte) (st : State) :
  (Buf.len (receiveBuffer st ++ data) < 6 ∨ waiting (receiveBuffer st ++ data) →
   handleIncomingData data st
   = (Ok (Some []), set_receiveBuffer (receiveBuffer st ++ data) st))
  ∧ (6 ≤ Buf.len (receiveBuffer st ++ data) →
     Buf.indexOf (receiveBuffer st ++ data) (Str.to_ascii_bytes (Str.js "UC")) = -1 →
     handleIncomingData data st
     = (Ok (Some []), set_receiveBuffer [] (add_logged WarnNoHeader st))).
Proof.
  split.
  - intros [Hshort|Hwait]; unfold handleIncomingData; run_M.
    + destruct (length (receiveBuffer st ++ data)); cbn [process_buffer]; run_M;
        destruct (Z.ltb_spec (Buf.len (receiveBuffer st ++ data)) 6); (reflexivity || lia).
    + apply process_buffer_waiting; [exact Hwait | reflexivity].
  - intros Hlen Hnone. unfold handleIncomingData. run_M.
    destruct (length (receiveBuffer st ++ data)) eqn:Hfuel.
    { unfold Buf.len in Hlen. lia. }
    cbn [process_buffer]. run_M.
    destruct (Z.ltb_spec (Buf.len (receiveBuffer st ++ data)) 6); [lia|].
    unfold loop_body. run_M. rewrite Hnone. reflexivity.
Qed.

(** X12. A frame with a valid header and a malformed payload is refused with a
    [RangeError], and the loop then drops 2 more bytes: those that follow the
    frame in the buffer, which are the magic of the next frame when there is
    one. *)
Theorem X12_malformed_frame_costs_two_more_bytes (payload rest : list byte) (st : State) :
  receiveBuffer st = spec_frame payload ++ rest →
  Buf.len payload < 65536 →
  malformed payload →
  loop_body st
  = (Ok (Continue None),
     set_receiveBuffer (Buf.slice_from rest 2) (add_logged (ErrorParsingTCP RangeError) st)).
Proof.
  intros Hbuf Hsize Hbad. unfold loop_body. run_M.
  assert (Buf.indexOf (receiveBuffer st) (Str.to_ascii_bytes (Str.js "UC")) = 0) as ->
    by (rewrite Hbuf; reflexivity).
  cbn [Z.eqb Z.ltb Z.compare].
  unfold read_frame. run_M. rewrite Hbuf.
  rewrite len_app, len_spec_frame.
  pose proof (len_nonneg rest). pose proof (len_nonneg payload).
  destruct (Z.ltb_spec (6 + Buf.len payload + Buf.len rest) 6); [lia|].
  rewrite spec_frame_version. cbn [Z.eqb Pos.eqb negb].
  rewrite spec_frame_size by lia.
  destruct (Z.ltb_spec (6 + Buf.len payload + Buf.len rest) (6 + Buf.len payload)); [lia|].
  rewrite <- len_spec_frame. rewrite slice_prefix, slice_from_suffix.
  unfold parse_and_dispatch, try_catch.
  pose proof (parsePacket_frame_short payload []) as Hshort.
  pose proof (parsePacket_frame_whole payload []) as Hwhole.
  rewrite app_nil_r in Hshort, Hwhole.
  destruct (Z.lt_ge_cases (Buf.len payload) 6) as [Hlt|Hge].
  - rewrite Hshort by exact Hlt. run_M. reflexivity.
  - rewrite Hwhole by lia.
    unfold mbind at 1, M_bind at 1, lift at 1.
    change (if Str.eqb (type (message payload)) (Str.js "ZM")
            then handleZMPacket (message payload)
            else if Str.eqb (type (message payload)) (Str.js "PV")
                 then handlePVPacket (message payload) else mret tt)
      with (dispatch (message payload)).
    unfold mbind at 1, M_bind at 1.
    rewrite dispatch_malformed by assumption. run_M. reflexivity.
Qed.

(** X13. What arrives never sends: [handleIncomingData] writes nothing to the
    socket and does not change whether it is writable. *)
Theorem X13_receiving_never_sends (data : list byte) (st : State) :
  tcpWritten (handleIncomingData data st).2 = tcpWritten st
  ∧ tcpWritable (handleIncomingData data st).2 = tcpWritable st.
Proof.
  split.
  - apply (handleIncomingData_preserves tcpWritten); reflexivity.
  - apply (handleIncomingData_preserves tcpWritable); reflexivity.
Qed.

End Loop.

(** ** What is known stays known *)

Section Keeps.
Context (R : State → State → Prop).
Hypothesis R_refl : ∀ st, R st st.
Hypothesis R_trans : ∀ st1 st2 st3, R st1 st2 → R st2 st3 → R st1 st3.

Lemma keeps_ret {A} (x : A) : keeps R (mret x).
Proof. intros st. apply R_refl. Qed.

Lemma keeps_lift {A} (r : result A) : keeps R (lift r).
Proof. intros st. apply R_refl. Qed.

Lemma keeps_throw {A} (e : exn) : keeps R (@throw A e).
Proof. intros st. apply R_refl. Qed.

Lemma keeps_get_state : keeps R get_state.
Proof. intros st. apply R_refl. Qed.

Lemma keeps_modify (g : State → State) : (∀ st, R st (g st)) → keeps R (modify g).
Proof. intros Hg st. apply Hg. Qed.

Lemma keeps_bind {A B} (m : M A) (k : A → M B) :
  keeps R m → (∀ x, keeps R (k x)) → keeps R (m ≫= k).
Proof.
  intros Hm Hk st. unfold mbind, M_bind. specialize (Hm st).
  destruct (m st) as [[x|e] st']; cbn [snd] in *; [|exact Hm].
  eapply R_trans; [exact Hm | apply Hk].
Qed.

Lemma keeps_try_catch {A} (body : M A) (handler : exn → M A) :
  keeps R body → (∀ e, keeps R (handler e)) → keeps R (try_catch body handler).
Proof.
  intros Hm Hk st. unfold try_catch. specialize (Hm st).
  destruct (body st) as [[x|e] st']; cbn [snd] in *; [exact Hm|].
  eapply R_trans; [exact Hm | apply Hk].
Qed.

Lemma keeps_for_each {A} (xs : list A) (body : A → M unit) :
  (∀ x, keeps R (body x)) → keeps R (for_each xs body).
Proof.
  intros Hb. induction xs as [|x xs IH]; cbn [for_each].
  - apply keeps_ret.
  - apply keeps_bind; [apply Hb | intros _; exact IH].
Qed.

Lemma keeps_if {A} (c : bool) (m1 m2 : M A) :
  keeps R m1 → keeps R m2 → keeps R (if c then m1 else m2).
Proof. destruct c; tauto. Qed.

End Keeps.

(** [keeping] takes a method apart, as [preserving] does; [refl] and
    [trans] are the proofs that the relation is a preorder. *)
Ltac keeping refl trans field :=
  repeat lazymatch goal with
  | |- keeps _ (mret _) => apply (keeps_ret _ refl)
  | |- keeps _ (lift _) => apply (keeps_lift _ refl)
  | |- keeps _ (throw _) => apply (keeps_throw _ refl)
  | |- keeps _ get_state => apply (keeps_get_state _ refl)
  | |- keeps _ (log _) => apply keeps_modify; intros; field
  | |- keeps _ (modify _) => apply keeps_modify; intros; field
  | |- keeps _ (_ ≫= _) => apply (keeps_bind _ trans); [|intros ?]
  | |- keeps _ (try_catch _ _) => apply (keeps_try_catch _ trans); [|intros ?]
  | |- keeps _ (for_each _ _) => apply (keeps_for_each _ refl trans); intros ?
  | |- keeps _ (if _ then _ else _) => apply keeps_if
  | |- keeps _ (match ?x with _ => _ end) => destruct x
  | |- keeps _ _ => solve [auto]
  end.

Lemma stays_known_refl (st : State) : stays_known st st.
Proof. intros n attr Hknown. exact Hknown. Qed.

Lemma stays_known_trans (st1 st2 st3 : State) :
  stays_known st1 st2 → stays_known st2 st3 → stays_known st1 st3.
Proof. intros H12 H23 n attr Hknown. apply H23, H12, Hknown. Qed.

Lemma stays_known_same_channels (st st' : State) :
  channelStates st' = channelStates st → stays_known st st'.
Proof. intros Hsame n attr. unfold known, channel. rewrite Hsame. tauto. Qed.

Lemma stays_known_insert (st : State) (n : N) (record : gmap string bool) :
  (∀ attr, known st n attr ≠ None → record !! attr ≠ None) →
  stays_known st (set_channelStates <[n := record]> st).
Proof.
  intros Hrecord m attr Hknown. rewrite known_insert.
  destruct (decide (n = m)) as [<-|]; [apply Hrecord|]; exact Hknown.
Qed.

Lemma stays_known_initialised (st : State) (n : N) :
  stays_known st
    (set_channelStates (fun cs => <[n := default ∅ (cs !! n)]> cs) st).
Proof.
  apply (stays_known_insert st n (default ∅ (channelStates st !! n))).
  intros attr. unfold known, channel. destruct (channelStates st !! n); tauto.
Qed.

Lemma stays_known_spread (st : State) (n : N) (attr : string) (v : bool) :
  stays_known st
    (set_channelStates (fun cs => <[n := spread_with (cs !! n) attr v]> cs) st).
Proof.
  apply (stays_known_insert st n (spread_with (channelStates st !! n) attr v)).
  intros attr'. unfold known, channel, spread_with.
  destruct (decide (attr = attr')) as [<-|Hne].
  - rewrite lookup_insert_eq. discriminate.
  - rewrite lookup_insert_ne by exact Hne.
    destruct (channelStates st !! n); [tauto|]. cbn [default]. tauto.
Qed.

Lemma keeps_known_assign_attr (n : N) (attr : string) (v : bool) :
  keeps stays_known (assign_attr n attr v).
Proof.
  intros st. unfold assign_attr. run_M.
  destruct (channel st n) as [record|] eqn:Hrecord; cbn [snd]; [|apply stays_known_refl].
  apply stays_known_insert. intros attr'. unfold known. rewrite Hrecord.
  destruct (decide (attr = attr')) as [<-|Hne].
  - rewrite lookup_insert_eq. discriminate.
  - rewrite lookup_insert_ne by exact Hne. tauto.
Qed.

Section Knowledge.
Context `{Runtime}.

Ltac known_kept :=
  keeping stays_known_refl stays_known_trans
    ltac:(first [ apply stays_known_initialised
                | apply stays_known_spread
                | apply stays_known_same_channels; reflexivity ]).

Lemma keeps_known_handleZMPacket (packet : Packet) :
  keeps stays_known (handleZMPacket packet).
Proof.
  pose proof keeps_known_assign_attr.
  unfold handleZMPacket, updateChannelStates, updateGlobalStates, update_channel, update_attr.
  known_kept.
Qed.

Lemma keeps_known_handlePVPacket (packet : Packet) :
  keeps stays_known (handlePVPacket packet).
Proof. unfold handlePVPacket, apply_pv. known_kept. Qed.

Lemma keeps_known_handleIncomingUDPData (data : list byte) :
  keeps stays_known (handleIncomingUDPData data).
Proof.
  pose proof keeps_known_handleZMPacket. pose proof keeps_known_handlePVPacket.
  unfold handleIncomingUDPData. known_kept.
Qed.

Lemma keeps_known_loop_body : keeps stays_known loop_body.
Proof.
  pose proof keeps_known_handleZMPacket. pose proof keeps_known_handlePVPacket.
  unfold loop_body, read_frame, parse_and_dispatch. known_kept.
Qed.

Lemma keeps_known_process_buffer (fuel : nat) : keeps stays_known (process_buffer fuel).
Proof.
  pose proof keeps_known_loop_body.
  induction fuel as [|fuel IH]; cbn [process_buffer]; known_kept.
Qed.

(** X14. What arrives never makes the instance forget: an attribute of a
    channel that is known before a chunk of the TCP stream or a datagram is
    handled is known after it, whatever the bytes. (Its value may have
    changed.) *)
Theorem X14_incoming_data_never_forgets (data : list byte) (st : State) (n : N) (attr : string) :
  known st n attr ≠ None →
  known (handleIncomingData data st).2 n attr ≠ None
  ∧ known (handleIncomingUDPData data st).2 n attr ≠ None.
Proof.
  intros Hknown. split.
  - assert (keeps stays_known (handleIncomingData data)) as Hkeeps.
    { pose proof keeps_known_process_buffer. unfold handleIncomingData. known_kept. }
    apply (Hkeeps st). exact Hknown.
  - apply (keeps_known_handleIncomingUDPData data st). exact Hknown.
Qed.

End Knowledge.

(** ** Parameter values, bit by bit *)

Lemma gt0_of_bits (w : Z) :
  0 ≤ w < 4294967296 →
  Float32.gt0 (Float32.of_bits w) = (0 <? w) && (w <=? 0x7F800000).
Proof.
  intros Hw. unfold Float32.of_bits.
  change (Z.land w 8388607) with (Z.land w (Z.ones 23)).
  change (Z.land (Z.shiftr w 23) 255) with (Z.land (Z.shiftr w 23) (Z.ones 8)).
  rewrite Z.testbit_odd, !Z.shiftr_div_pow2, !Z.land_ones by lia.
  change (2 ^ 23) with 8388608. change (2 ^ 8) with 256. change (2 ^ 31) with 2147483648.
  pose proof (Z.div_mod w 2147483648 ltac:(lia)) as Hq.
  pose proof (Z.mod_pos_bound w 2147483648 ltac:(lia)) as Hqr.
  pose proof (Z.div_mod w 8388608 ltac:(lia)) as He.
  pose proof (Z.mod_pos_bound w 8388608 ltac:(lia)) as Hm.
  pose proof (Z.div_mod (w / 8388608) 256 ltac:(lia)) as He'.
  pose proof (Z.mod_pos_bound (w / 8388608) 256 ltac:(lia)) as Her.
  assert (0 ≤ w / 2147483648 ≤ 1) as Hsign.
  { split; [apply Z.div_pos; lia|]. apply Z.lt_succ_r, Z.div_lt_upper_bound; lia. }
  assert (0 ≤ w / 8388608 < 512) as Hhigh.
  { split; [apply Z.div_pos; lia|]. apply Z.div_lt_upper_bound; lia. }
  assert (w / 8388608 = 256 * (w / 2147483648) + (w / 8388608) mod 256) as Hsplit by lia.
  remember ((w / 8388608) mod 256) as e eqn:Ee.
  remember (w mod 8388608) as m eqn:Em.
  remember (w / 2147483648) as q eqn:Eq.
  remember (w / 8388608) as high eqn:Ehigh.
  clear Ee Em Eq Ehigh.
  assert (Z.odd q = (q =? 1)) as ->.
  { destruct (Z.eqb_spec q 1) as [->|]; [reflexivity|].
    replace q with 0 by lia. reflexivity. }
  unfold Float32.gt0, Float32.zero, SFltb, SFcompare.
  destruct (Z.eqb_spec e 0);
    [ destruct m as [|p|p]
    | destruct (Z.eqb_spec e 255);
      [ destruct (Z.eqb_spec m 0) | destruct (m + 8388608) as [|p|p] eqn:Hp ] ];
    destruct (Z.eqb_spec q 1);
    destruct (Z.ltb_spec 0 w); destruct (Z.leb_spec w 2139095040);
    cbn [andb]; try reflexivity; exfalso; lia.
Qed.

Lemma strip_prefix_Some (p s rest : list Z) :
  Str.strip_prefix p s = Some rest → s = p ++ rest.
Proof.
  revert s. induction p as [|c p IH]; intros s; cbn [Str.strip_prefix app].
  - destruct s; intros [= <-]; reflexivity.
  - destruct s as [|d s]; [discriminate|].
    destruct (Z.eqb_spec c d) as [<-|]; [|discriminate].
    intros Hrest. rewrite (IH s Hrest). reflexivity.
Qed.

Lemma span_digits_spec (s digits rest : list Z) :
  Str.span_digits s = (digits, rest) →
  s = digits ++ rest ∧ Forall (fun c => Str.is_digit c = true) digits.
Proof.
  revert digits rest. induction s as [|c s IH]; intros digits rest; cbn [Str.span_digits].
  - intros [= <- <-]. split; [reflexivity | constructor].
  - destruct (Str.is_digit c) eqn:Hc.
    + destruct (Str.span_digits s) as [ds tl]. intros [= <- <-].
      destruct (IH ds tl eq_refl) as [-> Hds].
      split; [reflexivity | constructor; assumption].
    + intros [= <- <-]. split; [reflexivity | constructor].
Qed.

Lemma match_channel_path_Some (name digits : list Z) (attr : string) :
  match_channel_path name = Some (digits, attr) →
  name = Str.js "line/ch" ++ digits ++ Str.js "/" ++ Str.js attr
  ∧ digits ≠ []
  ∧ Forall (fun c => Str.is_digit c = true) digits
  ∧ In attr attributes.
Proof.
  unfold match_channel_path.
  destruct (Str.strip_prefix (Str.js "line/ch") name) as [rest|] eqn:Hprefix; [|discriminate].
  apply strip_prefix_Some in Hprefix.
  destruct (Str.span_digits rest) as [ds tl] eqn:Hspan.
  apply span_digits_spec in Hspan. destruct Hspan as [-> Hds].
  destruct ds as [|d ds]; [discriminate|].
  destruct tl as [|c tl]; [discriminate|].
  destruct (Z.eq_dec c 47) as [->|Hc].
  2:{ destruct c as [|c|c]; try discriminate.
      do 6 (destruct c as [c|c|]; try discriminate). contradiction. }
  destruct (find _ attributes) as [parameter|] eqn:Hfind; [|discriminate].
  intros [= <- <-]. apply find_some in Hfind. destruct Hfind as [Hin Heq].
  unfold Str.eqb in Heq. apply bool_decide_eq_true_1 in Heq. subst tl.
  repeat split; [exact Hprefix | discriminate | exact Hds | exact Hin].
Qed.

(** X15. When a PV message switches something on. [isActive] and [isBypassed]
    are true exactly when the 4 value bytes, read as a little-endian 32-bit
    number, lie between 1 and [0x7F800000]: the positive floats, denormals
    included, and +Infinity. Zero, negative zero, the negative numbers,
    -Infinity and every NaN give false. *)
Theorem X15_pv_value_is_on_iff_positive (nameBytes : list byte) (v0 v1 v2 v3 : byte) :
  let bits := Buf.byte_val v0 + 256 * Buf.byte_val v1
              + 65536 * Buf.byte_val v2 + 16777216 * Buf.byte_val v3 in
  ∃ name val,
    decode_pv (nameBytes ++ [v0; v1; v2; v3]) = Ok (name, val)
    ∧ Float32.gt0 val = (0 <? bits) && (bits <=? 0x7F800000).
Proof.
  intros bits. eexists. eexists. split; [apply decode_pv_split|].
  apply gt0_of_bits. subst bits.
  pose proof (byte_val_range v0). pose proof (byte_val_range v1).
  pose proof (byte_val_range v2). pose proof (byte_val_range v3). lia.
Qed.

(** X16. Which PV messages change the state. The pattern of [handlePVPacket]
    accepts a name exactly when it is [line/ch], one decimal digit or more, a
    slash and one of [mute], [solo], [48v], [hpf] and [pad]; a PV message
    with any other name than these and [global/mixerBypass] is ignored: the
    handler returns and the state is what it was. *)
Theorem X16_other_parameters_are_ignored :
  (∀ (name digits : list Z) (attr : string),
     match_channel_path name = Some (digits, attr)
     ↔ name = Str.js "line/ch" ++ digits ++ Str.js "/" ++ Str.js attr
       ∧ digits ≠ []
       ∧ Forall (fun c => Str.is_digit c = true) digits
       ∧ In attr attributes)
  ∧ (∀ (packet : Packet) (st : State) (name : list Z) (val : spec_float),
       decode_pv (data packet) = Ok (name, val) →
       name ≠ Str.js "global/mixerBypass" →
       (∀ (digits : list Z) (attr : string),
          digits ≠ [] →
          Forall (fun c => Str.is_digit c = true) digits →
          In attr attributes →
          name ≠ Str.js "line/ch" ++ digits ++ Str.js "/" ++ Str.js attr) →
       handlePVPacket packet st = (Ok tt, st)).
Proof.
  split.
  - intros name digits attr. split.
    + apply match_channel_path_Some.
    + intros (-> & Hne & Hdigits & Hattr). apply match_channel_path_channel; assumption.
  - intros packet st name val Hdecode Hbypass Hother.
    unfold handlePVPacket. unfold mbind, M_bind, lift. rewrite Hdecode. cbn [fst snd].
    unfold apply_pv. unfold Str.eqb at 1. rewrite bool_decide_eq_false_2 by exact Hbypass.
    destruct (match_channel_path name) as [[digits attr]|] eqn:Hmatch; [|reflexivity].
    apply match_channel_path_Some in Hmatch. destruct Hmatch as (Hname & Hne & Hdigits & Hattr).
    exfalso. exact (Hother digits attr Hne Hdigits Hattr Hname).
Qed.

(** ** What a snapshot sets *)

Lemma entry_value_None (entry : list Z * value) (n : N) (attr : string) :
  entry_value entry n attr = None → entry_defines entry n attr = false.
Proof.
  unfold entry_value, entry_defines.
  destruct (match_channel_key entry.1) as [digits|]; [|reflexivity].
  destruct (Str.parseInt10 digits =? n)%N; [|reflexivity]. cbn [andb].
  destruct (get_prop entry.2 "values") as [values|e]; [|reflexivity].
  destruct (get_prop values attr) as [v|e]; [|reflexivity].
  destruct (is_undefined v); [reflexivity | discriminate].
Qed.

Lemma last_value_None (items : list (list Z * value)) (n : N) (attr : string) :
  last_value items n attr = None →
  ∀ entry, In entry items → entry_defines entry n attr = false.
Proof.
  induction items as [|entry items IH]; cbn [last_value In]; [tauto|].
  destruct (last_value items n attr) as [v|]; [discriminate|].
  intros Hentry entry' [<-|Hin]; [apply entry_value_None; exact Hentry | apply IH; tauto].
Qed.

Section Snapshot_values.
Context `{Runtime}.
Variables (n : N) (attr : string) (v : value).

Lemma update_attr_step (values : value) (attr' : string) (st st' : State) :
  get_prop values attr = Ok v →
  is_undefined v = false →
  channel st n ≠ None →
  update_attr values n attr' st = (Ok tt, st') →
  channel st' n ≠ None
  ∧ (attr' = attr → set_to n attr v st')
  ∧ (attr' ≠ attr → known st' n attr = known st n attr).
Proof.
  intros Hget Hdefined Hchannel. unfold update_attr.
  unfold mbind at 1, M_bind at 1, lift at 1.
  destruct (get_prop values attr') as [v'|e] eqn:Hget'; [|discriminate].
  destruct (is_undefined v') eqn:Hundefined.
  { intros [= <-]. split; [exact Hchannel|]. split; [|reflexivity].
    intros ->. congruence. }
  unfold mbind at 1, M_bind at 1, lift at 1.
  destruct (gt0 v') as [active|e] eqn:Hactive; [|discriminate].
  unfold assign_attr. run_M.
  destruct (channel st n) as [record|] eqn:Hrecord; [|contradiction].
  intros [= <-]. split; [|split].
  - unfold channel. simpl_state. rewrite lookup_insert_eq. discriminate.
  - intros ->. exists active. split; [congruence|].
    rewrite known_insert. destruct (decide (n = n)); [|contradiction].
    apply lookup_insert_eq.
  - intros Hne. rewrite known_insert. destruct (decide (n = n)); [|contradiction].
    rewrite lookup_insert_ne by exact Hne. unfold known. rewrite Hrecord. reflexivity.
Qed.

Lemma update_attrs_set (values : value) (attrs : list string) (st st' : State) :
  get_prop values attr = Ok v →
  is_undefined v = false →
  channel st n ≠ None →
  for_each attrs (update_attr values n) st = (Ok tt, st') →
  set_to n attr v st ∨ In attr attrs →
  set_to n attr v st'.
Proof.
  intros Hget Hdefined. revert st.
  induction attrs as [|attr' attrs IH]; intros st Hchannel; cbn [for_each In].
  - intros [= <-]. tauto.
  - unfold mbind, M_bind.
    destruct (update_attr values n attr' st) as [[[]|e] st1] eqn:Hstep; [|discriminate].
    destruct (update_attr_step values attr' st st1 Hget Hdefined Hchannel Hstep)
      as (Hchannel1 & Hset & Hkeep).
    intros Hrest Hbefore. apply (IH st1 Hchannel1 Hrest).
    destruct (decide (attr' = attr)) as [Heq|Hne]; [left; apply Hset; exact Heq|].
    destruct Hbefore as [(active & Hactive & Hknown)|[Heq|Hin]];
      [left | contradiction | right; exact Hin].
    exists active. split; [exact Hactive|]. rewrite Hkeep by exact Hne. exact Hknown.
Qed.

Lemma update_channel_sets (entry : list Z * value) (st st' : State) :
  In attr attributes →
  entry_value entry n attr = Some v →
  update_channel entry st = (Ok tt, st') →
  set_to n attr v st'.
Proof.
  intros Hattr Hvalue. destruct entry as [key channelData].
  unfold entry_value in Hvalue. cbn [fst snd] in Hvalue. unfold update_channel.
  destruct (match_channel_key key) as [digits|]; [|discriminate].
  destruct (N.eqb_spec (Str.parseInt10 digits) n) as [->|]; [|discriminate].
  unfold mbind at 1, M_bind at 1, lift at 1.
  destruct (get_prop channelData "values") as [values|e]; [|discriminate].
  destruct (get_prop values attr) as [v'|e] eqn:Hget; [|discriminate].
  destruct (is_undefined v') eqn:Hdefined; [discriminate|].
  injection Hvalue as ->.
  assert (truthy values = true) as ->.
  { destruct values; try reflexivity; cbn in Hget; try discriminate;
      injection Hget as <-; discriminate. }
  unfold mbind at 1, M_bind at 1, modify at 1.
  match goal with
  | |- context [set_channelStates ?f st] => set (initialised := set_channelStates f st)
  end.
  assert (channel initialised n ≠ None) as Hchannel.
  { unfold channel. subst initialised. simpl_state. rewrite lookup_insert_eq. discriminate. }
  intros Hrun.
  apply (update_attrs_set values attributes initialised st' Hget Hdefined Hchannel);
    [|right; exact Hattr].
  cbn [for_each attributes]. revert Hrun. unfold mbind, M_bind.
  repeat match goal with
  | |- context [update_attr values ?m ?a ?s] =>
    destruct (update_attr values m a s) as [[[]|?] ?]; try discriminate
  end.
  intros [= <-]. reflexivity.
Qed.

Lemma update_channels_set (items : list (list Z * value)) (st st' : State) :
  In attr attributes →
  last_value items n attr = Some v →
  for_each items update_channel st = (Ok tt, st') →
  set_to n attr v st'.
Proof.
  intros Hattr. revert st. induction items as [|entry items IH]; intros st;
    cbn [last_value for_each]; [discriminate|].
  unfold mbind, M_bind.
  destruct (update_channel entry st) as [[[]|e] st1] eqn:Hstep; [|discriminate].
  destruct (last_value items n attr) as [v'|] eqn:Hlast.
  - intros [= ->] Hrest. apply (IH st1 eq_refl Hrest).
  - intros Hvalue Hrest.
    destruct (update_channel_sets entry st st1 Hattr Hvalue Hstep) as (active & Hactive & Hknown).
    exists active. split; [exact Hactive|]. rewrite <- Hknown.
    pose proof (preserves_for_each (fun s => known s n attr) items update_channel) as Hkeep.
    rewrite <- (Hkeep (fun entry' Hin =>
                         preserves_update_channel n attr entry'
                           (last_value_None items n attr Hlast entry' Hin)) st1).
    rewrite Hrest. reflexivity.
Qed.

End Snapshot_values.

Section Snapshot_applied.
Context `{Runtime}.

(** X17. What a snapshot sets. When the channel states are updated from the
    document of a ZM packet without an exception, every attribute of a
    channel to which the document gives a value is known afterwards, and it
    is on exactly when that value is greater than 0; when several keys name
    the channel ([ch3] and [ch03]), the last one in the order of enumeration
    decides. Then [mixerBypassState] is set from [mixerBypass] in the same
    way. *)
Theorem X17_snapshot_sets_what_it_defines (packet : Packet) (jsonData : value) (st : State) :
  4 ≤ Buf.len (data packet) →
  snapshot_of packet = Ok jsonData →
  (updateChannelStates jsonData st).1 = Ok tt →
  (∀ (n : N) (attr : string) (v : value),
     In attr attributes →
     snapshot_value jsonData n attr = Some v →
     ∃ active, gt0 v = Ok active ∧ known (handleZMPacket packet st).2 n attr = Some active)
  ∧ (∀ (v : value) (bypassed : bool),
       snapshot_bypass_value jsonData = Some v →
       gt0 v = Ok bypassed →
       mixerBypassState (handleZMPacket packet st).2 = bypassed).
Proof.
  intros Hlen Hsnapshot Hupdated.
  rewrite handleZMPacket_unfold, Hsnapshot by exact Hlen.
  unfold mbind, M_bind.
  destruct (updateChannelStates jsonData st) as [[[]|e] st1] eqn:Hchannels; [|discriminate].
  clear Hupdated. split.
  - intros n attr v Hattr Hvalue.
    assert (∃ active, gt0 v = Ok active ∧ known st1 n attr = Some active)
      as (active & Hactive & Hknown).
    { unfold snapshot_value in Hvalue. unfold updateChannelStates in Hchannels.
      revert Hchannels. unfold mbind at 1, M_bind at 1, lift at 1.
      destruct (line_children jsonData) as [[lineChildren|]|e]; try discriminate.
      unfold mbind at 1, M_bind at 1, lift at 1.
      destruct (entries lineChildren) as [items|e]; [|discriminate].
      apply update_channels_set; assumption. }
    exists active. split; [exact Hactive|].
    pose proof (updateGlobalStates_keeps_channels jsonData st1) as Hglobal.
    destruct (updateGlobalStates jsonData st1) as [[[]|e] st2]; cbn [snd] in *;
      unfold known, channel in *; simpl_state; rewrite Hglobal; exact Hknown.
  - intros v bypassed Hvalue Hbypassed. unfold snapshot_bypass_value in Hvalue.
    unfold updateGlobalStates. unfold mbind at 1, M_bind at 1, lift at 1.
    destruct (global_values jsonData) as [[globalValues|]|e]; try discriminate.
    unfold mbind at 1, M_bind at 1, lift at 1.
    destruct (get_prop globalValues "mixerBypass") as [v'|e]; [|discriminate].
    destruct (is_undefined v'); [discriminate|]. injection Hvalue as ->.
    unfold mbind, M_bind, lift. rewrite Hbypassed. reflexivity.
Qed.

(** X18. The header of a snapshot is not inspected. [handleZMPacket] needs the
    6 bytes in front of the compressed stream to be there and makes no use of
    their values: the 4 bytes it reads and the 2 bytes of the zlib header it
    skips can be anything. *)
Theorem X18_snapshot_header_is_not_inspected (front front' stream : list byte)
    (packet packet' : Packet) (st : State) :
  length front = 6%nat →
  length front' = 6%nat →
  data packet = front ++ stream →
  data packet' = front' ++ stream →
  handleZMPacket packet st = handleZMPacket packet' st.
Proof.
  intros Hfront Hfront' Hdata Hdata'.
  assert (∀ front packet,
            length front = 6%nat → data packet = front ++ stream →
            4 ≤ Buf.len (data packet)
            ∧ Buf.slice_from (Buf.slice_from (data packet) 4) 2 = stream) as Hstream.
  { intros f p Hf ->.
    destruct f as [|f0 [|f1 [|f2 [|f3 [|f4 [|f5 [|]]]]]]]; try discriminate.
    cbn [app]. split.
    - rewrite !len_cons. pose proof (len_nonneg stream). lia.
    - change (Buf.slice_from (f0 :: f1 :: f2 :: f3 :: f4 :: f5 :: stream) 4)
        with (Buf.slice_from ([f0; f1; f2; f3] ++ f4 :: f5 :: stream)
                (Buf.len [f0; f1; f2; f3])).
      rewrite slice_from_suffix. apply slice_from_2. }
  destruct (Hstream front packet Hfront Hdata) as [Hlen Hcut].
  destruct (Hstream front' packet' Hfront' Hdata') as [Hlen' Hcut'].
  rewrite !handleZMPacket_unfold by assumption.
  unfold snapshot_of. rewrite Hcut, Hcut'. reflexivity.
Qed.

(** X19. A snapshot that fails half-way. When the update of the channel states
    throws, as it does on a channel entry that is [null], the channels that
    came before it in the document keep their new values, the channels that
    come after it and [mixerBypass] are not looked at, and the error is
    logged as one of decompression. *)
Theorem X19_snapshot_stops_at_the_first_exception (packet : Packet) (jsonData : value)
    (st : State) (e : exn) :
  4 ≤ Buf.len (data packet) →
  snapshot_of packet = Ok jsonData →
  (updateChannelStates jsonData st).1 = Throw e →
  handleZMPacket packet st
  = (Ok tt, add_logged (ErrorDecompressing e) (updateChannelStates jsonData st).2)
  ∧ mixerBypassState (handleZMPacket packet st).2 = mixerBypassState st.
Proof.
  intros Hlen Hsnapshot Hthrown.
  rewrite handleZMPacket_unfold, Hsnapshot by exact Hlen.
  pose proof (preserves_bypass_updateChannelStates jsonData st) as Hbypass.
  unfold mbind, M_bind.
  destruct (updateChannelStates jsonData st) as [[[]|e'] st1]; [discriminate|].
  cbn [fst snd] in *. injection Hthrown as ->. split; [reflexivity | exact Hbypass].
Qed.

End Snapshot_applied.

(** ** Commands *)

Lemma tcpWritten_sent (frame : list byte) (st : State) :
  tcpWritten (sent frame st) = written_after frame st.
Proof. unfold sent, written_after. destruct (tcpWritable st); reflexivity. Qed.

Lemma setters_sent (attr : string) (setChannel : N → bool → M unit) :
  In (attr, setChannel) setters →
  In attr attributes
  ∧ ∀ n flag st,
      setChannel n flag st
      = (Ok tt, sent (pv_frame (channel_path n attr) (bool_number flag)) st).
Proof.
  intros Hin. cbn in Hin.
  destruct Hin as [E|[E|[E|[E|[E|[]]]]]]; injection E as <- <-; (split; [cbn; tauto|]).
  - apply setChannelMute_sent.
  - apply setChannelSolo_sent.
  - apply setChannel48V_sent.
  - apply setChannelHPF_sent.
  - apply setChannelPad_sent.
Qed.

Lemma toggleChannelMute_known (n : N) (st : State) (record : gmap string bool) (mute : bool) :
  channel st n = Some record →
  record !! "mute"%string = Some mute →
  toggleChannelMute n st
  = (Ok tt,
     add_logged InfoCallingCheckFeedbacks
       (add_logged (InfoToggled n "mute" (negb mute))
          (set_channelStates <[n := <["mute"%string := negb mute]> record]>
             (sent (pv_frame (channel_path n "mute") (bool_number (negb mute))) st)))).
Proof.
  intros Hrecord Hmute. unfold toggleChannelMute.
  unfold mbind at 1, M_bind at 1, get_state.
  assert (known st n "mute" = Some mute) as ->
    by (unfold known; rewrite Hrecord; exact Hmute).
  unfold mbind at 1 2 3, M_bind at 1 2 3. rewrite setChannelMute_sent.
  unfold assign_attr. unfold mbind at 1, M_bind at 1, get_state.
  rewrite channel_sent, Hrecord. reflexivity.
Qed.

Lemma toggle_with_spread_known (attr : string) (setChannel : N → bool → M unit)
    (unknownDefault : bool) (n : N) (st : State) (record : gmap string bool) (current : bool) :
  (∀ flag st, setChannel n flag st
              = (Ok tt, sent (pv_frame (channel_path n attr) (bool_number flag)) st)) →
  channel st n = Some record →
  record !! attr = Some current →
  toggle_with_spread attr setChannel unknownDefault n st
  = (Ok tt,
     add_logged (InfoToggled n attr (negb current))
       (set_channelStates <[n := <[attr := negb current]> record]>
          (sent (pv_frame (channel_path n attr) (bool_number (negb current))) st))).
Proof.
  intros Hset Hrecord Hcurrent. unfold toggle_with_spread.
  unfold mbind at 1, M_bind at 1, get_state.
  assert (known st n attr = Some current) as ->
    by (unfold known; rewrite Hrecord; exact Hcurrent).
  unfold mbind at 1 2, M_bind at 1 2. rewrite Hset.
  unfold assign_attr. unfold mbind at 1, M_bind at 1, get_state.
  rewrite channel_sent, Hrecord. reflexivity.
Qed.

Lemma toggles_spec (attr : string) (toggle : N → M unit) :
  In (attr, toggle) toggles →
  In attr attributes
  ∧ ((attr = "mute"%string ∧ toggle = toggleChannelMute)
     ∨ ∃ setChannel unknownDefault,
         toggle = toggle_with_spread attr setChannel unknownDefault
         ∧ ∀ n flag st,
             setChannel n flag st
             = (Ok tt, sent (pv_frame (channel_path n attr) (bool_number flag)) st)).
Proof.
  intros Hin. cbn in Hin.
  destruct Hin as [E|[E|[E|[E|[E|[]]]]]]; injection E as <- <-; (split; [cbn; tauto|]).
  - left. split; reflexivity.
  - right. exists setChannelSolo, true. split; [reflexivity | apply setChannelSolo_sent].
  - right. exists setChannel48V, false. split; [reflexivity | apply setChannel48V_sent].
  - right. exists setChannelHPF, false. split; [reflexivity | apply setChannelHPF_sent].
  - right. exists setChannelPad, false. split; [reflexivity | apply setChannelPad_sent].
Qed.

Lemma spread_with_lookup (record : option (gmap string bool)) (attr : string) (v : bool) :
  spread_with record attr v !! attr = Some v.
Proof. unfold spread_with. apply lookup_insert_eq. Qed.

Lemma toggle_known_toggled (attr : string) (toggle : N → M unit) (n : N) (st : State)
    (record : gmap string bool) (current : bool) :
  In (attr, toggle) toggles →
  channel st n = Some record →
  record !! attr = Some current →
  (toggle n st).1 = Ok tt
  ∧ toggled st (toggle n st).2 n attr (negb current) (<[attr := negb current]> record).
Proof.
  intros Hin Hrecord Hcurrent.
  destruct (toggles_spec attr toggle Hin)
    as [_ [[-> ->]|(setChannel & unknownDefault & -> & Hset)]].
  - rewrite (toggleChannelMute_known n st record current) by assumption.
    split; [reflexivity|]. unfold toggled. simpl_state.
    rewrite lookup_insert_eq, tcpWritten_sent. unfold sent, written_after.
    destruct (tcpWritable st) eqn:Hwritable; repeat split; exact Hwritable.
  - rewrite (toggle_with_spread_known attr setChannel unknownDefault n st record current
               (Hset n) Hrecord Hcurrent).
    split; [reflexivity|]. unfold toggled. simpl_state.
    rewrite lookup_insert_eq, tcpWritten_sent. unfold sent, written_after.
    destruct (tcpWritable st) eqn:Hwritable; repeat split; exact Hwritable.
Qed.

Lemma toggle_unknown_toggled (attr : string) (toggle : N → M unit) (n : N) (st : State) :
  In (attr, toggle) toggles →
  known st n attr = None →
  ∃ flag record,
    (toggle n st).1 = Ok tt ∧ toggled st (toggle n st).2 n attr flag record.
Proof.
  intros Hin Hunknown.
  destruct (toggles_spec attr toggle Hin)
    as [_ [[-> ->]|(setChannel & unknownDefault & -> & Hset)]].
  - exists true, {[ "mute"%string := true ]}.
    rewrite toggleChannelMute_unknown by exact Hunknown.
    split; [reflexivity|]. unfold toggled. simpl_state.
    rewrite tcpWritten_sent. unfold sent, written_after.
    destruct (tcpWritable st) eqn:Hwritable; repeat split; exact Hwritable.
  - exists unknownDefault, (spread_with (channel st n) attr unknownDefault).
    rewrite (toggle_with_spread_unknown attr setChannel unknownDefault n st (Hset n) Hunknown).
    split; [reflexivity|]. unfold toggled. simpl_state.
    rewrite spread_with_lookup, tcpWritten_sent. unfold sent, written_after.
    destruct (tcpWritable st) eqn:Hwritable; repeat split; exact Hwritable.
Qed.

Lemma known_Some (st : State) (n : N) (attr : string) (v : bool) :
  known st n attr = Some v →
  ∃ record, channel st n = Some record ∧ record !! attr = Some v.
Proof.
  unfold known. destruct (channel st n) as [record|]; [|discriminate].
  intros Hv. exists record. split; [reflexivity | exact Hv].
Qed.

Lemma known_toggled (st st' : State) (n : N) (attr : string) (flag : bool)
    (record : gmap string bool) (m : N) (attr' : string) :
  toggled st st' n attr flag record →
  known st' m attr' = if decide (n = m) then record !! attr' else known st m attr'.
Proof.
  intros (Hchannels & _). unfold known, channel. rewrite Hchannels, lookup_insert.
  destruct (decide (n = m)); reflexivity.
Qed.

(** X20. A setter sends and records nothing. [setChannelMute], [setChannelSolo],
    [setChannel48V], [setChannelHPF] and [setChannelPad] return for every
    channel number and hand [sendPacket] the PV frame of the channel, the
    attribute and the value; the channel states, [mixerBypassState] and the
    receive buffer are as before, so the feedbacks show the value only once
    the device has reported it. The same holds for [setMixerBypass]. *)
Theorem X20_setters_send_and_record_nothing (st : State) (flag : bool) :
  (∀ (attr : string) (setChannel : N → bool → M unit) (n : N),
     In (attr, setChannel) setters →
     (setChannel n flag st).1 = Ok tt
     ∧ channelStates (setChannel n flag st).2 = channelStates st
     ∧ mixerBypassState (setChannel n flag st).2 = mixerBypassState st
     ∧ receiveBuffer (setChannel n flag st).2 = receiveBuffer st
     ∧ ∃ frame,
         is_pv_frame frame (channel_path n attr) flag
         ∧ tcpWritten (setChannel n flag st).2 = written_after frame st)
  ∧ (setMixerBypass flag st).1 = Ok tt
  ∧ channelStates (setMixerBypass flag st).2 = channelStates st
  ∧ mixerBypassState (setMixerBypass flag st).2 = mixerBypassState st
  ∧ receiveBuffer (setMixerBypass flag st).2 = receiveBuffer st
  ∧ ∃ frame,
      buildPVPacket (Str.js "global/mixerBypass") (bool_number flag) = Ok frame
      ∧ tcpWritten (setMixerBypass flag st).2 = written_after frame st.
Proof.
  split.
  - intros attr setChannel n Hin.
    destruct (setters_sent attr setChannel Hin) as [Hattr Hset].
    rewrite Hset. cbn [fst snd]. rewrite tcpWritten_sent.
    repeat apply conj; try (unfold sent; destruct (tcpWritable st); reflexivity).
    exists (pv_frame (channel_path n attr) (bool_number flag)).
    split; [apply pv_frame_is_pv_frame; exact Hattr | reflexivity].
  - unfold setMixerBypass.
    rewrite buildPVPacket_returns by (vm_compute; discriminate).
    unfold mbind, M_bind, lift. rewrite sendPacket_sent. cbn [fst snd].
    rewrite tcpWritten_sent.
    repeat apply conj; try (unfold sent; destruct (tcpWritable st); reflexivity).
    eexists. split; reflexivity.
Qed.

(** X21. A toggle on a known state. Each of the five toggles, on a channel whose
    attribute is known, returns, records the negation of the value and hands
    [sendPacket] the PV frame that carries it; every other attribute of the
    channel and every other channel keep their state, known or unknown, and
    so do [mixerBypassState] and the receive buffer. *)
Theorem X21_toggle_flips_a_known_state (attr : string) (toggle : N → M unit) (n : N)
    (st : State) (current : bool) :
  In (attr, toggle) toggles →
  known st n attr = Some current →
  (toggle n st).1 = Ok tt
  ∧ known (toggle n st).2 n attr = Some (negb current)
  ∧ (∀ (m : N) (attr' : string),
       m ≠ n ∨ attr' ≠ attr → known (toggle n st).2 m attr' = known st m attr')
  ∧ mixerBypassState (toggle n st).2 = mixerBypassState st
  ∧ receiveBuffer (toggle n st).2 = receiveBuffer st
  ∧ ∃ frame,
      is_pv_frame frame (channel_path n attr) (negb current)
      ∧ tcpWritten (toggle n st).2 = written_after frame st.
Proof.
  intros Hin Hknown.
  destruct (known_Some st n attr current Hknown) as (record & Hrecord & Hcurrent).
  destruct (toggle_known_toggled attr toggle n st record current Hin Hrecord Hcurrent)
    as [Hok Htoggled].
  pose proof (known_toggled _ _ _ _ _ _ n attr Htoggled) as Hsame.
  pose proof (fun m attr' => known_toggled _ _ _ _ _ _ m attr' Htoggled) as Hother.
  destruct Htoggled as (_ & _ & Hbypass & Hbuffer & _ & Hwritten).
  repeat apply conj; try assumption.
  - rewrite Hsame. destruct (decide (n = n)); [|contradiction]. apply lookup_insert_eq.
  - intros m attr' Hne. rewrite Hother.
    destruct (decide (n = m)) as [<-|]; [|reflexivity].
    destruct Hne as [|Hne]; [contradiction|].
    rewrite lookup_insert_ne by congruence.
    unfold known. rewrite Hrecord. reflexivity.
  - exists (pv_frame (channel_path n attr) (bool_number (negb current))).
    split; [|exact Hwritten].
    apply pv_frame_is_pv_frame. apply (toggles_spec attr toggle Hin).
Qed.

(** X22. Toggling twice. On a channel whose attribute is known, two toggles in a
    row leave the channel states exactly as they were, and hand [sendPacket]
    two frames: one for the negation of the value, then one for the value. *)
Theorem X22_toggling_twice_restores (attr : string) (toggle : N → M unit) (n : N)
    (st : State) (current : bool) :
  In (attr, toggle) toggles →
  known st n attr = Some current →
  let once := (toggle n st).2 in
  let twice := (toggle n once).2 in
  channelStates twice = channelStates st
  ∧ ∃ frame frame',
      is_pv_frame frame (channel_path n attr) (negb current)
      ∧ is_pv_frame frame' (channel_path n attr) current
      ∧ tcpWritten twice
        = if tcpWritable st then tcpWritten st ++ [frame; frame'] else tcpWritten st.
Proof.
  intros Hin Hknown once twice.
  destruct (known_Some st n attr current Hknown) as (record & Hrecord & Hcurrent).
  destruct (toggle_known_toggled attr toggle n st record current Hin Hrecord Hcurrent)
    as [_ Honce].
  fold once in Honce.
  assert (channel once n = Some (<[attr := negb current]> record)) as Hrecord'.
  { unfold channel. destruct Honce as (-> & _). apply lookup_insert_eq. }
  destruct (toggle_known_toggled attr toggle n once _ (negb current) Hin Hrecord'
              (lookup_insert_eq _ _ _)) as [_ Htwice].
  fold twice in Htwice. rewrite negb_involutive in Htwice.
  destruct Honce as (Hchannels & _ & _ & _ & Hwritable & Hwritten).
  destruct Htwice as (Hchannels' & _ & _ & _ & _ & Hwritten').
  split.
  - rewrite Hchannels', Hchannels. rewrite !insert_insert_eq.
    rewrite (insert_id record) by exact Hcurrent.
    apply insert_id. exact Hrecord.
  - exists (pv_frame (channel_path n attr) (bool_number (negb current))),
           (pv_frame (channel_path n attr) (bool_number current)).
    pose proof (proj1 (toggles_spec attr toggle Hin)) as Hattr.
    split; [apply pv_frame_is_pv_frame; exact Hattr|].
    split; [apply pv_frame_is_pv_frame; exact Hattr|].
    rewrite Hwritten'. unfold written_after. rewrite Hwritable, Hwritten.
    unfold written_after. destruct (tcpWritable st); [|reflexivity].
    rewrite <- app_assoc. reflexivity.
Qed.

(** X23. The defaults of the other toggles. Every toggle returns, in every
    state, and leaves its attribute known. On a channel whose state is
    unknown, [toggleChannelSolo] records solo = true and hands [sendPacket]
    the frame that carries 1.0, and [toggleChannelHPF] and [toggleChannelPad]
    record false and hand over the frame that carries 0.0. *)
Theorem X23_unknown_defaults_of_the_toggles (n : N) (st : State) :
  (∀ (attr : string) (toggle : N → M unit),
     In (attr, toggle) toggles →
     (toggle n st).1 = Ok tt ∧ known (toggle n st).2 n attr ≠ None)
  ∧ (known st n "solo" = None →
     known (toggleChannelSolo n st).2 n "solo" = Some true
     ∧ ∃ frame,
         is_pv_frame frame (channel_path n "solo") true
         ∧ tcpWritten (toggleChannelSolo n st).2 = written_after frame st)
  ∧ (known st n "hpf" = None →
     known (toggleChannelHPF n st).2 n "hpf" = Some false
     ∧ ∃ frame,
         is_pv_frame frame (channel_path n "hpf") false
         ∧ tcpWritten (toggleChannelHPF n st).2 = written_after frame st)
  ∧ (known st n "pad" = None →
     known (toggleChannelPad n st).2 n "pad" = Some false
     ∧ ∃ frame,
         is_pv_frame frame (channel_path n "pad") false
         ∧ tcpWritten (toggleChannelPad n st).2 = written_after frame st).
Proof.
  assert (∀ attr setChannel unknownDefault,
            In attr attributes →
            (∀ flag st, setChannel n flag st
                        = (Ok tt, sent (pv_frame (channel_path n attr) (bool_number flag)) st)) →
            known st n attr = None →
            known (toggle_with_spread attr setChannel unknownDefault n st).2 n attr
            = Some unknownDefault
            ∧ ∃ frame,
                is_pv_frame frame (channel_path n attr) unknownDefault
                ∧ tcpWritten (toggle_with_spread attr setChannel unknownDefault n st).2
                  = written_after frame st) as Hspread.
  { intros attr setChannel unknownDefault Hattr Hset Hunknown.
    rewrite (toggle_with_spread_unknown attr setChannel unknownDefault n st Hset Hunknown).
    cbn [snd]. split.
    - rewrite known_add_logged, known_insert. destruct (decide (n = n)); [|contradiction].
      apply spread_with_lookup.
    - exists (pv_frame (channel_path n attr) (bool_number unknownDefault)).
      split; [apply pv_frame_is_pv_frame; exact Hattr|].
      simpl_state. apply tcpWritten_sent. }
  repeat apply conj.
  - intros attr toggle Hin.
    assert (∃ flag record,
              (toggle n st).1 = Ok tt ∧ toggled st (toggle n st).2 n attr flag record)
      as (flag & record & Hok & Htoggled).
    { destruct (known st n attr) as [current|] eqn:Hknown.
      - destruct (known_Some st n attr current Hknown) as (record & Hrecord & Hcurrent).
        exists (negb current), (<[attr := negb current]> record).
        apply (toggle_known_toggled attr toggle n st record current Hin Hrecord Hcurrent).
      - apply (toggle_unknown_toggled attr toggle n st Hin Hknown). }
    split; [exact Hok|].
    rewrite (known_toggled _ _ _ _ _ _ n attr Htoggled).
    destruct (decide (n = n)); [|contradiction].
    destruct Htoggled as (_ & -> & _). discriminate.
  - apply (Hspread "solo"%string setChannelSolo true); [cbn; tauto | apply setChannelSolo_sent].
  - apply (Hspread "hpf"%string setChannelHPF false); [cbn; tauto | apply setChannelHPF_sent].
  - apply (Hspread "pad"%string setChannelPad false); [cbn; tauto | apply setChannelPad_sent].
Qed.

Lemma pv_frame_plain (name : list Z) (flag : bool) :
  Forall is_plain name →
  Buf.len (Str.to_utf8 name) ≤ 65522 →
  is_pv_frame (pv_frame name (bool_number flag)) name flag.
Proof.
  intros Hname Hlen. split; [|split].
  - apply buildPVPacket_returns. exact Hlen.
  - unfold pv_frame, pv_payload.
    rewrite !app_assoc. rewrite length_app.
    change (length (Float32.writeFloatLE (bool_number flag))) with 4%nat.
    match goal with
    | |- drop (length ?l + 4 - 4) _ = _ =>
      replace (length l + 4 - 4)%nat with (length l) by lia
    end.
    rewrite drop_app_length. destruct flag; reflexivity.
  - rewrite pv_frame_body. apply decode_pv_built. exact Hname.
Qed.

Lemma handlePVPacket_bypass (flag : bool) (st : State) :
  handlePVPacket (pv_packet (Str.js "global/mixerBypass") (bool_number flag)) st
  = (Ok tt, set_mixerBypassState flag st).
Proof. destruct flag; reflexivity. Qed.

(** X24. [toggleMixerBypass] returns, records the negation of
    [mixerBypassState], also when the socket is not writable, and hands
    [sendPacket] the frame [global/mixerBypass] that carries it; the channel
    states and the receive buffer are as before. The echo of the frame
    records the same value, a second toggle gives the first value back, and
    the feedback of the bypass gives the colour of the new state. *)
Theorem X24_toggleMixerBypass_flips (st : State) :
  let flipped := negb (mixerBypassState st) in
  let after := (toggleMixerBypass st).2 in
  (toggleMixerBypass st).1 = Ok tt
  ∧ mixerBypassState after = flipped
  ∧ channelStates after = channelStates st
  ∧ receiveBuffer after = receiveBuffer st
  ∧ (∃ frame,
       is_pv_frame frame (Str.js "global/mixerBypass") flipped
       ∧ tcpWritten after = written_after frame st)
  ∧ mixerBypassState
      (handlePVPacket (pv_packet (Str.js "global/mixerBypass") (bool_number flipped)) after).2
    = flipped
  ∧ mixerBypassState (toggleMixerBypass after).2 = mixerBypassState st
  ∧ ∀ options : FeedbackOptions,
      mixer_bypass_feedback options after
      = Some (if flipped then activeColor options else inactiveColor options).
Proof.
  intros flipped after.
  assert (∀ s, toggleMixerBypass s
               = (Ok tt,
                  add_logged (InfoBypassToggled (negb (mixerBypassState s)))
                    (set_mixerBypassState (negb (mixerBypassState s))
                       (sent (pv_frame (Str.js "global/mixerBypass")
                                (bool_number (negb (mixerBypassState s)))) s)))) as Hrun.
  { intros s. unfold toggleMixerBypass, setMixerBypass.
    unfold mbind at 1, M_bind at 1, get_state.
    rewrite buildPVPacket_returns by (vm_compute; discriminate).
    unfold mbind at 1 2 3, M_bind at 1 2 3, lift. rewrite sendPacket_sent. reflexivity. }
  subst after. rewrite handlePVPacket_bypass, !Hrun. cbn [fst snd]. simpl_state.
  rewrite tcpWritten_sent, negb_involutive.
  repeat apply conj; try reflexivity;
    try (unfold sent; destruct (tcpWritable st); reflexivity).
  - eexists. split; [|reflexivity].
    apply pv_frame_plain; [|vm_compute; discriminate].
    repeat constructor.
  - intros options. unfold mixer_bypass_feedback. simpl_state.
    destruct (negb (mixerBypassState st)); reflexivity.
Qed.

(** ** Channel numbers in parameter names *)

Lemma digits_of_spec (fuel : nat) (n : N) (acc : list Z) :
  (n < 10 ^ N.of_nat (S fuel))%N →
  ∃ digits,
    Str.digits_of (S fuel) n acc = digits ++ acc
    ∧ digits ≠ []
    ∧ Forall (fun c => Str.is_digit c = true) digits
    ∧ Str.parseInt10 digits = n.
Proof.
  assert (∀ n : N, Str.is_digit (48 + Z.of_N (n mod 10)) = true) as Hdigit.
  { intros m. pose proof (N.mod_lt m 10 ltac:(discriminate)) as Hmod.
    revert Hmod. generalize (m mod 10)%N. intros d Hd. unfold Str.is_digit. lia. }
  assert (∀ n : N, (n < 10)%N →
            ∃ digits,
              (48 + Z.of_N (n mod 10)) :: acc = digits ++ acc
              ∧ digits ≠ []
              ∧ Forall (fun c => Str.is_digit c = true) digits
              ∧ Str.parseInt10 digits = n) as Hone.
  { intros m Hm. exists [48 + Z.of_N (m mod 10)].
    split; [reflexivity|]. split; [discriminate|].
    split; [constructor; [apply Hdigit | constructor]|].
    unfold Str.parseInt10. cbn [fold_left].
    rewrite N.mod_small by exact Hm. lia. }
  revert n acc Hone. induction fuel as [|fuel IH]; intros n acc Hone Hn.
  - cbn [Str.digits_of]. change (10 ^ N.of_nat 1)%N with 10%N in Hn.
    destruct (N.ltb_spec n 10); [|lia]. apply Hone. exact Hn.
  - cbn [Str.digits_of]. destruct (N.ltb_spec n 10) as [Hsmall|Hbig].
    { apply Hone. exact Hsmall. }
    destruct (IH (n / 10)%N ((48 + Z.of_N (n mod 10)) :: acc))
      as (digits & Hrun & Hne & Hdigits & Hvalue).
    { intros m Hm. exists [48 + Z.of_N (m mod 10)].
      split; [reflexivity|]. split; [discriminate|].
      split; [constructor; [apply Hdigit | constructor]|].
      unfold Str.parseInt10. cbn [fold_left].
      rewrite N.mod_small by exact Hm. lia. }
    { apply N.Div0.div_lt_upper_bound.
      rewrite Nat2N.inj_succ, N.pow_succ_r' in Hn. exact Hn. }
    exists (digits ++ [48 + Z.of_N (n mod 10)]).
    split; [rewrite <- app_assoc; exact Hrun|].
    split; [destruct digits; discriminate|].
    split; [apply Forall_app_2; [exact Hdigits | constructor; [apply Hdigit | constructor]]|].
    unfold Str.parseInt10. rewrite fold_left_app. fold (Str.parseInt10 digits).
    rewrite Hvalue. cbn [fold_left].
    replace (48 + Z.of_N (n mod 10) - 48) with (Z.of_N (n mod 10)) by lia.
    rewrite N2Z.id. symmetry. apply N.div_mod. discriminate.
Qed.

(** [parseInt] reads back the number that the template literal printed. *)
Lemma of_number_spec (n : N) :
  (n < 10 ^ 21)%N →
  Str.of_number n ≠ []
  ∧ Forall (fun c => Str.is_digit c = true) (Str.of_number n)
  ∧ Str.parseInt10 (Str.of_number n) = n.
Proof.
  intros Hn. unfold Str.of_number.
  destruct (digits_of_spec 20 n [] Hn) as (digits & -> & Hne & Hdigits & Hvalue).
  rewrite app_nil_r. repeat split; assumption.
Qed.

Lemma handlePVPacket_channel (n : N) (attr : string) (flag : bool) (st : State) :
  In attr attributes →
  (n < 10 ^ 21)%N →
  handlePVPacket (pv_packet (channel_path n attr) (bool_number flag)) st
  = (Ok tt, set_channelStates <[n := spread_with (channel st n) attr flag]> st).
Proof.
  intros Hattr Hn. destruct (of_number_spec n Hn) as (Hne & Hdigits & Hvalue).
  unfold handlePVPacket, pv_packet. cbn [data].
  destruct (decode_pv_built (channel_path n attr) flag) as (val & Hdecode & Hval);
    [apply channel_path_plain; exact Hattr|].
  unfold mbind, M_bind, lift. rewrite Hdecode. cbn [fst snd].
  unfold channel_path. rewrite apply_pv_channel by assumption.
  rewrite Hvalue, Hval. reflexivity.
Qed.

(** X25. The echo of a setter. When the device sends back the PV message that
    [setChannelMute] and the other setters build for channel [n], an
    attribute and a value, [handlePVPacket] records that value for that
    attribute of that channel, and changes no other attribute of any
    channel. When the attribute is one of mute, solo, hpf and 48v, the four
    that have a feedback, its feedback then gives the colour of the active
    state for true and that of the inactive state for false. *)
Theorem X25_echo_records_the_value (n : N) (attr : string) (flag : bool) (st : State) :
  In attr attributes →
  (n < 10 ^ 21)%N →
  let echoed := (handlePVPacket (pv_packet (channel_path n attr) (bool_number flag)) st).2 in
  (handlePVPacket (pv_packet (channel_path n attr) (bool_number flag)) st).1 = Ok tt
  ∧ known echoed n attr = Some flag
  ∧ (∀ (m : N) (attr' : string),
       m ≠ n ∨ attr' ≠ attr → known echoed m attr' = known st m attr')
  ∧ mixerBypassState echoed = mixerBypassState st
  ∧ ∀ (id : ChannelFeedback) (options : FeedbackOptions),
      feedback_attr id = attr →
      channel_feedback id options n echoed
      = Some (if flag then activeColor options else inactiveColor options).
Proof.
  intros Hattr Hn echoed. subst echoed.
  rewrite handlePVPacket_channel by assumption. cbn [fst snd].
  assert (known (set_channelStates <[n := spread_with (channel st n) attr flag]> st) n attr
          = Some flag) as Hknown.
  { rewrite known_insert. destruct (decide (n = n)); [|contradiction].
    apply spread_with_lookup. }
  repeat apply conj; try reflexivity.
  - exact Hknown.
  - intros m attr' Hne. rewrite known_insert.
    destruct (decide (n = m)) as [<-|]; [|reflexivity].
    destruct Hne as [|Hne]; [contradiction|].
    unfold spread_with. rewrite lookup_insert_ne by congruence.
    unfold known. destruct (channel st n); reflexivity.
  - intros id options Hid. unfold channel_feedback. rewrite Hid, Hknown.
    destruct flag; reflexivity.
Qed.

(** X26. A toggle and its echo agree. What a toggle records, on a known or an
    unknown state, is what the echo of the frame it sends would record: when
    the PV message comes back, the channel states do not change. *)
Theorem X26_toggle_agrees_with_its_echo (attr : string) (toggle : N → M unit) (n : N)
    (st : State) :
  In (attr, toggle) toggles →
  (n < 10 ^ 21)%N →
  let after := (toggle n st).2 in
  ∃ flag,
    known after n attr = Some flag
    ∧ tcpWritten after
      = written_after (pv_frame (channel_path n attr) (bool_number flag)) st
    ∧ channelStates
        (handlePVPacket (pv_packet (channel_path n attr) (bool_number flag)) after).2
      = channelStates after.
Proof.
  intros Hin Hn after.
  pose proof (proj1 (toggles_spec attr toggle Hin)) as Hattr.
  assert (∃ flag record, toggled st after n attr flag record) as (flag & record & Htoggled).
  { destruct (known st n attr) as [current|] eqn:Hknown.
    - destruct (known_Some st n attr current Hknown) as (record & Hrecord & Hcurrent).
      exists (negb current), (<[attr := negb current]> record).
      apply (toggle_known_toggled attr toggle n st record current Hin Hrecord Hcurrent).
    - destruct (toggle_unknown_toggled attr toggle n st Hin Hknown)
        as (flag & record & _ & Htoggled).
      exists flag, record. exact Htoggled. }
  exists flag.
  pose proof (known_toggled _ _ _ _ _ _ n attr Htoggled) as Hknown.
  destruct (decide (n = n)); [|contradiction].
  destruct Htoggled as (Hchannels & Hflag & _ & _ & _ & Hwritten).
  split; [rewrite Hknown; exact Hflag|]. split; [exact Hwritten|].
  rewrite handlePVPacket_channel by assumption. cbn [snd]. simpl_state.
  assert (channel after n = Some record) as ->
    by (unfold channel; rewrite Hchannels; apply lookup_insert_eq).
  unfold spread_with. cbn [default].
  rewrite (insert_id record) by exact Hflag.
  apply insert_id. rewrite Hchannels. apply lookup_insert_eq.
Qed.

(** ** Subscription and keepalive *)

(** X27. [subscribeToDevice] with a port that fits 16 bits returns and hands
    [sendPacket] the UM frame and then the JM frame: both are written, in
    this order, when the socket is writable, and two errors are logged when
    it is not. With another port it throws a [RangeError] before anything is
    sent, the JM frame included. [heartbeat] hands [sendPacket] the KA frame.
    None of them changes the channel states, [mixerBypassState] or the
    receive buffer. *)
Theorem X27_subscription_sends_UM_then_JM (udpPort : Z) (st : State) :
  (0 ≤ udpPort ≤ 65535 →
   ∃ um jm,
     buildUMPacket udpPort = Ok um
     ∧ buildJMPacket = Ok jm
     ∧ subscribeToDevice udpPort st = (Ok tt, sent jm (sent um st))
     ∧ tcpWritten (sent jm (sent um st))
       = (if tcpWritable st then tcpWritten st ++ [um; jm] else tcpWritten st)
     ∧ logged (sent jm (sent um st))
       = (if tcpWritable st then logged st
          else logged st ++ [ErrorNotConnected; ErrorNotConnected])
     ∧ channelStates (sent jm (sent um st)) = channelStates st
     ∧ mixerBypassState (sent jm (sent um st)) = mixerBypassState st
     ∧ receiveBuffer (sent jm (sent um st)) = receiveBuffer st)
  ∧ (udpPort < 0 ∨ 65535 < udpPort →
     subscribeToDevice udpPort st = (Throw RangeError, st))
  ∧ ∃ ka,
      buildKAPacket = Ok ka
      ∧ heartbeat st = (Ok tt, sent ka st)
      ∧ channelStates (sent ka st) = channelStates st
      ∧ mixerBypassState (sent ka st) = mixerBypassState st
      ∧ receiveBuffer (sent ka st) = receiveBuffer st.
Proof.
  repeat apply conj.
  - intros Hport.
    assert (∃ jm, buildJMPacket = Ok jm) as [jm Hjm] by (eexists; vm_compute; reflexivity).
    eexists. exists jm.
    split; [apply buildUMPacket_returns; exact Hport|].
    split; [exact Hjm|].
    split.
    { unfold subscribeToDevice. rewrite buildUMPacket_returns, Hjm by exact Hport.
      unfold mbind, M_bind, lift. rewrite sendPacket_sent. apply sendPacket_sent. }
    unfold sent. destruct (tcpWritable st) eqn:Hwritable; simpl_state; rewrite Hwritable;
      simpl_state; rewrite <- ?app_assoc; repeat split.
  - intros Hport. unfold subscribeToDevice, buildUMPacket.
    change (Buf.writeUInt16LE 0) with (Ok [x00; x00]).
    change (Buf.writeUInt16LE 102) with (Ok [x66; x00]).
    cbn [mbind result_bind]. rewrite (writeUInt16LE_outside udpPort) by exact Hport.
    reflexivity.
  - eexists. split; [vm_compute; reflexivity|].
    split; [unfold heartbeat; apply sendPacket_sent|].
    unfold sent. destruct (tcpWritable st); repeat split.
Qed.

(** * The claims on concrete inputs *)

#[local] Existing Instance example_runtime.

Example example_snapshot_is_parsed :
  snapshot_of (zm_packet (stored_block (Str.to_utf8 example_text))) = Ok example_snapshot.
Proof. vm_compute. reflexivity. Qed.

Example mute5_frame_is_decoded :
  parsePacket (spec_frame mute5_payload) = Ok (pv_packet (Str.js "line/ch5/mute") Float32.one).
Proof. vm_compute. reflexivity. Qed.

Lemma ka_payload_well_formed : well_formed ka_payload.
Proof.
  split.
  - vm_compute. split; [discriminate | reflexivity].
  - intros [E|E]; vm_compute in E; discriminate.
Defined.

Lemma mute5_payload_well_formed : well_formed mute5_payload.
Proof.
  split.
  - vm_compute. split; [discriminate | reflexivity].
  - intros _. vm_compute. discriminate.
Defined.

Lemma C2_chunking_on_two_frames :
  Forall well_formed [ka_payload; mute5_payload]
  ∧ feed [take 3 two_frames; drop 3 two_frames] connected
    = handleIncomingData two_frames connected
  ∧ (handleIncomingData two_frames connected).1
    = Ok (Some [message ka_payload; message mute5_payload]).
Proof.
  assert (Forall well_formed [ka_payload; mute5_payload]) as Hwf.
  { constructor; [exact ka_payload_well_formed|].
    constructor; [exact mute5_payload_well_formed | constructor]. }
  split; [exact Hwf|].
  apply (C2_chunking_yields_same_frames [ka_payload; mute5_payload]
           [take 3 two_frames; drop 3 two_frames] connected Hwf).
  - reflexivity.
  - vm_compute. reflexivity.
Defined.


Lemma C4_tri_state_on_channel_5 :
  let options := {| activeColor := 16711680; inactiveColor := 65280 |} in
  let observed :=
    (handlePVPacket (pv_packet (Str.js "line/ch5/mute") Float32.zero) constructor).2 in
  known constructor 5 "mute" = None
  ∧ known observed 5 "mute" = Some false
  ∧ channel_feedback channel_mute_state options 5 constructor = None
  ∧ channel_feedback channel_mute_state options 5 observed = Some 65280
  ∧ mixerBypassState constructor = false
  ∧ handlePVPacket (pv_packet (Str.js "global/mixerBypass") Float32.zero) constructor
    = (Ok tt, constructor).
Proof.
  intros options observed.
  destruct (C4_tri_state_for_channels_only [53] "mute" constructor)
    as (Hobserved & Hfeedback & Hconstructor & Hbypass).
  - discriminate.
  - constructor; [reflexivity | constructor].
  - left. reflexivity.
  - reflexivity.
  - destruct (Hfeedback channel_mute_state options eq_refl) as [Hunknown Hfalse].
    repeat apply conj; [reflexivity | exact Hobserved | exact Hunknown | exact Hfalse
                        | exact Hconstructor | exact Hbypass].
Defined.

Lemma C5_skips_on_concrete_buffers :
  loop_body (set_receiveBuffer [x55; x43; x02; x00; x00; x00] connected)
  = (Ok (Continue None),
     set_receiveBuffer [x02; x00; x00; x00] (add_logged WarnInvalidVersion connected))
  ∧ (handleIncomingData ([x55; x43] ++ spec_frame ka_payload) connected).1
    = Ok (Some [message ka_payload])
  ∧ (handleIncomingData ([x55; x43; x55] ++ spec_frame ka_payload) connected).1
    = Ok (Some [message ka_payload]).
Proof.
  destruct C5_invalid_version_skips_two_bytes as (Hstep & Hadjacent & Hlater).
  repeat apply conj.
  - refine (Hstep (set_receiveBuffer [x55; x43; x02; x00; x00; x00] connected)
                   x02 x00 [x00; x00] eq_refl _ _); vm_compute; discriminate.
  - apply Hadjacent; [exact ka_payload_well_formed | reflexivity].
  - apply Hlater; [exact ka_payload_well_formed | reflexivity].
Defined.

Lemma C6_snapshot_keeps_solo_of_channel_3 :
  packet_defines example_zm 3 "solo" = false
  ∧ packet_defines_bypass example_zm = false
  ∧ known (handleZMPacket example_zm solo3_known).2 3 "solo" = Some true
  ∧ mixerBypassState (handleZMPacket example_zm solo3_known).2 = false
  ∧ known (handleZMPacket example_zm solo3_known).2 3 "mute" = Some true.
Proof.
  destruct (C6_snapshot_merges example_zm solo3_known) as [Hchannels Hbypass].
  repeat apply conj.
  - vm_compute. reflexivity.
  - vm_compute. reflexivity.
  - rewrite (Hchannels 3%N "solo"%string); vm_compute; reflexivity.
  - rewrite Hbypass; vm_compute; reflexivity.
  - vm_compute. reflexivity.
Defined.

Lemma C8_corrupt_stream_is_dropped :
  snapshot_of (zm_packet [xff]) = Throw (LibraryError "invalid block type")
  ∧ channelStates (handleZMPacket (zm_packet [xff]) solo3_known).2
    = channelStates solo3_known
  ∧ mixerBypassState (handleZMPacket (zm_packet [xff]) solo3_known).2
    = mixerBypassState solo3_known
  ∧ handleZMPacket (zm_packet [xff]) solo3_known
    = (Ok tt,
       add_logged (ErrorDecompressing (LibraryError "invalid block type")) solo3_known).
Proof.
  assert (snapshot_of (zm_packet [xff]) = Throw (LibraryError "invalid block type"))
    as Hfail by (vm_compute; reflexivity).
  split; [exact Hfail|].
  destruct (C8_failed_snapshot_is_dropped (zm_packet [xff]) solo3_known
              (LibraryError "invalid block type") Hfail)
    as (Hchannels & Hbypass & Hlogged).
  repeat apply conj; [exact Hchannels | exact Hbypass |].
  apply Hlogged. vm_compute. discriminate.
Defined.

Lemma C9_toggles_on_channel_3 :
  channel (toggleChannelMute 3 pad3_known).2 3 = Some {[ "mute"%string := true ]}
  ∧ known (toggleChannelMute 3 pad3_known).2 3 "pad" = None
  ∧ channel (toggleChannelSolo 3 pad3_known).2 3
    = Some (<["solo"%string := true]> {[ "pad"%string := true ]})
  ∧ known (toggleChannelSolo 3 pad3_known).2 3 "pad" = Some true
  ∧ known (toggleChannel48V 3 pad3_known).2 3 "pad" = Some true
  ∧ known (toggleChannelHPF 3 pad3_known).2 3 "pad" = Some true
  ∧ known (toggleChannelPad 3 mute3_known).2 3 "mute" = Some true.
Proof.
  destruct (C9_mute_replaces_others_merge 3 pad3_known {[ "pad"%string := true ]} eq_refl)
    as (Hmute & Hsolo & H48v & Hhpf & _).
  destruct (C9_mute_replaces_others_merge 3 mute3_known {[ "mute"%string := true ]} eq_refl)
    as (_ & _ & _ & _ & Hpad).
  destruct (Hmute eq_refl) as [Hmute1 Hmute2].
  destruct (Hsolo eq_refl) as [Hsolo1 Hsolo2].
  destruct (H48v eq_refl) as [_ H48v2].
  destruct (Hhpf eq_refl) as [_ Hhpf2].
  destruct (Hpad eq_refl) as [_ Hpad2].
  repeat apply conj.
  - exact Hmute1.
  - apply Hmute2. discriminate.
  - exact Hsolo1.
  - rewrite Hsolo2 by discriminate. reflexivity.
  - rewrite H48v2 by discriminate. reflexivity.
  - rewrite Hhpf2 by discriminate. reflexivity.
  - rewrite Hpad2 by discriminate. reflexivity.
Defined.

(** Outside the frames C2 is about, the chunk boundaries matter: when a PV
    frame without a body is followed by a keepalive in the same chunk, the
    [catch] of the loop takes the magic off the keepalive, which is lost;
    when the keepalive comes in a chunk of its own, it is decoded. *)
Example chunking_matters_after_a_failed_frame :
  (handleIncomingData (spec_frame empty_pv_payload ++ spec_frame ka_payload) connected).1
  = Ok (Some [])
  ∧ (feed [spec_frame empty_pv_payload; spec_frame ka_payload] connected).1
    = Ok (Some [message ka_payload]).
Proof. vm_compute. repeat split. Qed.

(** * The further properties on concrete inputs *)

Lemma X1_parsePacket_accepts_a_keepalive :
  parsePacket [xd5; xc3; x01; x00; x06; x00; x4b; x41; x68; x00; x66; x00; xff]
  = Ok (message ka_payload).
Proof.
  apply (proj2 (X1_parsePacket_accepts_the_frames _ _)).
  exists xd5, xc3, ka_payload, [xff].
  split; [reflexivity|]. split; [reflexivity|]. split; [reflexivity|].
  split; [|reflexivity]. vm_compute. split; [discriminate | reflexivity].
Defined.

Lemma X2_parsePacket_errors_on_concrete_frames :
  parsePacket [x55; x43; x01] = Throw (Error "Packet too small to be valid")
  ∧ parsePacket [x55; x43; x00; x01; x06; x00; x4b; x41; x68; x00; x66; x00]
    = Throw (Error "Invalid header")
  ∧ parsePacket (take 8 (spec_frame ka_payload)) = Throw (Error "Incomplete packet")
  ∧ parsePacket (spec_frame [x4b; x41]) = Throw RangeError.
Proof.
  destruct X2_parsePacket_errors as (Hsmall & Hheader & Hcut & Hshort).
  repeat apply conj.
  - apply Hsmall. vm_compute. reflexivity.
  - apply Hheader; [vm_compute; discriminate|]. right. vm_compute. discriminate.
  - apply (Hcut ka_payload _ (drop 8 (spec_frame ka_payload))).
    + vm_compute. reflexivity.
    + vm_compute. discriminate.
    + discriminate.
    + apply take_drop.
  - apply (Hshort [x4b; x41] []). vm_compute. reflexivity.
Defined.

Lemma X3_round_trip_of_port_50000_and_mute5 :
  (∃ frame packet,
     buildUMPacket 50000 = Ok frame
     ∧ parsePacket (with_version_1 frame) = Ok packet
     ∧ type packet = Str.js "UM"
     ∧ addressPair packet = {| a := 0; b := 0x66 |}
     ∧ Buf.len (data packet) = 2
     ∧ Buf.readUInt16LE (data packet) 0 = Ok 50000)
  ∧ (∃ frame,
       buildPVPacket (Str.js "line/ch5/mute") Float32.one = Ok frame
       ∧ parsePacket (with_version_1 frame)
         = Ok (pv_packet (Str.js "line/ch5/mute") Float32.one)).
Proof.
  destruct X3_frames_round_trip_up_to_the_version as (Hum & Hpv & _).
  split.
  - apply (Hum 50000). lia.
  - apply (Hpv (Str.js "line/ch5/mute") Float32.one). vm_compute. discriminate.
Defined.

Lemma X4_builders_limits_on_concrete_inputs :
  buildUMPacket 65536 = Throw RangeError
  ∧ buildUMPacket (-1) = Throw RangeError
  ∧ buildPVPacket (repeat 97 (Z.to_nat 65523)) Float32.one = Throw RangeError
  ∧ ∃ frame,
      buildPVPacket (repeat 97 (Z.to_nat 65522)) Float32.one = Ok frame
      ∧ Buf.len frame = 19 + Buf.len (Str.to_utf8 (repeat 97 (Z.to_nat 65522)))
      ∧ Buf.readUInt16LE frame 4 = Ok (Buf.len frame - 6).
Proof.
  destruct X4_builders_limits as (Hum & Hlong & Hfits).
  repeat apply conj.
  - apply Hum. lia.
  - apply Hum. lia.
  - apply Hlong. vm_compute. reflexivity.
  - apply Hfits. vm_compute. discriminate.
Defined.

Lemma X6_datagram_same_as_stream_on_mute5 :
  well_formed mute5_payload
  ∧ receiveBuffer connected = []
  ∧ (handleIncomingUDPData (spec_frame mute5_payload ++ [xff; xff]) connected).2
    = (handleIncomingData (spec_frame mute5_payload) connected).2.
Proof.
  split; [exact mute5_payload_well_formed|]. split; [reflexivity|].
  apply (X6_datagram_same_as_stream mute5_payload [xff; xff] connected
           mute5_payload_well_formed eq_refl).
Defined.

Lemma X7_datagram_without_a_frame_on_keepalive :
  handleIncomingUDPData [x55; x43; x01] connected = (Ok tt, connected)
  ∧ handleIncomingUDPData (take 8 (spec_frame ka_payload)) connected
    = (Ok tt, add_logged (ErrorParsingUDP (Error "Incomplete packet")) connected)
  ∧ handleIncomingUDPData (spec_frame empty_pv_payload ++ spec_frame ka_payload) connected
    = (Ok tt, add_logged (ErrorParsingUDP RangeError) connected).
Proof.
  destruct (X7_datagram_without_a_frame connected) as (Hnone & Hcut & Hbad).
  repeat apply conj.
  - apply Hnone. left. vm_compute. reflexivity.
  - apply (Hcut ka_payload (take 8 (spec_frame ka_payload)) (drop 8 (spec_frame ka_payload))).
    + vm_compute. reflexivity.
    + vm_compute. discriminate.
    + discriminate.
    + apply take_drop.
  - apply Hbad.
    + vm_compute. reflexivity.
    + right. split; [vm_compute; reflexivity|]. right. vm_compute. reflexivity.
Defined.

Lemma X10_garbage_in_front_of_a_keepalive :
  handleIncomingData ([x00; xff; x55] ++ spec_frame ka_payload) connected
  = handleIncomingData (spec_frame ka_payload) (add_logged (WarnDiscarding 3) connected).
Proof.
  apply (X10_garbage_in_front_is_skipped [x00; xff; x55] (drop 2 (spec_frame ka_payload)) connected).
  - reflexivity.
  - discriminate.
  - vm_compute. reflexivity.
  - vm_compute. discriminate.
Defined.

Lemma X11_input_without_a_frame_on_short_chunks :
  handleIncomingData [x55; x43; x01] connected
  = (Ok (Some []), set_receiveBuffer [x55; x43; x01] connected)
  ∧ handleIncomingData [x00; x01; x02; x03; x04; x55] connected
    = (Ok (Some []), set_receiveBuffer [] (add_logged WarnNoHeader connected)).
Proof.
  split.
  - apply (X11_input_without_a_frame [x55; x43; x01] connected).
    left. vm_compute. reflexivity.
  - apply (X11_input_without_a_frame [x00; x01; x02; x03; x04; x55] connected).
    + vm_compute. discriminate.
    + vm_compute. reflexivity.
Defined.

Lemma X12_malformed_frame_in_front_of_a_keepalive :
  loop_body (set_receiveBuffer (spec_frame empty_pv_payload ++ spec_frame ka_payload) connected)
  = (Ok (Continue None),
     set_receiveBuffer (drop 2 (spec_frame ka_payload))
       (add_logged (ErrorParsingTCP RangeError)
          (set_receiveBuffer (spec_frame empty_pv_payload ++ spec_frame ka_payload) connected))).
Proof.
  apply (X12_malformed_frame_costs_two_more_bytes empty_pv_payload (spec_frame ka_payload)
           (set_receiveBuffer (spec_frame empty_pv_payload ++ spec_frame ka_payload) connected)).
  - reflexivity.
  - vm_compute. reflexivity.
  - right. split; [vm_compute; reflexivity|]. right. vm_compute. reflexivity.
Defined.

Lemma X14_solo_of_channel_3_is_not_forgotten :
  known solo3_known 3 "solo" ≠ None
  ∧ known (handleIncomingData (spec_frame mute5_payload) solo3_known).2 3 "solo" ≠ None
  ∧ known (handleIncomingUDPData (spec_frame mute5_payload) solo3_known).2 3 "solo" ≠ None.
Proof.
  assert (known solo3_known 3 "solo" ≠ None) as Hknown by (vm_compute; discriminate).
  split; [exact Hknown|].
  apply (X14_incoming_data_never_forgets (spec_frame mute5_payload) solo3_known 3 "solo" Hknown).
Defined.

Lemma X16_volume_of_channel_5_is_ignored :
  match_channel_path (Str.js "line/ch05/mute") = Some (Str.js "05", "mute"%string)
  ∧ handlePVPacket (pv_packet (Str.js "line/ch5/volume") Float32.one) solo3_known
    = (Ok tt, solo3_known).
Proof.
  destruct X16_other_parameters_are_ignored as [Hpattern Hignored].
  split.
  - apply Hpattern. split; [reflexivity|]. split; [discriminate|].
    split; [repeat constructor | left; reflexivity].
  - apply (Hignored (pv_packet (Str.js "line/ch5/volume") Float32.one) solo3_known
             (Str.js "line/ch5/volume") (S754_finite false 8388608 (-23))).
    + vm_compute. reflexivity.
    + discriminate.
    + intros digits attr Hne Hdigits Hattr Hname.
      assert (match_channel_path (Str.js "line/ch5/volume") = Some (digits, attr)) as Hmatch
        by (apply Hpattern; repeat split; assumption).
      vm_compute in Hmatch. discriminate.
Defined.

Lemma X17_last_key_of_a_channel_decides :
  snapshot_value two_keys_snapshot 3 "mute" = Some (VNum Float32.one)
  ∧ known (handleZMPacket (H := second_runtime) two_keys_zm mute3_known).2 3 "mute" = Some true
  ∧ mixerBypassState (handleZMPacket (H := second_runtime) two_keys_zm mute3_known).2 = true.
Proof.
  assert (4 ≤ Buf.len (data two_keys_zm)) as Hlen by (vm_compute; discriminate).
  assert (snapshot_of (H := second_runtime) two_keys_zm = Ok two_keys_snapshot) as Hsnapshot
    by (vm_compute; reflexivity).
  assert ((updateChannelStates (H := second_runtime) two_keys_snapshot mute3_known).1 = Ok tt)
    as Hupdated by (vm_compute; reflexivity).
  assert (snapshot_value two_keys_snapshot 3 "mute" = Some (VNum Float32.one)) as Hvalue
    by (vm_compute; reflexivity).
  destruct (X17_snapshot_sets_what_it_defines (H := second_runtime) two_keys_zm two_keys_snapshot
              mute3_known Hlen Hsnapshot Hupdated) as [Hchannels Hbypass].
  split; [exact Hvalue|]. split.
  - destruct (Hchannels 3%N "mute"%string (VNum Float32.one) (or_introl eq_refl) Hvalue)
      as (active & Hactive & Hknown).
    rewrite Hknown. injection Hactive as <-. reflexivity.
  - apply (Hbypass (VNum Float32.one) true); reflexivity.
Defined.

Lemma X18_snapshot_header_of_the_example :
  handleZMPacket example_zm solo3_known
  = handleZMPacket
      {| type := Str.js "ZM"; addressPair := {| a := 0; b := 0 |};
         data := [xff; xff; xff; xff; x00; x00] ++ stored_block (Str.to_utf8 example_text) |}
      solo3_known.
Proof.
  apply (X18_snapshot_header_is_not_inspected [x00; x00; x00; x00; x78; x9c]
           [xff; xff; xff; xff; x00; x00] (stored_block (Str.to_utf8 example_text)));
    reflexivity.
Defined.

Lemma X19_snapshot_with_a_null_channel :
  snapshot_of (H := second_runtime) null_channel_zm = Ok null_channel_snapshot
  ∧ snapshot_bypass_value null_channel_snapshot = Some (VNum Float32.one)
  ∧ handleZMPacket (H := second_runtime) null_channel_zm connected
    = (Ok tt, add_logged (ErrorDecompressing TypeError) connected)
  ∧ mixerBypassState (handleZMPacket (H := second_runtime) null_channel_zm connected).2 = false.
Proof.
  assert (4 ≤ Buf.len (data null_channel_zm)) as Hlen by (vm_compute; discriminate).
  assert (snapshot_of (H := second_runtime) null_channel_zm = Ok null_channel_snapshot)
    as Hsnapshot by (vm_compute; reflexivity).
  assert ((updateChannelStates (H := second_runtime) null_channel_snapshot connected).1
          = Throw TypeError) as Hthrown by (vm_compute; reflexivity).
  destruct (X19_snapshot_stops_at_the_first_exception (H := second_runtime) null_channel_zm
              null_channel_snapshot connected TypeError Hlen Hsnapshot Hthrown)
    as [Hrun Hbypass].
  split; [exact Hsnapshot|]. split; [vm_compute; reflexivity|].
  split; [|exact Hbypass].
  rewrite Hrun. vm_compute. reflexivity.
Defined.

Lemma X20_setters_on_channel_5 :
  (setChannelSolo 5 true solo3_known).1 = Ok tt
  ∧ channelStates (setChannelSolo 5 true solo3_known).2 = channelStates solo3_known
  ∧ mixerBypassState (setChannelSolo 5 true solo3_known).2 = mixerBypassState solo3_known
  ∧ receiveBuffer (setChannelSolo 5 true solo3_known).2 = receiveBuffer solo3_known
  ∧ ∃ frame,
      is_pv_frame frame (channel_path 5 "solo") true
      ∧ tcpWritten (setChannelSolo 5 true solo3_known).2 = written_after frame solo3_known.
Proof.
  apply (proj1 (X20_setters_send_and_record_nothing solo3_known true) "solo"%string setChannelSolo 5%N).
  right. left. reflexivity.
Defined.

Lemma X21_toggle_flips_mute_of_channel_3 :
  (toggleChannelMute 3 mute3_known).1 = Ok tt
  ∧ known (toggleChannelMute 3 mute3_known).2 3 "mute" = Some false
  ∧ (∀ (m : N) (attr' : string),
       m ≠ 3%N ∨ attr' ≠ "mute"%string →
       known (toggleChannelMute 3 mute3_known).2 m attr' = known mute3_known m attr')
  ∧ mixerBypassState (toggleChannelMute 3 mute3_known).2 = mixerBypassState mute3_known
  ∧ receiveBuffer (toggleChannelMute 3 mute3_known).2 = receiveBuffer mute3_known
  ∧ ∃ frame,
      is_pv_frame frame (channel_path 3 "mute") false
      ∧ tcpWritten (toggleChannelMute 3 mute3_known).2 = written_after frame mute3_known.
Proof.
  apply (X21_toggle_flips_a_known_state "mute" toggleChannelMute 3 mute3_known true).
  - left. reflexivity.
  - reflexivity.
Defined.

Lemma X22_toggling_pad_of_channel_3_twice :
  let once := (toggleChannelPad 3 pad3_known).2 in
  let twice := (toggleChannelPad 3 once).2 in
  channelStates twice = channelStates pad3_known
  ∧ ∃ frame frame',
      is_pv_frame frame (channel_path 3 "pad") false
      ∧ is_pv_frame frame' (channel_path 3 "pad") true
      ∧ tcpWritten twice
        = if tcpWritable pad3_known then tcpWritten pad3_known ++ [frame; frame']
          else tcpWritten pad3_known.
Proof.
  apply (X22_toggling_twice_restores "pad" toggleChannelPad 3 pad3_known true).
  - do 4 right. left. reflexivity.
  - reflexivity.
Defined.

Lemma X23_unknown_defaults_on_channel_5 :
  ((toggleChannelHPF 5 connected).1 = Ok tt
   ∧ known (toggleChannelHPF 5 connected).2 5 "hpf" ≠ None)
  ∧ (known (toggleChannelSolo 5 connected).2 5 "solo" = Some true
     ∧ ∃ frame,
         is_pv_frame frame (channel_path 5 "solo") true
         ∧ tcpWritten (toggleChannelSolo 5 connected).2 = written_after frame connected)
  ∧ (known (toggleChannelHPF 5 connected).2 5 "hpf" = Some false
     ∧ ∃ frame,
         is_pv_frame frame (channel_path 5 "hpf") false
         ∧ tcpWritten (toggleChannelHPF 5 connected).2 = written_after frame connected)
  ∧ (known (toggleChannelPad 5 connected).2 5 "pad" = Some false
     ∧ ∃ frame,
         is_pv_frame frame (channel_path 5 "pad") false
         ∧ tcpWritten (toggleChannelPad 5 connected).2 = written_after frame connected).
Proof.
  destruct (X23_unknown_defaults_of_the_toggles 5 connected) as (Hall & Hsolo & Hhpf & Hpad).
  repeat apply conj.
  - apply (Hall "hpf"%string toggleChannelHPF). do 3 right. left. reflexivity.
  - apply (Hall "hpf"%string toggleChannelHPF). do 3 right. left. reflexivity.
  - apply Hsolo. reflexivity.
  - apply Hsolo. reflexivity.
  - apply Hhpf. reflexivity.
  - apply Hhpf. reflexivity.
  - apply Hpad. reflexivity.
  - apply Hpad. reflexivity.
Defined.

Lemma X25_echo_of_mute_on_channel_5 :
  let echoed := (handlePVPacket (pv_packet (channel_path 5 "mute") (bool_number true))
                   solo3_known).2 in
  (handlePVPacket (pv_packet (channel_path 5 "mute") (bool_number true)) solo3_known).1 = Ok tt
  ∧ known echoed 5 "mute" = Some true
  ∧ (∀ (m : N) (attr' : string),
       m ≠ 5%N ∨ attr' ≠ "mute"%string → known echoed m attr' = known solo3_known m attr')
  ∧ mixerBypassState echoed = mixerBypassState solo3_known
  ∧ ∀ options : FeedbackOptions,
      channel_feedback channel_mute_state options 5 echoed = Some (activeColor options).
Proof.
  intros echoed.
  destruct (X25_echo_records_the_value 5 "mute" true solo3_known)
    as (Hreturns & Hknown & Hothers & Hbypass & Hfeedback).
  - left. reflexivity.
  - reflexivity.
  - repeat apply conj; [exact Hreturns | exact Hknown | exact Hothers | exact Hbypass|].
    intros options. exact (Hfeedback channel_mute_state options eq_refl).
Defined.

Lemma X26_toggle_of_48v_agrees_with_its_echo :
  let after := (toggleChannel48V 3 pad3_known).2 in
  ∃ flag,
    known after 3 "48v" = Some flag
    ∧ tcpWritten after
      = written_after (pv_frame (channel_path 3 "48v") (bool_number flag)) pad3_known
    ∧ channelStates
        (handlePVPacket (pv_packet (channel_path 3 "48v") (bool_number flag)) after).2
      = channelStates after.
Proof.
  apply (X26_toggle_agrees_with_its_echo "48v" toggleChannel48V 3 pad3_known).
  - do 2 right. left. reflexivity.
  - reflexivity.
Defined.

Lemma X27_subscription_with_port_50000 :
  (∃ um jm,
     buildUMPacket 50000 = Ok um
     ∧ buildJMPacket = Ok jm
     ∧ subscribeToDevice 50000 connected = (Ok tt, sent jm (sent um connected))
     ∧ tcpWritten (sent jm (sent um connected))
       = (if tcpWritable connected then tcpWritten connected ++ [um; jm]
          else tcpWritten connected)
     ∧ logged (sent jm (sent um connected))
       = (if tcpWritable connected then logged connected
          else logged connected ++ [ErrorNotConnected; ErrorNotConnected])
     ∧ channelStates (sent jm (sent um connected)) = channelStates connected
     ∧ mixerBypassState (sent jm (sent um connected)) = mixerBypassState connected
     ∧ receiveBuffer (sent jm (sent um connected)) = receiveBuffer connected)
  ∧ subscribeToDevice 70000 connected = (Throw RangeError, connected).
Proof.
  split.
  - apply (proj1 (X27_subscription_sends_UM_then_JM 50000 connected)). lia.
  - apply (proj1 (proj2 (X27_subscription_sends_UM_then_JM 70000 connected))). lia.
Defined.
